(** * torcx: the boot-time apply pipeline of [internal/torcx/perform.go]

    A shallow embedding of [ApplyProfile], [applyImages], [SealSystemState],
    [setupPaths], [unpackTgz], [mountSquashfs], [CurrentOsVersionID] and
    [parseOsVersionID], together with the part of the Go standard library
    these functions lean on (line scanning, [strings.SplitN], the [%q] verb).

    Go strings are byte strings: [string] of the Standard Library, whose
    characters are the 256 byte values. *)

From Stdlib Require Import String Ascii List ZArith NArith Bool Arith Lia.
Import ListNotations.

Local Open Scope string_scope.
Local Open Scope list_scope.

(** ** Bytes and string helpers of the Go runtime *)

Module GoString.

Definition LF : ascii := "010"%char.
Definition CR : ascii := "013"%char.
Definition DQ : ascii := "034"%char.
Definition BSL : ascii := "092"%char.
Definition EQS : ascii := "061"%char.

(** One double-quote character, as a string. *)
Definition dq : string := String DQ EmptyString.
(** One newline, as a string. *)
Definition nl : string := String LF EmptyString.

(** [strings.Join(elems, sep)]. *)
Definition Join (elems : list string) (sep : string) : string :=
  String.concat sep elems.

(** Cut [s] at the first occurrence of the byte [sep]:
    [None] when [sep] does not occur. *)
Fixpoint cut (sep : ascii) (s : string) : option (string * string) :=
  match s with
  | EmptyString => None
  | String c rest =>
      if Ascii.eqb c sep then Some (EmptyString, rest)
      else match cut sep rest with
           | Some (a, b) => Some (String c a, b)
           | None => None
           end
  end.

(** [strings.SplitN(s, sep, n)] for a one-byte separator and [n >= 0]:
    at most [n] pieces, the last one holding the unsplit remainder. *)
Fixpoint SplitN (s : string) (sep : ascii) (n : nat) : list string :=
  match n with
  | O => []
  | S O => [s]
  | S n' =>
      match cut sep s with
      | None => [s]
      | Some (a, b) => a :: SplitN b sep n'
      end
  end.

(** The lines of a byte stream as [bufio.ScanLines] sees them before the
    carriage return is dropped: the text between newlines, and a last
    unterminated line when it is not empty. *)
Fixpoint rawLines (s : string) : list string :=
  match s with
  | EmptyString => []
  | String c rest =>
      if Ascii.eqb c LF then EmptyString :: rawLines rest
      else match rawLines rest with
           | [] => [String c EmptyString]
           | l :: ls => String c l :: ls
           end
  end.

(** [dropCR] of package bufio: one trailing carriage return is removed. *)
Fixpoint dropCR (s : string) : string :=
  match s with
  | EmptyString => EmptyString
  | String c EmptyString => if Ascii.eqb c CR then EmptyString else s
  | String c rest => String c (dropCR rest)
  end.

(** [bufio.MaxScanTokenSize]: a line of this many bytes or more does not
    fit the scanner's buffer. *)
Definition MaxScanTokenSize : N := 65536.

Definition len (s : string) : N := N.of_nat (String.length s).

(** [n] copies of the byte [c]. *)
Fixpoint replicate (n : nat) (c : ascii) : string :=
  match n with
  | O => EmptyString
  | S k => String c (replicate k c)
  end.

(** *** The [%q] verb: [strconv.Quote] *)

Definition byte (c : ascii) : N := N_of_ascii c.

Definition inRange (lo hi b : N) : bool := ((lo <=? b) && (b <=? hi))%N.

Definition lowerhex (n : N) : ascii :=
  match String.get (N.to_nat n) "0123456789abcdef" with
  | Some c => c
  | None => "0"%char
  end.

Definition hex2 (b : N) : string :=
  String (lowerhex (b / 16 mod 16)%N) (String (lowerhex (b mod 16)%N) EmptyString).
Definition hex4 (r : N) : string := (hex2 (r / 256) ++ hex2 r)%string.
Definition hex8 (r : N) : string := (hex4 (r / 65536) ++ hex4 r)%string.

(** [utf8.RuneError]. *)
Definition RuneError : N := 65533.

(** A UTF-8 continuation byte. *)
Definition cont (c : ascii) : bool := inRange 128 191 (byte c).
Definition low6 (c : ascii) : N := N.land (byte c) 63.

(** [utf8.DecodeRuneInString]: the first rune of [s] and its width in
    bytes; an invalid or short encoding gives [(RuneError, 1)]. *)
Definition DecodeRuneInString (s : string) : N * nat :=
  match s with
  | EmptyString => (RuneError, 0)
  | String c0 t0 =>
      let b0 := byte c0 in
      if (b0 <? 128)%N then (b0, 1)
      else if inRange 194 223 b0 then
        match t0 with
        | String c1 _ =>
            if cont c1
            then (N.lor (N.shiftl (N.land b0 31) 6) (low6 c1), 2)
            else (RuneError, 1)
        | _ => (RuneError, 1)
        end
      else if inRange 224 239 b0 then
        match t0 with
        | String c1 (String c2 _) =>
            let lo := if (b0 =? 224)%N then 160%N else 128%N in
            let hi := if (b0 =? 237)%N then 159%N else 191%N in
            if inRange lo hi (byte c1) && cont c2
            then (N.lor (N.shiftl (N.land b0 15) 12)
                    (N.lor (N.shiftl (low6 c1) 6) (low6 c2)), 3)
            else (RuneError, 1)
        | _ => (RuneError, 1)
        end
      else if inRange 240 244 b0 then
        match t0 with
        | String c1 (String c2 (String c3 _)) =>
            let lo := if (b0 =? 240)%N then 144%N else 128%N in
            let hi := if (b0 =? 244)%N then 143%N else 191%N in
            if inRange lo hi (byte c1) && cont c2 && cont c3
            then (N.lor (N.shiftl (N.land b0 7) 18)
                    (N.lor (N.shiftl (low6 c1) 12)
                       (N.lor (N.shiftl (low6 c2) 6) (low6 c3))), 4)
            else (RuneError, 1)
        | _ => (RuneError, 1)
        end
      else (RuneError, 1)
  end.

Section Quote.

(** [unicode.IsPrint] on the runes from U+0080 on: the Unicode tables
    of the Go runtime. *)
Variable IsPrintHigh : N -> bool.

(** [strconv.IsPrint]. *)
Definition IsPrint (r : N) : bool :=
  if (r <? 128)%N then inRange 32 126 r else IsPrintHigh r.

(** [appendEscapedRune] for the double-quote character, with neither
    ASCII-only nor graphic-only output; [raw] is the encoding of [r]. *)
Definition appendEscapedRune (r : N) (raw : string) : string :=
  if ((r =? 34) || (r =? 92))%N then String BSL raw
  else if IsPrint r then raw
  else if (r =? 7)%N then "\a"
  else if (r =? 8)%N then "\b"
  else if (r =? 12)%N then "\f"
  else if (r =? 10)%N then "\n"
  else if (r =? 13)%N then "\r"
  else if (r =? 9)%N then "\t"
  else if (r =? 11)%N then "\v"
  else if ((r <? 32) || (r =? 127))%N then ("\x" ++ hex2 r)%string
  else if (r <? 65536)%N then ("\u" ++ hex4 r)%string
  else ("\U" ++ hex8 r)%string.

(** The loop of [appendQuotedWith]; [skip] counts the bytes of the
    current rune that are still to be passed over. *)
Fixpoint quoteFrom (s : string) (skip : nat) : string :=
  match s with
  | EmptyString => EmptyString
  | String c rest =>
      match skip with
      | S k => quoteFrom rest k
      | O =>
          let '(r, width) := DecodeRuneInString s in
          let out :=
            if Nat.eqb width 1 && (r =? RuneError)%N
            then ("\x" ++ hex2 (byte c))%string
            else appendEscapedRune r (substring 0 width s) in
          (out ++ quoteFrom rest (width - 1))%string
      end
  end.

(** [strconv.Quote]. *)
Definition Quote (s : string) : string :=
  (dq ++ quoteFrom s 0 ++ dq)%string.

(** [fmt.Sprintf("%s=%q", key, value)]. *)
Definition Sprintf_s_eq_q (key value : string) : string :=
  (key ++ "=" ++ Quote value)%string.

End Quote.

End GoString.
Import GoString.

(** ** Data model *)

(** [Image]: a named, versioned addon. *)
Record Image := mkImage {
  Name : string;
  Reference : string;
  Remote : string
}.

(** The format of an archive.  The source switches over two named formats
    and has a default branch, so the type admits further values. *)
Inductive ArchiveFormat :=
| ArchiveFormatTgz
| ArchiveFormatSquashfs
| ArchiveFormatOther (raw : string).

(** [Archive]: the file backing an image. *)
Record Archive := mkArchive {
  Filepath : string;
  Format : ArchiveFormat
}.

(** ** Errors *)

(** An operand of a format string. *)
Inductive FmtArg :=
| ArgStr (s : string)
| ArgInt (n : Z)
| ArgArchive (a : Archive).

(** Go error values, by the call that builds them. *)
Inductive error :=
| errorsNew (msg : string)                                   (* errors.New *)
| fmtErrorf (format : string) (args : list FmtArg)           (* fmt.Errorf *)
| errorsWrap (cause : error) (msg : string)                  (* errors.Wrap *)
| errorsWrapf (cause : error) (format : string) (args : list FmtArg)
| PathError (op path : string) (errno : Z)                   (* *os.PathError *)
| Errno (errno : Z)                                          (* syscall.Errno *)
| ErrTooLong                                                 (* bufio.ErrTooLong *)
| ErrArchiveNotFound (name reference : string)               (* no archive in any store *)
| Sentinel (var : string).                   (* the value of a package-level error variable *)

Definition ENOENT : Z := 2.

(** [os.IsNotExist]. *)
Definition IsNotExist (e : error) : bool :=
  match e with
  | PathError _ _ n => Z.eqb n ENOENT
  | Errno n => Z.eqb n ENOENT
  | _ => false
  end.

(** A Go result pair [(v, err)]: the value when [err] is nil. *)
Inductive Result (A : Type) :=
| Ok (v : A)
| Err (e : error).
Arguments Ok {A} v.
Arguments Err {A} e.

(** Error values are compared by identity in the source ([err != errX]);
    here, by their structure. *)
Definition ArchiveFormat_eq_dec (a b : ArchiveFormat) : {a = b} + {a <> b}.
Proof. decide equality. apply string_dec. Defined.

Definition Archive_eq_dec (a b : Archive) : {a = b} + {a <> b}.
Proof. decide equality; [apply ArchiveFormat_eq_dec | apply string_dec]. Defined.

Definition FmtArg_eq_dec (a b : FmtArg) : {a = b} + {a <> b}.
Proof.
  decide equality; [apply string_dec | apply Z.eq_dec | apply Archive_eq_dec].
Defined.

Definition error_eq_dec (a b : error) : {a = b} + {a <> b}.
Proof.
  decide equality;
    try apply string_dec; try apply Z.eq_dec;
    apply (list_eq_dec FmtArg_eq_dec).
Defined.

Definition sameError (a b : error) : bool :=
  if error_eq_dec a b then true else false.

(** ** The os-release parser *)

(** [ErrUnknownOSVersionID]. *)
Definition ErrUnknownOSVersionID : error :=
  errorsNew ("unable to parse " ++ dq ++ "VERSION_ID" ++ dq ++ " from os-release")%string.

(** The [for sc.Scan()] loop of [parseOsVersionID] over the raw lines still
    to be scanned.  The result is [ver] and [sc.Err()] when the loop is left.
    A line too long for the scanner ends the scan with [ErrTooLong]. *)
Fixpoint scanVersionID (pending : list string) : string * option error :=
  match pending with
  | [] => (EmptyString, None)
  | raw :: rest =>
      if (MaxScanTokenSize <=? len raw)%N then (EmptyString, Some ErrTooLong)
      else
        let line := dropCR raw in
        if String.eqb line EmptyString then scanVersionID rest
        else
          match SplitN line EQS 2 with
          | [key; val] =>
              if String.eqb key "VERSION_ID" then (val, None)
              else scanVersionID rest
          | _ => scanVersionID rest
          end
  end.

(** The end of [parseOsVersionID], from [ver] and [sc.Err()]. *)
Definition finishScan (r : string * option error) : Result string :=
  let '(ver, scErr) := r in
  match scErr with
  | Some e => Err (errorsWrap e "failed to parse os-release file")
  | None =>
      if String.eqb ver EmptyString then Err ErrUnknownOSVersionID
      else Ok ver
  end.

(** [parseOsVersionID(rd)], [rd] being read to its end without a read error. *)
Definition parseOsVersionID (rd : string) : Result string :=
  finishScan (scanVersionID (rawLines rd)).

(** What an open file hands to the scanner of [parseOsVersionID]: the bytes
    its reads deliver, and then the end of the file ([failure] is [None]) or
    the error of the read that fails. *)
Record Reader := mkReader { delivered : string; failure : option error }.

(** The bytes cut into the lines a newline ends and the bytes after the last
    newline. *)
Fixpoint splitComplete (s : string) : list string * string :=
  match s with
  | EmptyString => ([], EmptyString)
  | String c rest =>
      let '(lines, last) := splitComplete rest in
      if Ascii.eqb c LF then (EmptyString :: lines, last)
      else
        match lines with
        | [] => ([], String c last)
        | l :: lines' => (String c l :: lines', last)
        end
  end.

(** The [for sc.Scan()] loop of [parseOsVersionID] over lines the scanner
    holds whole; [atEnd] is [ver] and [sc.Err()] once they are used up
    without a VERSION_ID line. *)
Fixpoint scanVersionIDThen (atEnd : string * option error)
    (pending : list string) : string * option error :=
  match pending with
  | [] => atEnd
  | raw :: rest =>
      if (MaxScanTokenSize <=? len raw)%N then (EmptyString, Some ErrTooLong)
      else
        let line := dropCR raw in
        if String.eqb line EmptyString then scanVersionIDThen atEnd rest
        else
          match SplitN line EQS 2 with
          | [key; val] =>
              if String.eqb key "VERSION_ID" then (val, None)
              else scanVersionIDThen atEnd rest
          | _ => scanVersionIDThen atEnd rest
          end
  end.

(** [parseOsVersionID(rd)] for an open file.  A read of a file delivers
    bytes or fails, never both, and the scanner reads only when it holds no
    whole line: the lines a newline ends are scanned before a failing read
    is met, and a VERSION_ID line among them leaves the loop with
    [sc.Err()] still nil.  Without one the scanner meets the failing read,
    or [ErrTooLong] first when the bytes after the last newline fill its
    buffer; the bytes after the last newline are then scanned as a last
    line, but with [sc.Err()] set the function returns it wrapped whatever
    they hold. *)
Definition parseOsVersionIDFrom (rd : Reader) : Result string :=
  match failure rd with
  | None => parseOsVersionID (delivered rd)
  | Some e =>
      let '(lines, last) := splitComplete (delivered rd) in
      finishScan
        (scanVersionIDThen
           (EmptyString,
            Some (if (MaxScanTokenSize <=? len last)%N then ErrTooLong else e))
           lines)
  end.

(** [CurrentOsVersionID] is defined below, once files can be opened. *)

(** ** Configuration, assets and manifests *)

(** [ApplyConfig]: the context of one apply run. *)
Record ApplyConfig := mkApplyConfig {
  BaseDir : string;
  RunDir : string;
  ConfDir : string;
  StorePaths : list string;
  LowerProfiles : list string;
  UpperProfile : string
}.

(** [Assets]: what an unpacked image ships, by category. *)
Record Assets := mkAssets {
  Binaries : list string;
  Network : list string;
  Units : list string;
  Sysusers : list string;
  Tmpfiles : list string;
  UdevRules : list string
}.

(** The six propagation steps. *)
Inductive AssetKind :=
| KBinaries | KNetwork | KUnits | KSysusers | KTmpfiles | KUdevRules.

(** Modelled from the spec: the type [ImagesV0] and the function
    [ImagesToJSONV0] are declared outside the files at hand.  The sealed run
    profile is [{"kind": ..., "value": {"images": [...]}}] with one entry per
    image of the merged list, in order; an entry carries its image. *)
Record ImagesV0 := mkImagesV0 {
  Images : list Image
}.

Definition ImagesToJSONV0 (images : list Image) : ImagesV0 :=
  {| Images := images |}.

(** [ProfileManifestV0JSON]. *)
Record ProfileManifestV0JSON := mkProfileManifestV0JSON {
  Kind : string;
  Value : ImagesV0
}.

(** Modelled from the spec: the kind constants are declared outside the
    files at hand; the spec gives [profile-manifest-v0] for the sealed run
    profile and [profile-manifest-v1] for the profile manifests read. *)
Definition ProfileManifestV0K : string := "profile-manifest-v0".
Definition ProfileManifestV1K : string := "profile-manifest-v1".

(** Modelled from the spec: the store cache is declared outside the files at
    hand.  It is a lookup index keyed by image name and reference, built once
    from the store paths.  The program only hands it back to [ArchiveFor]. *)
Record StoreCache := mkStoreCache {
  index : list ((string * string) * Archive)
}.

(** File modes and mount flags. *)
Definition octal (u g o : Z) : Z := (u * 64 + g * 8 + o)%Z.
Definition MS_RDONLY : Z := 1.
Definition MS_REMOUNT : Z := 32.

(** Package-level declarations that [perform.go] uses and that live in other
    files: the seal constants, the path methods of [ApplyConfig],
    [VendorOsReleasePath]; and the pure library functions applied to them
    ([path/filepath], the Unicode tables, the syntax check of [net/url]). *)
Record Decls := mkDecls {
  SealPath : string;
  SealLowerProfiles : string;
  SealUpperProfile : string;
  SealRunProfilePath : string;
  SealBindir : string;
  SealUnpackdir : string;
  RunProfile : ApplyConfig -> string;
  RunBinDir : ApplyConfig -> string;
  RunUnpackDir : ApplyConfig -> string;
  UserProfileDir : ApplyConfig -> string;
  VendorOsReleasePath : string -> string;
  filepath_Join : string -> string -> string;
  filepath_Dir : string -> string;
  unicode_IsPrint : N -> bool;
  url_valid : string -> bool
}.

(** ** The environment: calls, traces and the world *)

Inductive Level := DebugLevel | ErrorLevel.

Inductive LogValue :=
| LStr (s : string)
| LList (l : list string).

Definition Fields := list (string * LogValue).

(** One call that leaves the program.  [File] handles, readers and loop
    devices are named by the path they were opened on. *)
Inductive Event :=
| EvStat (path : string)
| EvMkdirAll (path : string) (perm : Z)
| EvMount (source target fstype : string) (flags : Z) (data : string)
| EvChmod (path : string) (mode : Z)
| EvCreate (path : string)
| EvOpen (path : string)
| EvClose (path : string)
| EvWriteString (path : string) (s : string)
| EvEncode (path : string) (prefix indent : string) (v : ProfileManifestV0JSON)
| EvFlush (path : string)
| EvRead (path : string)
| EvGzipNewReader (path : string)
| EvGzipClose (path : string)
| EvChrootUntar (src dir : string) (xattrPrivileged : bool)
| EvAttachLoopDevice (path : string)
| EvLoopClose (dev : string)
| EvNewStoreCache (paths : list string)
| EvArchiveFor (im : Image)
| EvMergeProfiles (cfg : ApplyConfig)
| EvRetrieveAssets (cfg : ApplyConfig) (imageRoot : string)
| EvPropagate (kind : AssetKind) (cfg : ApplyConfig) (imageRoot : string)
    (assets : list string)
| EvLog (lvl : Level) (fields : Fields) (msg : string) (err : option error).

(** The calls made so far, oldest first. *)
Definition Trace := list Event.

(** The world answers each call from the calls made before it.  [sysErr]
    answers the calls that return only an error; the other oracles answer
    the calls that return a value.  The functions of the package that live
    in other files ([NewStoreCache], [ArchiveFor], [mergeProfiles],
    [retrieveAssets], the six propagation steps) are answered by the world
    as well: nothing is assumed about them.  [w_content] answers the bytes
    the reads of a file deliver; for a file handed to a line scanner,
    [sysErr] at [EvRead] answers whether a read fails after these bytes. *)
Record World := mkWorld {
  sysErr : Trace -> Event -> option error;
  w_AttachLoopDevice : Trace -> string -> Result string;
  w_NewStoreCache : Trace -> list string -> Result StoreCache;
  w_ArchiveFor : Trace -> StoreCache -> Image -> Result Archive;
  w_mergeProfiles : Trace -> ApplyConfig -> Result (list Image);
  w_retrieveAssets : Trace -> ApplyConfig -> string -> Result Assets;
  w_content : Trace -> string -> string
}.

(** ** The monad: a trace threaded through fallible steps *)

Definition M (A : Type) : Type := Trace -> Result A * Trace.

Definition ret {A} (a : A) : M A := fun t => (Ok a, t).

Definition throw {A} (e : error) : M A := fun t => (Err e, t).

Definition bind {A B} (m : M A) (k : A -> M B) : M B :=
  fun t =>
    match m t with
    | (Ok a, t') => k a t'
    | (Err e, t') => (Err e, t')
    end.

Declare Scope go_scope.
Delimit Scope go_scope with go.
Notation "x <- m ;; k" := (bind m (fun x => k))
  (at level 61, m at next level, right associativity) : go_scope.
Notation "m ;; k" := (bind m (fun _ => k))
  (at level 61, right associativity) : go_scope.
Local Open Scope go_scope.

(** Run [m] and hand its outcome to the caller without failing. *)
Definition attempt {A} (m : M A) : M (Result A) :=
  fun t => let '(r, t') := m t in (Ok r, t').

(** [errors.Wrap] and the like on the error path of [m]. *)
Definition mapErr {A} (f : error -> error) (m : M A) : M A :=
  fun t =>
    match m t with
    | (Err e, t') => (Err (f e), t')
    | r => r
    end.

(** A call whose result is dropped: only the trace sees it. *)
Definition emit (ev : Event) : M unit := fun t => (Ok tt, t ++ [ev]).

(** [defer]: [ev] is called when [body] returns, however it returns. *)
Definition defer {A} (ev : Event) (body : M A) : M A :=
  fun t => let '(r, t') := body t in (r, t' ++ [ev]).

(** [logrus.WithFields(fields).<Level>(msg, err)]. *)
Definition log (lvl : Level) (fields : Fields) (msg : string)
    (err : option error) : M unit :=
  emit (EvLog lvl fields msg err).

(** On the error path of [m], log the error at error level and fail with it. *)
Definition orLog {A} (fields : Fields) (msg : string) (m : M A) : M A :=
  fun t =>
    match m t with
    | (Err e, t') => (Err e, t' ++ [EvLog ErrorLevel fields msg (Some e)])
    | r => r
    end.

Definition nonEmpty {A} (l : list A) : bool := (0 <? List.length l)%nat.

(** ** The program *)

Section Program.

Variable D : Decls.
Variable w : World.

(** *** Calls into the operating system and the libraries *)

(** A call that returns only an error: the world answers, the trace
    records the call. *)
Definition call (ev : Event) : M unit :=
  fun t =>
    (match sysErr w t ev with
     | None => Ok tt
     | Some e => Err e
     end, t ++ [ev]).

(** A call that returns a value. *)
Definition ask {A} (ev : Event) (answer : Trace -> Result A) : M A :=
  fun t => (answer t, t ++ [ev]).

Definition os_Stat (path : string) : M unit := call (EvStat path).
Definition os_MkdirAll (path : string) (perm : Z) : M unit :=
  call (EvMkdirAll path perm).
Definition os_Chmod (path : string) (mode : Z) : M unit :=
  call (EvChmod path mode).
Definition os_Create (path : string) : M string :=
  call (EvCreate path);; ret path.
Definition os_Open (path : string) : M string :=
  call (EvOpen path);; ret path.
Definition unix_Mount (source target fstype : string) (flags : Z)
    (data : string) : M unit :=
  call (EvMount source target fstype flags data).
Definition WriteString (fp : string) (s : string) : M unit :=
  call (EvWriteString fp s).
(** [json.NewEncoder(bufio.NewWriter(fp))], [SetIndent(prefix, indent)],
    [Encode(v)]. *)
Definition json_Encode (fp prefix indent : string)
    (v : ProfileManifestV0JSON) : M unit :=
  call (EvEncode fp prefix indent v).
Definition gzip_NewReader (fp : string) : M string :=
  call (EvGzipNewReader fp);; ret fp.
(** [pkgtar.ChrootUntar(tar.NewReader(gr), dir, cfg)]. *)
Definition ChrootUntar (gr dir : string) (xattrPrivileged : bool) : M unit :=
  call (EvChrootUntar gr dir xattrPrivileged).
Definition AttachLoopDevice (path : string) : M string :=
  ask (EvAttachLoopDevice path) (fun t => w_AttachLoopDevice w t path).
(** A file read to its end by code that is not at hand and whose
    description tells of no failing read: the release file of the remote
    resolver.  [CurrentOsVersionID] reads through [NewScanner]. *)
Definition ReadAll (fp : string) : M string :=
  ask (EvRead fp) (fun t => Ok (w_content w t fp)).
(** [bufio.NewScanner(fp)] and the reads of its [Scan]: the world answers
    the bytes delivered and whether a read fails after them. *)
Definition NewScanner (fp : string) : M Reader :=
  ask (EvRead fp)
    (fun t => Ok (mkReader (w_content w t fp) (sysErr w t (EvRead fp)))).

(** *** Functions of the package that live in other files *)

Definition NewStoreCache (paths : list string) : M StoreCache :=
  ask (EvNewStoreCache paths) (fun t => w_NewStoreCache w t paths).

Definition mergeProfiles (cfg : ApplyConfig) : M (list Image) :=
  ask (EvMergeProfiles cfg) (fun t => w_mergeProfiles w t cfg).

Definition retrieveAssets (cfg : ApplyConfig) (imageRoot : string) : M Assets :=
  ask (EvRetrieveAssets cfg imageRoot) (fun t => w_retrieveAssets w t cfg imageRoot).

Definition propagate (kind : AssetKind) (cfg : ApplyConfig)
    (imageRoot : string) (assets : list string) : M unit :=
  call (EvPropagate kind cfg imageRoot assets).

Definition propagateBins := propagate KBinaries.
Definition propagateNetworkdUnits := propagate KNetwork.
Definition propagateSystemdUnits := propagate KUnits.
Definition propagateSysusersUnits := propagate KSysusers.
Definition propagateTmpfilesUnits := propagate KTmpfiles.
Definition propagateUdevRules := propagate KUdevRules.

(** [storeCache.ArchiveFor(im)]. *)
Definition ArchiveFor (storeCache : StoreCache) (im : Image) : M Archive :=
  ask (EvArchiveFor im) (fun t => w_ArchiveFor w t storeCache im).

(** *** [setupPaths] *)

(** [if _, err := os.Stat(d); err != nil && os.IsNotExist(err)
     { if err := os.MkdirAll(d, 0755); err != nil { return err } }] *)
Definition mkdirIfMissing (d : string) : M unit :=
  r <- attempt (os_Stat d);;
  match r with
  | Err e => if IsNotExist e then os_MkdirAll d (octal 7 5 5) else ret tt
  | Ok _ => ret tt
  end.

Fixpoint mkdirEach (paths : list string) : M unit :=
  match paths with
  | [] => ret tt
  | d :: rest => mkdirIfMissing d;; mkdirEach rest
  end.

Definition errMissingCfg : error := errorsNew "missing apply configuration".

Definition setupPaths (applyCfg : option ApplyConfig) : M unit :=
  match applyCfg with
  | None => throw errMissingCfg
  | Some cfg =>
      let paths :=
        [ RunDir cfg; BaseDir cfg; ConfDir cfg; RunBinDir D cfg;
          RunUnpackDir D cfg; UserProfileDir D cfg ] in
      mkdirEach paths;;
      mapErr (fun e => errorsWrap e "failed to mount unpack dir")
        (unix_Mount "none" (RunUnpackDir D cfg) "tmpfs" 0 "size=450M");;
      mapErr (fun e => errorsWrap e "failed to chmod unpack dir")
        (os_Chmod (RunUnpackDir D cfg) (octal 7 5 5));;
      log DebugLevel [("target", LStr (RunUnpackDir D cfg))] "mounted tmpfs" None
  end.

(** *** [unpackTgz] and [mountSquashfs] *)

Definition unpackTgz (applyCfg : option ApplyConfig)
    (tgzPath imageName : string) : M string :=
  match applyCfg with
  | None => throw errMissingCfg
  | Some cfg =>
      if String.eqb tgzPath "" || String.eqb imageName ""
      then throw (errorsNew "missing unpack source")
      else
        let topDir := filepath_Join D (RunUnpackDir D cfg) imageName in
        mkdirIfMissing topDir;;
        fp <- mapErr (fun e => errorsWrapf e "opening %q" [ArgStr tgzPath])
                (os_Open tgzPath);;
        defer (EvClose fp)
          (gr <- gzip_NewReader fp;;
           defer (EvGzipClose gr)
             (mapErr (fun e => errorsWrapf e "unpacking %q" [ArgStr tgzPath])
                (ChrootUntar gr topDir true);;
              ret topDir))
  end.

Definition mountSquashfs (applyCfg : option ApplyConfig)
    (archivePath imageName : string) : M string :=
  match applyCfg with
  | None => throw errMissingCfg
  | Some cfg =>
      if String.eqb archivePath "" || String.eqb imageName ""
      then throw (errorsNew "missing unpack source")
      else
        let topDir := filepath_Join D (RunUnpackDir D cfg) imageName in
        mkdirIfMissing topDir;;
        loopDev <- AttachLoopDevice archivePath;;
        defer (EvLoopClose loopDev)
          (unix_Mount loopDev topDir "squashfs" MS_RDONLY "";;
           ret topDir)
  end.

(** *** [applyImages] *)

(** The [switch archive.Format] of the loop body. *)
Definition extract (applyCfg : option ApplyConfig) (archive : Archive)
    (im : Image) : M string :=
  match Format archive with
  | ArchiveFormatTgz => unpackTgz applyCfg (Filepath archive) (Name im)
  | ArchiveFormatSquashfs => mountSquashfs applyCfg (Filepath archive) (Name im)
  | _ => throw (fmtErrorf "unrecognized format for archive: %q" [ArgArchive archive])
  end.

(** [if len(list) > 0 { if err := step(...); err != nil { log; continue }; log }] *)
Definition propagateIf (kind : AssetKind) (cfg : ApplyConfig)
    (imageRoot : string) (list logged : list string) (logFields : Fields)
    (failure success : string) : M unit :=
  if nonEmpty list then
    orLog (logFields ++ [("assets", LList logged)]) failure
      (propagate kind cfg imageRoot list);;
    log DebugLevel (logFields ++ [("assets", LList logged)]) success None
  else ret tt.

(** The body of the loop over the images, for the image [im].  An error is
    the source's [failedImages = append(failedImages, im)] followed by
    [continue]; the error has been logged by then. *)
Definition applyImage (cfg : ApplyConfig) (storeCache : StoreCache)
    (im : Image) : M unit :=
  let logFields := [("image", LStr (Name im)); ("reference", LStr (Reference im))] in
  archive <- orLog logFields "" (ArchiveFor storeCache im);;
  imageRoot <- orLog logFields "failed to unpack: " (extract (Some cfg) archive im);;
  let logFields := logFields ++ [("path", LStr imageRoot)] in
  log DebugLevel logFields "image unpacked" None;;
  assets <- orLog logFields "failed retrieving assets from image: "
              (retrieveAssets cfg imageRoot);;
  propagateIf KBinaries cfg imageRoot (Binaries assets) (Binaries assets) logFields
    "failed to propagate binaries: " "binaries propagated";;
  propagateIf KNetwork cfg imageRoot (Network assets) (Network assets) logFields
    "failed to propagate networkd units: " "networkd units propagated";;
  propagateIf KUnits cfg imageRoot (Units assets) (Units assets) logFields
    "failed to propagate systemd units: " "systemd units propagated";;
  propagateIf KSysusers cfg imageRoot (Sysusers assets) (Sysusers assets) logFields
    "failed to propagate sysusers: " "sysusers propagated";;
  propagateIf KTmpfiles cfg imageRoot (Tmpfiles assets) (Units assets) logFields
    "failed to propagate tmpfiles: " "tmpfiles propagated";;
  propagateIf KUdevRules cfg imageRoot (UdevRules assets) (UdevRules assets) logFields
    "failed to propagate udev rules: " "udev rules propagated".

(** [for _, im := range images { ... }] with the failed images so far. *)
Fixpoint applyLoop (cfg : ApplyConfig) (storeCache : StoreCache)
    (images : list Image) (failedImages : list Image) : M (list Image) :=
  match images with
  | [] => ret failedImages
  | im :: rest =>
      r <- attempt (applyImage cfg storeCache im);;
      match r with
      | Ok _ => applyLoop cfg storeCache rest failedImages
      | Err _ => applyLoop cfg storeCache rest (failedImages ++ [im])
      end
  end.

Definition errFailedToInstall (n : nat) : error :=
  fmtErrorf "failed to install %d images" [ArgInt (Z.of_nat n)].

Definition applyImages (applyCfg : option ApplyConfig)
    (images : list Image) : M unit :=
  match applyCfg with
  | None => throw errMissingCfg
  | Some cfg =>
      storeCache <- NewStoreCache (StorePaths cfg);;
      failedImages <- applyLoop cfg storeCache images [];;
      if nonEmpty failedImages
      then throw (errFailedToInstall (List.length failedImages))
      else ret tt
  end.

(** *** [ApplyProfile] *)

(** The last step of [ApplyProfile], written in line in the source: the
    merged profile goes to the run-profile path, which is then made
    read-only. *)
Definition writeRunProfile (cfg : ApplyConfig) (images : list Image) : M unit :=
  let runProfile :=
    {| Kind := ProfileManifestV0K; Value := ImagesToJSONV0 images |} in
  rpp <- os_Create (RunProfile D cfg);;
  defer (EvClose rpp)
    (defer (EvFlush rpp)
       (mapErr (fun e => errorsWrapf e "writing %q" [ArgStr (RunProfile D cfg)])
          (json_Encode rpp "" "  " runProfile);;
        os_Chmod (RunProfile D cfg) (octal 4 4 4);;
        log DebugLevel
          [ ("upper profile", LStr (UpperProfile cfg));
            ("sealed profile", LStr (RunProfile D cfg)) ]
          "profile applied" None)).

Definition ApplyProfile (applyCfg : option ApplyConfig) : M unit :=
  match applyCfg with
  | None => throw errMissingCfg
  | Some cfg =>
      mapErr (fun e => errorsWrap e "profile setup") (setupPaths applyCfg);;
      images <- mergeProfiles cfg;;
      (if nonEmpty images then applyImages applyCfg images else ret tt);;
      writeRunProfile cfg images
  end.

(** *** [SealSystemState] *)

(** The five lines of the seal record, without their newline. *)
Definition sealContent (cfg : ApplyConfig) : list string :=
  let q := Sprintf_s_eq_q (unicode_IsPrint D) in
  [ q (SealLowerProfiles D) (Join (LowerProfiles cfg) ":");
    q (SealUpperProfile D) (UpperProfile cfg);
    q (SealRunProfilePath D) (RunProfile D cfg);
    q (SealBindir D) (RunBinDir D cfg);
    q (SealUnpackdir D) (RunUnpackDir D cfg) ].

(** [for _, line := range content { fp.WriteString(line + "\n") ... }] *)
Fixpoint writeLines (fp : string) (content : list string) : M unit :=
  match content with
  | [] => ret tt
  | line :: rest =>
      mapErr (fun e => errorsWrap e "writing seal content")
        (WriteString fp (line ++ nl)%string);;
      writeLines fp rest
  end.

Definition SealSystemState (applyCfg : option ApplyConfig) : M unit :=
  match applyCfg with
  | None => throw errMissingCfg
  | Some cfg =>
      let dirname := filepath_Dir D (SealPath D) in
      mkdirIfMissing dirname;;
      fp <- os_Create (SealPath D);;
      defer (EvClose fp)
        (let content := sealContent cfg in
         writeLines fp content;;
         mapErr (fun e => errorsWrap e "failed to remount read-only")
           (unix_Mount (RunUnpackDir D cfg) (RunUnpackDir D cfg) ""
              (Z.lor MS_REMOUNT MS_RDONLY) "");;
         log DebugLevel
           [("path", LStr (SealPath D)); ("content", LList content)]
           "system state sealed" None)
  end.

(** *** [CurrentOsVersionID] *)

Definition liftResult {A} (r : Result A) : M A := fun t => (r, t).

Definition CurrentOsVersionID (path : string) : M string :=
  let path := if String.eqb path "" then VendorOsReleasePath D "/usr" else path in
  fp <- mapErr (fun e => errorsWrapf e "failed to open %q" [ArgStr path])
          (os_Open path);;
  defer (EvClose fp)
    (rd <- NewScanner fp;;
     liftResult (parseOsVersionIDFrom rd)).

End Program.

(** ** The remote resolver *)

Module RemoteResolver.

(** [Remote]: a templated fetch location. *)
Record Remote := mkRemote {
  TemplateURL : string
}.

(** The package-level error variables the tests compare against. *)
Definition errNilRemote : error := Sentinel "errNilRemote".
Definition errEmptyUsrMountpoint : error := Sentinel "errEmptyUsrMountpoint".
Definition errEmptyTemplateURL : error := Sentinel "errEmptyTemplateURL".
Definition errInvalidURL : error := Sentinel "errInvalidURL".

(** Optional surrounding quotes of a value are removed. *)
Definition stripQuotes (v : string) : string :=
  match v with
  | String c rest =>
      if Ascii.eqb c DQ then
        match String.get (String.length rest - 1) rest with
        | Some d =>
            if Ascii.eqb d DQ then substring 0 (String.length rest - 1) rest
            else v
        | None => v
        end
      else v
  | EmptyString => v
  end.

(** Modelled from the spec: the release-info reader behind the template
    variables is declared outside the files at hand.  Blank lines and lines
    without [=] are skipped; the value loses its surrounding quotes. *)
Fixpoint releaseFacts (lines : list string) : list (string * string) :=
  match lines with
  | [] => []
  | raw :: rest =>
      let line := dropCR raw in
      if String.eqb line EmptyString then releaseFacts rest
      else
        match SplitN line EQS 2 with
        | [key; val] => (key, stripQuotes val) :: releaseFacts rest
        | _ => releaseFacts rest
        end
  end.

Fixpoint assoc (facts : list (string * string)) (key : string) : option string :=
  match facts with
  | [] => None
  | (k, v) :: rest => if String.eqb k key then Some v else assoc rest key
  end.

(** The alias-aware table: the two mountpoint names are bound to the
    mountpoint, the two board names to the same fact. *)
Definition lookupVar (facts : list (string * string)) (usrMountpoint : string)
    (name : string) : option string :=
  if String.eqb name "COREOS_USR" || String.eqb name "FLATCAR_USR"
  then Some usrMountpoint
  else if String.eqb name "COREOS_BOARD" || String.eqb name "FLATCAR_BOARD"
  then match assoc facts "FLATCAR_BOARD" with
       | Some v => Some v
       | None => assoc facts "COREOS_BOARD"
       end
  else assoc facts name.

(** Where the tokenizer stands: in plain text, after a dollar sign, or
    inside the name of a placeholder. *)
Inductive Scan :=
| Plain
| Dollar
| InName (name : string).

(** Placeholders whose name the table knows are replaced; the others stay
    as they are written. *)
Fixpoint substitute (lookup : string -> option string) (s : string)
    (st : Scan) : string :=
  match s with
  | EmptyString =>
      match st with
      | Plain => EmptyString
      | Dollar => "$"
      | InName name => ("${" ++ name)%string
      end
  | String c rest =>
      match st with
      | Plain =>
          if Ascii.eqb c "$"%char then substitute lookup rest Dollar
          else String c (substitute lookup rest Plain)
      | Dollar =>
          if Ascii.eqb c "{"%char then substitute lookup rest (InName EmptyString)
          else if Ascii.eqb c "$"%char
          then String "$"%char (substitute lookup rest Dollar)
          else String "$"%char (String c (substitute lookup rest Plain))
      | InName name =>
          if Ascii.eqb c "}"%char then
            (match lookup name with
             | Some v => v
             | None => "${" ++ name ++ "}"
             end ++ substitute lookup rest Plain)%string
          else substitute lookup rest (InName (name ++ String c EmptyString))
      end
  end.

Section Evaluate.

Variable D : Decls.
Variable w : World.

(** Modelled from the spec: [evaluateURL] is declared outside the files
    at hand (its test is at hand).  The three preconditions are checked
    in order; then the placeholders of the template are replaced from
    the release-info facts under [<mountpoint>/lib/os-release] and the
    mountpoint; the result has to be a valid URL. *)
Definition evaluateURL (r : option Remote) (usrMountpoint : string) : M string :=
  match r with
  | None => throw errNilRemote
  | Some remote =>
      if String.eqb usrMountpoint "" then throw errEmptyUsrMountpoint
      else if String.eqb (TemplateURL remote) "" then throw errEmptyTemplateURL
      else
        rd <- ReadAll w (filepath_Join D usrMountpoint "lib/os-release");;
        let facts := releaseFacts (rawLines rd) in
        let url :=
          substitute (lookupVar facts usrMountpoint) (TemplateURL remote) Plain in
        if url_valid D url then ret url else throw errInvalidURL
  end.

End Evaluate.

End RemoteResolver.

(** ** Vocabulary of the statements *)

(** What a trace shows of some kind of call. *)
Definition seen {X : Type} (f : Event -> list X) (t : Trace) : list X :=
  flat_map f t.

(** [m] makes no call of the kind [f]. *)
Definition quiet {X A : Type} (f : Event -> list X) (m : M A) : Prop :=
  forall t, seen f (snd (m t)) = seen f t.

(** The image a call resolves: the loop body starts with this call. *)
Definition attemptOf (ev : Event) : list Image :=
  match ev with
  | EvArchiveFor im => [im]
  | _ => []
  end.

(** The images a trace shows as attempted, oldest first. *)
Definition attempted (t : Trace) : list Image := seen attemptOf t.

(** The calls of the last step of [ApplyProfile]: creating a file, encoding
    a manifest, flushing it, and making a file read-only to all. *)
Definition runProfileWrite (ev : Event) : list Event :=
  match ev with
  | EvCreate _ | EvEncode _ _ _ _ | EvFlush _ => [ev]
  | EvChmod _ mode => if Z.eqb mode (octal 4 4 4) then [ev] else []
  | _ => []
  end.

(** The calls of the per-image phase that touch the store. *)
Definition storeCall (ev : Event) : list Event :=
  match ev with
  | EvNewStoreCache _ | EvArchiveFor _ => [ev]
  | _ => []
  end.

(** Every image of [images] is applied in its turn, from the trace [t]:
    the trace reached, or [None] when one of them fails. *)
Fixpoint allApplied (D : Decls) (w : World) (cfg : ApplyConfig)
    (storeCache : StoreCache) (images : list Image) (t : Trace) : option Trace :=
  match images with
  | [] => Some t
  | im :: rest =>
      match applyImage D w cfg storeCache im t with
      | (Ok _, t') => allApplied D w cfg storeCache rest t'
      | (Err _, _) => None
      end
  end.

(** The world lets every line of [content] be written to [fp], from [t]. *)
Fixpoint writesSucceed (w : World) (fp : string) (content : list string)
    (t : Trace) : bool :=
  match content with
  | [] => true
  | line :: rest =>
      let ev := EvWriteString fp (line ++ nl)%string in
      match sysErr w t ev with
      | None => writesSucceed w fp rest (t ++ [ev])
      | Some _ => false
      end
  end.

(** A value that [%q] leaves as it is: printable ASCII without the
    double quote and the backslash. *)
Fixpoint plain (s : string) : bool :=
  match s with
  | EmptyString => true
  | String c rest =>
      inRange 32 126 (byte c) && negb (Ascii.eqb c DQ) && negb (Ascii.eqb c BSL)
      && plain rest
  end.

(** A text without a newline in it. *)
Fixpoint noLF (s : string) : bool :=
  match s with
  | EmptyString => true
  | String c rest => negb (Ascii.eqb c LF) && noLF rest
  end.

(** A raw line that fits the scanner. *)
Definition fits (raw : string) : bool := (len raw <? MaxScanTokenSize)%N.

(** A raw line that does not assign [VERSION_ID]. *)
Definition notVersion (raw : string) : bool :=
  negb (String.prefix "VERSION_ID=" (dropCR raw)).

(** A raw line that is blank or has no [=]. *)
Definition ignorable (raw : string) : bool :=
  match cut EQS (dropCR raw) with
  | Some _ => false
  | None => true
  end.

(** The raw lines the loop of [parseOsVersionID] reaches: those up to and
    including the first that does not fit the scanner or assigns
    [VERSION_ID]. *)
Fixpoint scanned (lines : list string) : list string :=
  match lines with
  | [] => []
  | raw :: rest =>
      if fits raw && notVersion raw then raw :: scanned rest else [raw]
  end.

(** *** Further vocabulary *)

(** The six directories [setupPaths] looks at, in its order. *)
Definition setupDirs (D : Decls) (cfg : ApplyConfig) : list string :=
  [ RunDir cfg; BaseDir cfg; ConfDir cfg; RunBinDir D cfg;
    RunUnpackDir D cfg; UserProfileDir D cfg ].

(** The calls [setupPaths] makes once the directories are there. *)
Definition setupTail (D : Decls) (cfg : ApplyConfig) : list Event :=
  [ EvMount "none" (RunUnpackDir D cfg) "tmpfs" 0 "size=450M";
    EvChmod (RunUnpackDir D cfg) (octal 7 5 5);
    EvLog DebugLevel [("target", LStr (RunUnpackDir D cfg))] "mounted tmpfs" None ].

(** The calls of the last step of [ApplyProfile] when all of them succeed. *)
Definition runProfileCalls (D : Decls) (cfg : ApplyConfig)
    (images : list Image) : list Event :=
  let rp := RunProfile D cfg in
  [ EvCreate rp;
    EvEncode rp "" "  "
      {| Kind := ProfileManifestV0K; Value := ImagesToJSONV0 images |};
    EvChmod rp (octal 4 4 4);
    EvLog DebugLevel
      [ ("upper profile", LStr (UpperProfile cfg)); ("sealed profile", LStr rp) ]
      "profile applied" None;
    EvFlush rp;
    EvClose rp ].

(** The write calls of [SealSystemState], one per line of the record. *)
Definition sealWrites (D : Decls) (cfg : ApplyConfig) : list Event :=
  map (fun line => EvWriteString (SealPath D) (line ++ nl)%string)
    (sealContent D cfg).

(** The remount call of [SealSystemState]. *)
Definition sealRemount (D : Decls) (cfg : ApplyConfig) : Event :=
  EvMount (RunUnpackDir D cfg) (RunUnpackDir D cfg) ""
    (Z.lor MS_REMOUNT MS_RDONLY) "".

(** Mounts and loop devices. *)
Definition mountCall (ev : Event) : list Event :=
  match ev with
  | EvMount _ _ _ _ _ | EvAttachLoopDevice _ | EvLoopClose _ => [ev]
  | _ => []
  end.

(** Reading and unpacking an archive file. *)
Definition tarCall (ev : Event) : list Event :=
  match ev with
  | EvOpen _ | EvClose _ | EvGzipNewReader _ | EvGzipClose _
  | EvChrootUntar _ _ _ => [ev]
  | _ => []
  end.

(** Records logged at error level. *)
Definition errorLog (ev : Event) : list Event :=
  match ev with
  | EvLog ErrorLevel _ _ _ => [ev]
  | _ => []
  end.

(** A propagation step: its kind and the assets handed to it. *)
Definition propagation (ev : Event) : list (AssetKind * list string) :=
  match ev with
  | EvPropagate kind _ _ assets => [(kind, assets)]
  | _ => []
  end.

(** The propagation steps an image with the assets [a] asks for: its
    categories that are not empty, in the order of the loop body. *)
Definition wanted (a : Assets) : list (AssetKind * list string) :=
  filter (fun step => nonEmpty (snd step))
    [ (KBinaries, Binaries a); (KNetwork, Network a); (KUnits, Units a);
      (KSysusers, Sysusers a); (KTmpfiles, Tmpfiles a);
      (KUdevRules, UdevRules a) ].

(** The root directory of the image [im], below the unpack directory. *)
Definition imageRoot (D : Decls) (cfg : ApplyConfig) (im : Image) : string :=
  filepath_Join D (RunUnpackDir D cfg) (Name im).

(** The directory an archive is unpacked into, or mounted on as a
    squashfs. *)
Definition unpacking (ev : Event) : list string :=
  match ev with
  | EvChrootUntar _ dir _ => [dir]
  | EvMount _ target fstype _ _ =>
      if String.eqb fstype "squashfs" then [target] else []
  | _ => []
  end.

(** The image root assets are retrieved from. *)
Definition retrieval (ev : Event) : list string :=
  match ev with
  | EvRetrieveAssets _ root => [root]
  | _ => []
  end.

(** A propagation step with the image root it works on. *)
Definition propagationAt (ev : Event)
    : list (string * (AssetKind * list string)) :=
  match ev with
  | EvPropagate kind _ root assets => [(root, (kind, assets))]
  | _ => []
  end.

(** The propagation steps of the images [images], whose assets are
    [assetsOf] in the same order: for each image the steps its assets ask
    for, on the root of the image. *)
Fixpoint stepsOf (D : Decls) (cfg : ApplyConfig) (images : list Image)
    (assetsOf : list Assets) : list (string * (AssetKind * list string)) :=
  match images, assetsOf with
  | im :: images', a :: assetsOf' =>
      map (pair (imageRoot D cfg im)) (wanted a) ++ stepsOf D cfg images' assetsOf'
  | _, _ => []
  end.

(** [l1] is [l2] with some elements left out. *)
Inductive Subseq {A : Type} : list A -> list A -> Prop :=
| Subseq_nil : Subseq [] []
| Subseq_skip x l1 l2 : Subseq l1 l2 -> Subseq l1 (x :: l2)
| Subseq_keep x l1 l2 : Subseq l1 l2 -> Subseq (x :: l1) (x :: l2).

(** The trace [t] ends with an error-level record that carries [e] and
    starts with the name and the reference of [im]. *)
Definition loggedFailure (im : Image) (e : error) (t : Trace) : Prop :=
  exists before more msg,
    t = before
        ++ [EvLog ErrorLevel
              ([("image", LStr (Name im)); ("reference", LStr (Reference im))]
                 ++ more)
              msg (Some e)].

(** Every failure of [m] is logged that way. *)
Definition failsLogged {A : Type} (im : Image) (m : M A) : Prop :=
  forall t e t', m t = (Err e, t') -> loggedFailure im e t'.

(** [m] logs at error level when it fails, once, and never otherwise. *)
Definition accounts {A : Type} (m : M A) : Prop :=
  forall t,
    let '(r, t') := m t in
    List.length (seen errorLog t')
    = (List.length (seen errorLog t)
       + match r with Ok _ => 0 | Err _ => 1 end)%nat.

(** [m] only adds calls to the trace it is given. *)
Definition grows {A : Type} (m : M A) : Prop :=
  forall t, exists evs, snd (m t) = t ++ evs.

(** The path [CurrentOsVersionID] opens. *)
Definition osReleasePath (D : Decls) (path : string) : string :=
  if String.eqb path "" then VendorOsReleasePath D "/usr" else path.

(** ** A concrete system, to run the program on *)

Module Sample.

(** The directory part of a path written with single slashes. *)
Fixpoint dirOf (s : string) : string :=
  match s with
  | EmptyString => EmptyString
  | String c rest =>
      match cut "/"%char rest with
      | Some _ => String c (dirOf rest)
      | None => EmptyString
      end
  end.

Definition decls : Decls :=
  {| SealPath := "/run/metadata/torcx";
     SealLowerProfiles := "TORCX_LOWER_PROFILES";
     SealUpperProfile := "TORCX_UPPER_PROFILE";
     SealRunProfilePath := "TORCX_PROFILE_PATH";
     SealBindir := "TORCX_BINDIR";
     SealUnpackdir := "TORCX_UNPACKDIR";
     RunProfile := fun cfg => (RunDir cfg ++ "/profile.json")%string;
     RunBinDir := fun cfg => (RunDir cfg ++ "/bin")%string;
     RunUnpackDir := fun cfg => (RunDir cfg ++ "/unpack")%string;
     UserProfileDir := fun cfg => (ConfDir cfg ++ "/profiles")%string;
     VendorOsReleasePath := fun usr => (usr ++ "/lib/os-release")%string;
     filepath_Join := fun a b => (a ++ "/" ++ b)%string;
     filepath_Dir := dirOf;
     unicode_IsPrint := fun _ => false;
     url_valid := fun _ => true |}.

Definition cfg : ApplyConfig :=
  {| BaseDir := "/var/lib/torcx";
     RunDir := "/run/torcx";
     ConfDir := "/etc/torcx";
     StorePaths := ["/usr/share/torcx/store"; "/var/lib/torcx/store"];
     LowerProfiles := ["vendor"; "user"];
     UpperProfile := "session" |}.

Definition docker : Image := mkImage "docker" "1.12" "".
Definition rkt : Image := mkImage "rkt" "1.30" "".
Definition vim : Image := mkImage "vim" "8.0" "".
Definition odd : Image := mkImage "odd" "0.1" "".

Definition cache : StoreCache :=
  {| index :=
       [ (("docker", "1.12"), mkArchive "/store/docker:1.12.torcx.tgz" ArchiveFormatTgz);
         (("rkt", "1.30"), mkArchive "/store/rkt:1.30.torcx.tgz" ArchiveFormatTgz);
         (("vim", "8.0"), mkArchive "/store/vim:8.0.torcx.squashfs" ArchiveFormatSquashfs);
         (("odd", "0.1"), mkArchive "/store/odd:0.1.zip" (ArchiveFormatOther "zip")) ] |}.

(** The first archive indexed under a name and a reference. *)
Fixpoint lookupArchive (idx : list ((string * string) * Archive))
    (name reference : string) : option Archive :=
  match idx with
  | [] => None
  | ((n, r), a) :: rest =>
      if String.eqb n name && String.eqb r reference then Some a
      else lookupArchive rest name reference
  end.

(** A store cache answers from its index. *)
Definition archiveFor (storeCache : StoreCache) (im : Image) : Result Archive :=
  match lookupArchive (index storeCache) (Name im) (Reference im) with
  | Some a => Ok a
  | None => Err (ErrArchiveNotFound (Name im) (Reference im))
  end.

Definition assets : Assets :=
  {| Binaries := ["/bin/tool"]; Network := []; Units := ["tool.service"];
     Sysusers := []; Tmpfiles := []; UdevRules := [] |}.

Definition EIO : error := Errno 5.

(** A system in which the calls selected by [failing] fail with [EIO],
    every directory exists, and the profiles merge to [merged]. *)
Definition world (failing : Event -> bool) (merged : list Image) : World :=
  {| sysErr := fun _ ev => if failing ev then Some EIO else None;
     w_AttachLoopDevice := fun _ _ => Ok "/dev/loop0";
     w_NewStoreCache := fun _ _ => Ok cache;
     w_ArchiveFor := fun _ => archiveFor;
     w_mergeProfiles := fun _ _ => Ok merged;
     w_retrieveAssets := fun _ _ _ => Ok assets;
     w_content := fun _ _ => ("ID=flatcar" ++ nl ++ "VERSION_ID=2705.0.0" ++ nl)%string |}.

Definition never (_ : Event) : bool := false.

(** The archive of [rkt] cannot be opened. *)
Definition rktUnreadable (ev : Event) : bool :=
  match ev with
  | EvOpen path => String.eqb path "/store/rkt:1.30.torcx.tgz"
  | _ => false
  end.

(** Remounting fails. *)
Definition remountFails (ev : Event) : bool :=
  match ev with
  | EvMount _ _ _ flags _ => Z.testbit flags 5
  | _ => false
  end.

(** The release-info fixture of the tests, with quoted values. *)
Definition osContentCoreos : string :=
  (nl ++ "ID=" ++ dq ++ "coreos" ++ dq ++ nl
      ++ "VERSION_ID=" ++ dq ++ "1680.2.0" ++ dq ++ nl
      ++ "COREOS_BOARD=" ++ dq ++ "amd64-usr" ++ dq ++ nl)%string.

(** A release-info stream with blank lines, lines without [=] and two
    [VERSION_ID] lines. *)
Definition osContentNoisy : string :=
  (nl ++ "# release" ++ nl ++ "ID=flatcar" ++ nl ++ nl
      ++ "VERSION_ID=2705.0.0" ++ nl ++ "junk" ++ nl
      ++ "VERSION_ID=9.9.9" ++ nl)%string.

(** The same stream followed by a line that does not fit the scanner. *)
Definition osContentOversized : string :=
  (osContentNoisy
     ++ replicate (N.to_nat MaxScanTokenSize) "x"%char ++ nl)%string.

(** The second release-info fixture of the tests, mostly unquoted. *)
Definition osContentFlatcar : string :=
  (nl ++ "NAME=" ++ dq ++ "Flatcar Container Linux by Kinvolk" ++ dq ++ nl
      ++ "ID=flatcar" ++ nl
      ++ "ID_LIKE=coreos" ++ nl
      ++ "VERSION=2705.0.0" ++ nl
      ++ "VERSION_ID=2705.0.0" ++ nl
      ++ "BUILD_ID=2020-11-26-2020" ++ nl
      ++ "FLATCAR_BOARD=" ++ dq ++ "amd64-usr" ++ dq ++ nl)%string.

(** A system whose files all hold [content]. *)
Definition releaseWorld (content : string) : World :=
  {| sysErr := fun _ _ => None;
     w_AttachLoopDevice := fun _ _ => Ok "/dev/loop0";
     w_NewStoreCache := fun _ _ => Ok cache;
     w_ArchiveFor := fun _ => archiveFor;
     w_mergeProfiles := fun _ _ => Ok [];
     w_retrieveAssets := fun _ _ _ => Ok assets;
     w_content := fun _ _ => content |}.

(** The second fixture cut short in the line after its version line. *)
Definition osContentCut : string :=
  (nl ++ "ID=flatcar" ++ nl ++ "VERSION_ID=2705.0.0" ++ nl ++ "BUILD_ID=20")%string.

(** A system whose files open and hand out [content], after which reading
    them fails as reading a directory does. *)
Definition unreadable (content : string) : World :=
  {| sysErr := fun _ ev =>
       match ev with
       | EvRead path => Some (PathError "read" path 21)
       | _ => None
       end;
     w_AttachLoopDevice := fun _ _ => Ok "/dev/loop0";
     w_NewStoreCache := fun _ _ => Ok cache;
     w_ArchiveFor := fun _ => archiveFor;
     w_mergeProfiles := fun _ _ => Ok [];
     w_retrieveAssets := fun _ _ _ => Ok assets;
     w_content := fun _ _ => content |}.

(** A system built from the answer to each error-only call, the outcome
    of building the store cache and the merged images. *)
Definition system (answer : Event -> option error)
    (store : Result StoreCache) (merged : Result (list Image)) : World :=
  {| sysErr := fun _ ev => answer ev;
     w_AttachLoopDevice := fun _ _ => Ok "/dev/loop0";
     w_NewStoreCache := fun _ _ => store;
     w_ArchiveFor := fun _ => archiveFor;
     w_mergeProfiles := fun _ _ => merged;
     w_retrieveAssets := fun _ _ _ => Ok assets;
     w_content := fun _ _ => osContentFlatcar |}.

(** Nothing exists yet: every [Stat] reports a missing path. *)
Definition nothingExists (ev : Event) : option error :=
  match ev with
  | EvStat path => Some (PathError "stat" path ENOENT)
  | _ => None
  end.

(** [Stat] is denied everywhere; nothing else fails. *)
Definition statDenied (ev : Event) : option error :=
  match ev with
  | EvStat path => Some (PathError "stat" path 13)
  | _ => None
  end.

(** Nothing exists and the base directory cannot be made. *)
Definition baseDirFails (ev : Event) : option error :=
  match ev with
  | EvStat path => Some (PathError "stat" path ENOENT)
  | EvMkdirAll path _ =>
      if String.eqb path "/var/lib/torcx" then Some (PathError "mkdir" path 30)
      else None
  | _ => None
  end.

(** Nothing exists and the unpack directory cannot be chmodded. *)
Definition chmodFails (ev : Event) : option error :=
  match ev with
  | EvStat path => Some (PathError "stat" path ENOENT)
  | EvChmod path _ => Some (PathError "chmod" path 1)
  | _ => None
  end.

(** The merged run profile cannot be encoded. *)
Definition encodeFails (ev : Event) : option error :=
  match ev with
  | EvEncode _ _ _ _ => Some EIO
  | _ => None
  end.

(** The archives cannot be unpacked. *)
Definition untarFails (ev : Event) : option error :=
  match ev with
  | EvChrootUntar _ _ _ => Some EIO
  | _ => None
  end.

(** Mounting a squashfs fails. *)
Definition squashfsFails (ev : Event) : option error :=
  match ev with
  | EvMount _ _ fstype _ _ => if String.eqb fstype "squashfs" then Some EIO else None
  | _ => None
  end.

(** The unit files cannot be propagated. *)
Definition unitsFail (ev : Event) : option error :=
  match ev with
  | EvPropagate KUnits _ _ _ => Some EIO
  | _ => None
  end.

(** The fourth line of the seal record cannot be written. *)
Definition bindirLineFails (ev : Event) : option error :=
  match ev with
  | EvWriteString _ s => if String.prefix "TORCX_BINDIR" s then Some EIO else None
  | _ => None
  end.

(** No call fails. *)
Definition allFine (_ : Event) : option error := None.

(** An image without a name, indexed under a tar archive. *)
Definition nameless : Image := mkImage "" "1.0" "".

Definition namelessCache : StoreCache :=
  {| index := [(("", "1.0"), mkArchive "/store/nameless.torcx.tgz" ArchiveFormatTgz)] |}.

End Sample.

(** * Proofs *)

Import Sample.
Local Open Scope go_scope.

(** ** Running the monad *)

Section Steps.

Context {A B : Type}.

Lemma bind_ok (m : M A) (k : A -> M B) t a t' :
  m t = (Ok a, t') -> bind m k t = k a t'.
Proof. intros H. unfold bind. now rewrite H. Qed.

Lemma bind_err (m : M A) (k : A -> M B) t e t' :
  m t = (Err e, t') -> bind m k t = (Err e, t').
Proof. intros H. unfold bind. now rewrite H. Qed.

Lemma mapErr_ok (f : error -> error) (m : M A) t a t' :
  m t = (Ok a, t') -> mapErr f m t = (Ok a, t').
Proof. intros H. unfold mapErr. now rewrite H. Qed.

Lemma mapErr_err (f : error -> error) (m : M A) t e t' :
  m t = (Err e, t') -> mapErr f m t = (Err (f e), t').
Proof. intros H. unfold mapErr. now rewrite H. Qed.

Lemma orLog_ok fields msg (m : M A) t a t' :
  m t = (Ok a, t') -> orLog fields msg m t = (Ok a, t').
Proof. intros H. unfold orLog. now rewrite H. Qed.

Lemma orLog_err fields msg (m : M A) t e t' :
  m t = (Err e, t') ->
  orLog fields msg m t = (Err e, t' ++ [EvLog ErrorLevel fields msg (Some e)]).
Proof. intros H. unfold orLog. now rewrite H. Qed.

Lemma defer_run ev (m : M A) t r t' :
  m t = (r, t') -> defer ev m t = (r, t' ++ [ev]).
Proof. intros H. unfold defer. now rewrite H. Qed.

Lemma attempt_run (m : M A) t r t' :
  m t = (r, t') -> attempt m t = (Ok r, t').
Proof. intros H. unfold attempt. now rewrite H. Qed.

End Steps.

Lemma call_ok w ev t :
  sysErr w t ev = None -> call w ev t = (Ok tt, t ++ [ev]).
Proof. intros H. unfold call. now rewrite H. Qed.

Lemma call_err w ev t e :
  sysErr w t ev = Some e -> call w ev t = (Err e, t ++ [ev]).
Proof. intros H. unfold call. now rewrite H. Qed.

(** ** Calls a step does not make *)

Section Quiet.

Context {X : Type} (f : Event -> list X).

Lemma seen_app t1 t2 : seen f (t1 ++ t2) = seen f t1 ++ seen f t2.
Proof. unfold seen. apply flat_map_app. Qed.

Lemma seen_snoc t ev : f ev = [] -> seen f (t ++ [ev]) = seen f t.
Proof.
  intros H. rewrite seen_app. unfold seen at 2. simpl.
  rewrite H. now rewrite !app_nil_r.
Qed.

Lemma quiet_ret {A} (a : A) : quiet f (ret a).
Proof. now intros t. Qed.

Lemma quiet_throw {A} e : quiet f (@throw A e).
Proof. now intros t. Qed.

Lemma quiet_liftResult {A} (r : Result A) : quiet f (liftResult r).
Proof. now intros t. Qed.

Lemma quiet_bind {A B} (m : M A) (k : A -> M B) :
  quiet f m -> (forall a, quiet f (k a)) -> quiet f (bind m k).
Proof.
  intros Hm Hk t. unfold bind. specialize (Hm t).
  destruct (m t) as [[a|e] t']; simpl in *.
  - now rewrite Hk.
  - exact Hm.
Qed.

Lemma quiet_attempt {A} (m : M A) : quiet f m -> quiet f (attempt m).
Proof.
  intros Hm t. unfold attempt. specialize (Hm t).
  now destruct (m t) as [r t'].
Qed.

Lemma quiet_mapErr {A} g (m : M A) : quiet f m -> quiet f (mapErr g m).
Proof.
  intros Hm t. unfold mapErr. specialize (Hm t).
  now destruct (m t) as [[a|e] t'].
Qed.

Lemma quiet_emit ev : f ev = [] -> quiet f (emit ev).
Proof. intros H t. simpl. now apply seen_snoc. Qed.

Lemma quiet_log lvl fields msg err :
  f (EvLog lvl fields msg err) = [] -> quiet f (log lvl fields msg err).
Proof. apply quiet_emit. Qed.

Lemma quiet_defer {A} ev (m : M A) :
  f ev = [] -> quiet f m -> quiet f (defer ev m).
Proof.
  intros H Hm t. unfold defer. specialize (Hm t).
  destruct (m t) as [r t']; simpl in *. now rewrite seen_snoc.
Qed.

Lemma quiet_orLog {A} fields msg (m : M A) :
  (forall e, f (EvLog ErrorLevel fields msg (Some e)) = []) ->
  quiet f m -> quiet f (orLog fields msg m).
Proof.
  intros H Hm t. unfold orLog. specialize (Hm t).
  destruct (m t) as [[a|e] t']; simpl in *; auto.
  now rewrite seen_snoc.
Qed.

Lemma quiet_call w ev : f ev = [] -> quiet f (call w ev).
Proof. intros H t. simpl. now apply seen_snoc. Qed.

Lemma quiet_ask {A} ev (answer : Trace -> Result A) :
  f ev = [] -> quiet f (ask ev answer).
Proof. intros H t. simpl. now apply seen_snoc. Qed.

(** A first step that shows [xs], followed by quiet steps, shows [xs]. *)
Lemma seen_bind_first {A B} (m : M A) (k : A -> M B) xs :
  (forall t, seen f (snd (m t)) = seen f t ++ xs) ->
  (forall a, quiet f (k a)) ->
  forall t, seen f (snd (bind m k t)) = seen f t ++ xs.
Proof.
  intros Hm Hk t. unfold bind. specialize (Hm t).
  destruct (m t) as [[a|e] t']; simpl in *.
  - now rewrite Hk.
  - exact Hm.
Qed.

End Quiet.

(** Break a program into its steps; the side conditions on the events are
    settled by evaluating the projection. *)
Ltac quiet_steps :=
  repeat first
    [ progress intros
    | apply quiet_ret | apply quiet_throw | apply quiet_liftResult
    | apply quiet_bind | apply quiet_attempt | apply quiet_mapErr
    | apply quiet_defer | apply quiet_orLog | apply quiet_log
    | apply quiet_emit | apply quiet_call | apply quiet_ask
    | reflexivity
    | match goal with
      | |- quiet _ (match ?x with _ => _ end) => destruct x
      | |- quiet _ (let _ := _ in _) => cbv zeta
      end ].

Create HintDb go.
#[local] Hint Unfold os_Stat os_MkdirAll os_Chmod os_Create os_Open unix_Mount
  WriteString json_Encode gzip_NewReader ChrootUntar AttachLoopDevice ReadAll
  NewScanner
  NewStoreCache mergeProfiles retrieveAssets propagate ArchiveFor : go.

Ltac quiet_program := autounfold with go; quiet_steps.

Section QuietProgram.

Variable D : Decls.
Variable w : World.

Lemma quiet_mkdirIfMissing {X} (f : Event -> list X) d :
  (forall p, f (EvStat p) = []) -> (forall p m, f (EvMkdirAll p m) = []) ->
  quiet f (mkdirIfMissing w d).
Proof. intros H1 H2. unfold mkdirIfMissing. quiet_program; auto. Qed.

Lemma quiet_mkdirEach {X} (f : Event -> list X) paths :
  (forall p, f (EvStat p) = []) -> (forall p m, f (EvMkdirAll p m) = []) ->
  quiet f (mkdirEach w paths).
Proof.
  intros H1 H2. induction paths as [|d rest IH]; simpl.
  - apply quiet_ret.
  - apply quiet_bind; [now apply quiet_mkdirIfMissing | intros _; exact IH].
Qed.

(** [setupPaths] neither writes a run profile nor touches the store. *)
Lemma setupPaths_quiet_write c : quiet runProfileWrite (setupPaths D w c).
Proof.
  unfold setupPaths. destruct c as [cfg|]; [|apply quiet_throw].
  cbv zeta. apply quiet_bind; [now apply quiet_mkdirEach | intros _].
  quiet_program.
Qed.

Lemma setupPaths_quiet_store c : quiet storeCall (setupPaths D w c).
Proof.
  unfold setupPaths. destruct c as [cfg|]; [|apply quiet_throw].
  cbv zeta. apply quiet_bind; [now apply quiet_mkdirEach | intros _].
  quiet_program.
Qed.

(** Extraction makes none of the calls a projection [f] shows, as long as
    [f] shows none of the calls of the two extractors. *)
Lemma quiet_extract {X} (f : Event -> list X) c archive im :
  (forall p, f (EvStat p) = []) -> (forall p m, f (EvMkdirAll p m) = []) ->
  (forall p, f (EvOpen p) = []) -> (forall p, f (EvClose p) = []) ->
  (forall p, f (EvGzipNewReader p) = []) -> (forall p, f (EvGzipClose p) = []) ->
  (forall s d x, f (EvChrootUntar s d x) = []) ->
  (forall p, f (EvAttachLoopDevice p) = []) -> (forall p, f (EvLoopClose p) = []) ->
  (forall s t fs fl d, f (EvMount s t fs fl d) = []) ->
  quiet f (extract D w c archive im).
Proof.
  intros. unfold extract, unpackTgz, mountSquashfs.
  destruct (Format archive), c as [cfg|]; try apply quiet_throw;
    (destruct (_ || _); [apply quiet_throw|]); cbv zeta;
    (apply quiet_bind; [now apply quiet_mkdirIfMissing | intros _]);
    quiet_program; auto.
Qed.

Lemma quiet_propagateIf {X} (f : Event -> list X) kind cfg root l lg fields bad good :
  (forall k c r a, f (EvPropagate k c r a) = []) ->
  (forall lvl fs msg err, f (EvLog lvl fs msg err) = []) ->
  quiet f (propagateIf w kind cfg root l lg fields bad good).
Proof. intros. unfold propagateIf. quiet_program; auto. Qed.

(** After its first call, the loop body resolves no further image. *)
Lemma applyImage_attempted cfg sc im t :
  attempted (snd (applyImage D w cfg sc im t)) = attempted t ++ [im].
Proof.
  unfold applyImage, attempted. cbv zeta. revert t.
  apply seen_bind_first.
  - intros t. unfold orLog, ArchiveFor, ask.
    destruct (w_ArchiveFor w t sc im) as [archive|e]; simpl.
    + now rewrite seen_app.
    + rewrite seen_snoc by reflexivity. now rewrite seen_app.
  - intros archive. apply quiet_bind.
    + apply quiet_orLog; [reflexivity|]. now apply quiet_extract.
    + intros imageRoot. quiet_program; now apply quiet_propagateIf.
Qed.

End QuietProgram.

(** ** The loop over the images *)

Section Loop.

Variable D : Decls.
Variable w : World.
Variable cfg : ApplyConfig.
Variable sc : StoreCache.

Lemma applyLoop_step_ok im rest failed t t' :
  applyImage D w cfg sc im t = (Ok tt, t') ->
  applyLoop D w cfg sc (im :: rest) failed t = applyLoop D w cfg sc rest failed t'.
Proof.
  intros H. simpl. now rewrite (bind_ok _ _ _ _ _ (attempt_run _ _ _ _ H)).
Qed.

Lemma applyLoop_step_err im rest failed t e t' :
  applyImage D w cfg sc im t = (Err e, t') ->
  applyLoop D w cfg sc (im :: rest) failed t
  = applyLoop D w cfg sc rest (failed ++ [im]) t'.
Proof.
  intros H. simpl. now rewrite (bind_ok _ _ _ _ _ (attempt_run _ _ _ _ H)).
Qed.

(** The loop never fails, keeps what had failed before, and attempts every
    image it is given. *)
Lemma applyLoop_total images : forall failed t,
  exists extra t',
    applyLoop D w cfg sc images failed t = (Ok (failed ++ extra), t')
    /\ attempted t' = attempted t ++ images.
Proof.
  induction images as [|im rest IH]; intros failed t.
  - exists [], t. simpl. unfold ret. now rewrite !app_nil_r.
  - pose proof (applyImage_attempted D w cfg sc im t) as Hatt.
    destruct (applyImage D w cfg sc im t) as [[[]|e] t'] eqn:Him; simpl in Hatt.
    + rewrite (applyLoop_step_ok _ _ _ _ _ Him).
      destruct (IH failed t') as (extra & t'' & Hloop & Hseen).
      exists extra, t''. split; [exact Hloop|].
      rewrite Hseen, Hatt. now rewrite <- app_assoc.
    + rewrite (applyLoop_step_err _ _ _ _ _ _ Him).
      destruct (IH (failed ++ [im]) t') as (extra & t'' & Hloop & Hseen).
      exists (im :: extra), t''. split.
      * rewrite Hloop. now rewrite <- app_assoc.
      * rewrite Hseen, Hatt. now rewrite <- app_assoc.
Qed.

(** Images that are all applied leave the failed list as it was. *)
Lemma applyLoop_allApplied images : forall failed t t',
  allApplied D w cfg sc images t = Some t' ->
  applyLoop D w cfg sc images failed t = (Ok failed, t').
Proof.
  induction images as [|im rest IH]; intros failed t t' H; simpl in H.
  - now inversion H.
  - destruct (applyImage D w cfg sc im t) as [[[]|e] t1] eqn:Him; [|discriminate].
    rewrite (applyLoop_step_ok _ _ _ _ _ Him). now apply IH.
Qed.

Lemma applyLoop_app pre : forall post failed t failed1 t1,
  applyLoop D w cfg sc pre failed t = (Ok failed1, t1) ->
  applyLoop D w cfg sc (pre ++ post) failed t
  = applyLoop D w cfg sc post failed1 t1.
Proof.
  induction pre as [|im rest IH]; intros post failed t failed1 t1 H.
  - simpl in H. unfold ret in H. now inversion H.
  - simpl app.
    destruct (applyImage D w cfg sc im t) as [[[]|e] t'] eqn:Him.
    + rewrite (applyLoop_step_ok _ _ _ _ _ Him) in H.
      rewrite (applyLoop_step_ok _ _ _ _ _ Him). now apply IH.
    + rewrite (applyLoop_step_err _ _ _ _ _ _ Him) in H.
      rewrite (applyLoop_step_err _ _ _ _ _ _ Him). now apply IH.
Qed.

(** The loop body writes no run profile. *)
Lemma applyImage_quiet_write im : quiet runProfileWrite (applyImage D w cfg sc im).
Proof.
  unfold applyImage. cbv zeta. apply quiet_bind.
  - quiet_program.
  - intros archive. apply quiet_bind.
    + apply quiet_orLog; [reflexivity|]. now apply quiet_extract.
    + intros imageRoot. quiet_program; now apply quiet_propagateIf.
Qed.

Lemma applyLoop_quiet_write images : forall failed,
  quiet runProfileWrite (applyLoop D w cfg sc images failed).
Proof.
  induction images as [|im rest IH]; intros failed; simpl.
  - apply quiet_ret.
  - apply quiet_bind.
    + apply quiet_attempt, applyImage_quiet_write.
    + intros [[]|e]; apply IH.
Qed.

(** An image of unrecognized format fails at extraction, after two calls. *)
Lemma applyImage_unrecognized im archive t :
  w_ArchiveFor w t sc im = Ok archive ->
  Format archive <> ArchiveFormatTgz ->
  Format archive <> ArchiveFormatSquashfs ->
  applyImage D w cfg sc im t
  = (Err (fmtErrorf "unrecognized format for archive: %q" [ArgArchive archive]),
     t ++ [ EvArchiveFor im;
            EvLog ErrorLevel
              [("image", LStr (Name im)); ("reference", LStr (Reference im))]
              "failed to unpack: "
              (Some (fmtErrorf "unrecognized format for archive: %q"
                       [ArgArchive archive])) ]).
Proof.
  intros Hl Ht Hs. unfold applyImage. cbv zeta.
  unfold bind at 1, orLog at 1, ArchiveFor, ask. rewrite Hl.
  unfold bind at 1, orLog at 1, extract.
  destruct (Format archive); try contradiction.
  unfold throw. now rewrite <- app_assoc.
Qed.

End Loop.

(** ** [applyImages] and [ApplyProfile] under image failures *)

Lemma applyImage_extract_fails D w cfg sc bad archive e t :
  w_ArchiveFor w t sc bad = Ok archive ->
  fst (extract D w (Some cfg) archive bad (t ++ [EvArchiveFor bad])) = Err e ->
  fst (applyImage D w cfg sc bad t) = Err e.
Proof.
  intros Hl He. unfold applyImage. cbv zeta.
  unfold bind at 1, orLog at 1, ArchiveFor, ask. rewrite Hl.
  unfold bind at 1, orLog at 1.
  destruct (extract D w (Some cfg) archive bad (t ++ [EvArchiveFor bad])) as [r tx].
  simpl in He. now subst r.
Qed.

Lemma applyImages_run D w cfg sc images failed t0 t3 :
  w_NewStoreCache w t0 (StorePaths cfg) = Ok sc ->
  applyLoop D w cfg sc images [] (t0 ++ [EvNewStoreCache (StorePaths cfg)])
  = (Ok failed, t3) ->
  applyImages D w (Some cfg) images t0
  = (if nonEmpty failed then Err (errFailedToInstall (List.length failed)) else Ok tt,
     t3).
Proof.
  intros Hsc Hloop. unfold applyImages.
  unfold bind at 1, NewStoreCache, ask. rewrite Hsc.
  unfold bind at 1. rewrite Hloop. now destruct (nonEmpty failed).
Qed.

(** C8. An image whose archive is of neither recognized format fails at
    extraction with the unrecognized-format error, which carries the
    archive; the loop records the image in its failed list and goes on to
    attempt every remaining image. *)
Theorem unrecognized_format_is_recorded
    D w cfg sc im archive rest failed t :
  w_ArchiveFor w t sc im = Ok archive ->
  Format archive <> ArchiveFormatTgz ->
  Format archive <> ArchiveFormatSquashfs ->
  extract D w (Some cfg) archive im (t ++ [EvArchiveFor im])
  = (Err (fmtErrorf "unrecognized format for archive: %q" [ArgArchive archive]),
     t ++ [EvArchiveFor im])
  /\ fst (applyImage D w cfg sc im t)
     = Err (fmtErrorf "unrecognized format for archive: %q" [ArgArchive archive])
  /\ exists extra t',
       applyLoop D w cfg sc (im :: rest) failed t = (Ok (failed ++ im :: extra), t')
       /\ attempted t' = attempted t ++ im :: rest.
Proof.
  intros Hl Ht Hs. split; [|split].
  - unfold extract. now destruct (Format archive); try contradiction.
  - now rewrite (applyImage_unrecognized D w cfg sc im archive t Hl Ht Hs).
  - pose proof (applyImage_unrecognized D w cfg sc im archive t Hl Ht Hs) as Him.
    rewrite (applyLoop_step_err D w cfg sc _ _ _ _ _ _ Him).
    destruct (applyLoop_total D w cfg sc rest (failed ++ [im])
                (t ++ [ EvArchiveFor im;
                        EvLog ErrorLevel
                          [("image", LStr (Name im)); ("reference", LStr (Reference im))]
                          "failed to unpack: "
                          (Some (fmtErrorf "unrecognized format for archive: %q"
                                   [ArgArchive archive])) ]))
      as (extra & t' & Hloop & Hseen).
    exists extra, t'. split.
    + rewrite Hloop. now rewrite <- app_assoc.
    + rewrite Hseen. unfold attempted. rewrite seen_app. simpl.
      now rewrite <- app_assoc.
Qed.

(** The archive of [odd] is a zip file; [vim] comes after it. *)
Lemma unrecognized_format_is_recorded_witness :
  fst (applyImage decls (world never [odd; vim]) cfg cache odd [])
  = Err (fmtErrorf "unrecognized format for archive: %q"
           [ArgArchive (mkArchive "/store/odd:0.1.zip" (ArchiveFormatOther "zip"))])
  /\ exists extra t',
       applyLoop decls (world never [odd; vim]) cfg cache (odd :: [vim]) [] []
       = (Ok ([] ++ odd :: extra), t')
       /\ attempted t' = attempted [] ++ odd :: [vim].
Proof.
  apply (unrecognized_format_is_recorded decls (world never [odd; vim]) cfg cache
           odd (mkArchive "/store/odd:0.1.zip" (ArchiveFormatOther "zip")) [vim] [] []).
  - reflexivity.
  - simpl; discriminate.
  - simpl; discriminate.
Defined.

Section Apply.

Variable D : Decls.
Variable w : World.
Variable cfg : ApplyConfig.

Lemma ApplyProfile_after_merge images t0 t1 :
  setupPaths D w (Some cfg) t0 = (Ok tt, t1) ->
  w_mergeProfiles w t1 cfg = Ok images ->
  ApplyProfile D w (Some cfg) t0
  = ((if nonEmpty images then applyImages D w (Some cfg) images else ret tt);;
     writeRunProfile D w cfg images) (t1 ++ [EvMergeProfiles cfg]).
Proof.
  intros Hsetup Hmerge. unfold ApplyProfile.
  rewrite (bind_ok _ _ _ _ _ (mapErr_ok _ _ _ _ _ Hsetup)).
  unfold bind at 1, mergeProfiles, ask. now rewrite Hmerge.
Qed.

Lemma writeRunProfile_run images t :
  let rp := RunProfile D cfg in
  let doc := {| Kind := ProfileManifestV0K; Value := ImagesToJSONV0 images |} in
  sysErr w t (EvCreate rp) = None ->
  sysErr w (t ++ [EvCreate rp]) (EvEncode rp "" "  " doc) = None ->
  sysErr w (t ++ [EvCreate rp; EvEncode rp "" "  " doc])
    (EvChmod rp (octal 4 4 4)) = None ->
  writeRunProfile D w cfg images t
  = (Ok tt,
     t ++ [ EvCreate rp;
            EvEncode rp "" "  " doc;
            EvChmod rp (octal 4 4 4);
            EvLog DebugLevel
              [ ("upper profile", LStr (UpperProfile cfg));
                ("sealed profile", LStr rp) ]
              "profile applied" None;
            EvFlush rp;
            EvClose rp ]).
Proof.
  intros rp doc Hcreate Hencode Hchmod.
  unfold writeRunProfile, os_Create, json_Encode, os_Chmod, log, emit,
    defer, mapErr, bind, call, ret. fold rp. fold doc.
  rewrite Hcreate, Hencode. simpl.
  replace ((t ++ [EvCreate rp]) ++ [EvEncode rp "" "  " doc])
    with (t ++ [EvCreate rp; EvEncode rp "" "  " doc])
    by now rewrite <- app_assoc.
  rewrite Hchmod. f_equal. now rewrite <- !app_assoc.
Qed.

Lemma writeRunProfile_quiet_store images :
  quiet storeCall (writeRunProfile D w cfg images).
Proof. unfold writeRunProfile. quiet_program. Qed.

(** C1, amended. When the configuration, the path setup, the profile merge
    and the store cache succeed and at least one image fails, the loop has
    still attempted every image of the merged list; [ApplyProfile] then
    returns the aggregate error that counts the failed images, at the end
    of the loop: no run profile is created, encoded or made read-only. *)
Theorem ApplyProfile_image_failure_stops_before_write
    images sc failed t0 t1 t3 :
  setupPaths D w (Some cfg) t0 = (Ok tt, t1) ->
  w_mergeProfiles w t1 cfg = Ok images ->
  w_NewStoreCache w (t1 ++ [EvMergeProfiles cfg]) (StorePaths cfg) = Ok sc ->
  applyLoop D w cfg sc images []
    ((t1 ++ [EvMergeProfiles cfg]) ++ [EvNewStoreCache (StorePaths cfg)])
  = (Ok failed, t3) ->
  failed <> [] ->
  attempted t3 = attempted t1 ++ images
  /\ ApplyProfile D w (Some cfg) t0
     = (Err (fmtErrorf "failed to install %d images"
               [ArgInt (Z.of_nat (List.length failed))]), t3)
  /\ seen runProfileWrite t3 = seen runProfileWrite t0.
Proof.
  intros Hsetup Hmerge Hsc Hloop Hfailed. split; [|split].
  - destruct (applyLoop_total D w cfg sc images []
                ((t1 ++ [EvMergeProfiles cfg]) ++ [EvNewStoreCache (StorePaths cfg)]))
      as (extra & t' & Hl & Hseen).
    rewrite Hloop in Hl. inversion Hl; subst t'.
    rewrite Hseen. unfold attempted. now rewrite !seen_snoc.
  - rewrite (ApplyProfile_after_merge images t0 t1 Hsetup Hmerge).
    assert (Hne : nonEmpty images = true).
    { destruct images; [|reflexivity]. simpl in Hloop. unfold ret in Hloop.
      inversion Hloop. congruence. }
    rewrite Hne.
    pose proof (applyImages_run D w cfg sc images failed _ t3 Hsc Hloop) as Hrun.
    assert (Hnf : nonEmpty failed = true) by (destruct failed; [congruence|reflexivity]).
    rewrite Hnf in Hrun.
    now rewrite (bind_err _ _ _ _ _ Hrun).
  - pose proof (applyLoop_quiet_write D w cfg sc images []
                  ((t1 ++ [EvMergeProfiles cfg]) ++ [EvNewStoreCache (StorePaths cfg)]))
      as Hq.
    rewrite Hloop in Hq. simpl in Hq. rewrite Hq, !seen_snoc by reflexivity.
    pose proof (setupPaths_quiet_write D w (Some cfg) t0) as Hs.
    now rewrite Hsetup in Hs.
Qed.

End Apply.

(** Three images are merged; the archive of [rkt] cannot be opened. *)
Lemma ApplyProfile_image_failure_stops_before_write_witness :
  let W := world rktUnreadable [docker; rkt; vim] in
  let t1 := snd (setupPaths decls W (Some cfg) []) in
  let t2 := (t1 ++ [EvMergeProfiles cfg]) ++ [EvNewStoreCache (StorePaths cfg)] in
  let t3 := snd (applyLoop decls W cfg cache [docker; rkt; vim] [] t2) in
  attempted t3 = attempted t1 ++ [docker; rkt; vim]
  /\ ApplyProfile decls W (Some cfg) []
     = (Err (fmtErrorf "failed to install %d images"
               [ArgInt (Z.of_nat (List.length [rkt]))]), t3)
  /\ seen runProfileWrite t3 = seen runProfileWrite [].
Proof.
  intros W t1 t2 t3.
  apply (ApplyProfile_image_failure_stops_before_write decls W cfg
           [docker; rkt; vim] cache [rkt] [] t1 t3).
  - vm_compute. reflexivity.
  - reflexivity.
  - reflexivity.
  - vm_compute. reflexivity.
  - discriminate.
Defined.

(** C1, as stated, fails: with [rkt] failing, the setup and the merge
    succeed, and [ApplyProfile] returns the aggregate error without having
    created, encoded, flushed or made read-only any run profile. *)
Lemma ApplyProfile_failed_image_writes_no_run_profile :
  let W := world rktUnreadable [docker; rkt; vim] in
  fst (setupPaths decls W (Some cfg) []) = Ok tt
  /\ w_mergeProfiles W (snd (setupPaths decls W (Some cfg) [])) cfg
     = Ok [docker; rkt; vim]
  /\ fst (ApplyProfile decls W (Some cfg) [])
     = Err (fmtErrorf "failed to install %d images" [ArgInt 1])
  /\ seen runProfileWrite (snd (ApplyProfile decls W (Some cfg) [])) = []
  /\ ~ In (EvCreate (RunProfile decls cfg)) (snd (ApplyProfile decls W (Some cfg) [])).
Proof.
  intros W. repeat split; try (vm_compute; reflexivity).
  vm_compute. intros H.
  repeat (destruct H as [H|H]; [discriminate H|]). exact H.
Qed.

(** C7. [ApplyProfile] on a nil configuration returns the configuration
    error and makes no call at all: the trace is left as it was, so no
    directory is created, nothing is mounted, no file is written or
    chmodded. *)
Theorem ApplyProfile_nil_config (D : Decls) (w : World) (t : Trace) :
  ApplyProfile D w None t = (Err (errorsNew "missing apply configuration"), t).
Proof. reflexivity. Qed.

(** C6. Once the setup, the merge and the per-image phase have succeeded,
    the last step of [ApplyProfile] creates the run-profile file, encodes
    the merged profile into it as JSON indented by two spaces under the kind
    [profile-manifest-v0], which is not the kind [profile-manifest-v1] of
    the manifests read, and then chmods the file to 0444; the buffered
    writer is flushed and the file closed when the function returns. *)
Theorem ApplyProfile_writes_run_profile
    (D : Decls) (w : World) (cfg : ApplyConfig) (images : list Image)
    (t0 t1 t2 : Trace) :
  let rp := RunProfile D cfg in
  let doc := {| Kind := "profile-manifest-v0"; Value := ImagesToJSONV0 images |} in
  setupPaths D w (Some cfg) t0 = (Ok tt, t1) ->
  w_mergeProfiles w t1 cfg = Ok images ->
  (if nonEmpty images then applyImages D w (Some cfg) images else ret tt)
    (t1 ++ [EvMergeProfiles cfg]) = (Ok tt, t2) ->
  sysErr w t2 (EvCreate rp) = None ->
  sysErr w (t2 ++ [EvCreate rp]) (EvEncode rp "" "  " doc) = None ->
  sysErr w (t2 ++ [EvCreate rp; EvEncode rp "" "  " doc])
    (EvChmod rp (octal 4 4 4)) = None ->
  ApplyProfile D w (Some cfg) t0
  = (Ok tt,
     t2 ++ [ EvCreate rp;
             EvEncode rp "" "  " doc;
             EvChmod rp 292;
             EvLog DebugLevel
               [ ("upper profile", LStr (UpperProfile cfg));
                 ("sealed profile", LStr rp) ]
               "profile applied" None;
             EvFlush rp;
             EvClose rp ])
  /\ Kind doc = ProfileManifestV0K
  /\ ProfileManifestV0K <> ProfileManifestV1K.
Proof.
  intros rp doc Hsetup Hmerge Hphase Hcreate Hencode Hchmod.
  split; [|split; [reflexivity | discriminate]].
  rewrite (ApplyProfile_after_merge D w cfg images t0 t1 Hsetup Hmerge).
  rewrite (bind_ok _ _ _ _ _ Hphase).
  exact (writeRunProfile_run D w cfg images t2 Hcreate Hencode Hchmod).
Qed.

(** Two images are merged and applied; every call succeeds. *)
Lemma ApplyProfile_writes_run_profile_witness :
  let W := world never [docker; vim] in
  let rp := "/run/torcx/profile.json" in
  let doc := {| Kind := "profile-manifest-v0";
                Value := ImagesToJSONV0 [docker; vim] |} in
  let t1 := snd (setupPaths decls W (Some cfg) []) in
  let t2 := snd (applyImages decls W (Some cfg) [docker; vim]
                   (t1 ++ [EvMergeProfiles cfg])) in
  ApplyProfile decls W (Some cfg) []
  = (Ok tt,
     t2 ++ [ EvCreate rp;
             EvEncode rp "" "  " doc;
             EvChmod rp 292;
             EvLog DebugLevel
               [ ("upper profile", LStr "session"); ("sealed profile", LStr rp) ]
               "profile applied" None;
             EvFlush rp;
             EvClose rp ])
  /\ Kind doc = ProfileManifestV0K
  /\ ProfileManifestV0K <> ProfileManifestV1K.
Proof.
  intros W rp doc t1 t2.
  apply (ApplyProfile_writes_run_profile decls W cfg [docker; vim] [] t1 t2).
  - vm_compute. reflexivity.
  - reflexivity.
  - vm_compute. reflexivity.
  - reflexivity.
  - reflexivity.
  - reflexivity.
Defined.

(** C10. When the profiles merge to no image, [ApplyProfile] never builds
    the store cache and resolves no image, whatever the last step meets;
    when the file can be created, encoded into and chmodded, the run profile
    written holds the kind [profile-manifest-v0] and an empty image list, the
    file is chmodded to 0444 and the call succeeds. *)
Theorem ApplyProfile_empty_profile
    (D : Decls) (w : World) (cfg : ApplyConfig) (t0 t1 : Trace) :
  let rp := RunProfile D cfg in
  let doc := {| Kind := "profile-manifest-v0"; Value := {| Images := [] |} |} in
  let t2 := t1 ++ [EvMergeProfiles cfg] in
  setupPaths D w (Some cfg) t0 = (Ok tt, t1) ->
  w_mergeProfiles w t1 cfg = Ok [] ->
  seen storeCall (snd (ApplyProfile D w (Some cfg) t0)) = seen storeCall t0
  /\ (sysErr w t2 (EvCreate rp) = None ->
      sysErr w (t2 ++ [EvCreate rp]) (EvEncode rp "" "  " doc) = None ->
      sysErr w (t2 ++ [EvCreate rp; EvEncode rp "" "  " doc])
        (EvChmod rp (octal 4 4 4)) = None ->
      ApplyProfile D w (Some cfg) t0
      = (Ok tt,
         t2 ++ [ EvCreate rp;
                 EvEncode rp "" "  " doc;
                 EvChmod rp 292;
                 EvLog DebugLevel
                   [ ("upper profile", LStr (UpperProfile cfg));
                     ("sealed profile", LStr rp) ]
                   "profile applied" None;
                 EvFlush rp;
                 EvClose rp ])).
Proof.
  intros rp doc t2 Hsetup Hmerge.
  rewrite (ApplyProfile_after_merge D w cfg [] t0 t1 Hsetup Hmerge).
  change (nonEmpty (@nil Image)) with false. cbv iota.
  rewrite (bind_ok (ret tt) _ _ tt _ eq_refl).
  split.
  - rewrite (writeRunProfile_quiet_store D w cfg [] (t1 ++ [EvMergeProfiles cfg])).
    rewrite seen_snoc by reflexivity.
    pose proof (setupPaths_quiet_store D w (Some cfg) t0) as Hs.
    now rewrite Hsetup in Hs.
  - intros Hcreate Hencode Hchmod.
    exact (writeRunProfile_run D w cfg [] t2 Hcreate Hencode Hchmod).
Qed.

(** The profiles merge to no image; every call succeeds. *)
Lemma ApplyProfile_empty_profile_witness :
  let W := world never [] in
  let rp := "/run/torcx/profile.json" in
  let doc := {| Kind := "profile-manifest-v0"; Value := {| Images := [] |} |} in
  let t2 := snd (setupPaths decls W (Some cfg) []) ++ [EvMergeProfiles cfg] in
  seen storeCall (snd (ApplyProfile decls W (Some cfg) [])) = []
  /\ ApplyProfile decls W (Some cfg) []
     = (Ok tt,
        t2 ++ [ EvCreate rp;
                EvEncode rp "" "  " doc;
                EvChmod rp 292;
                EvLog DebugLevel
                  [ ("upper profile", LStr "session"); ("sealed profile", LStr rp) ]
                  "profile applied" None;
                EvFlush rp;
                EvClose rp ]).
Proof.
  intros W rp doc t2.
  destruct (ApplyProfile_empty_profile decls W cfg []
              (snd (setupPaths decls W (Some cfg) [])))
    as [Hstore Hrun].
  - vm_compute. reflexivity.
  - reflexivity.
  - split; [exact Hstore|]. apply Hrun; reflexivity.
Defined.

(** ** The seal record *)

Lemma byte_eqb (c d : ascii) : N.eqb (byte c) (byte d) = Ascii.eqb c d.
Proof.
  unfold byte. destruct (Ascii.eqb_spec c d) as [->|Hne].
  - apply N.eqb_refl.
  - apply N.eqb_neq. intros H. apply Hne.
    rewrite <- (ascii_N_embedding c), <- (ascii_N_embedding d). now rewrite H.
Qed.

Lemma noLF_app (a b : string) : noLF (a ++ b) = noLF a && noLF b.
Proof.
  induction a as [|c a IH]; [reflexivity|].
  simpl. now rewrite IH, andb_assoc.
Qed.

Lemma byte_noLF (c : ascii) : (11 <= byte c)%N -> Ascii.eqb c LF = false.
Proof.
  intros H. rewrite <- byte_eqb. apply N.eqb_neq.
  change (byte LF) with 10%N. lia.
Qed.

Lemma lowerhex_noLF (n : N) : Ascii.eqb (lowerhex n) LF = false.
Proof.
  unfold lowerhex. generalize (N.to_nat n) as k. intros k.
  do 16 (destruct k as [|k]; [reflexivity|]). reflexivity.
Qed.

Lemma hex2_noLF (b : N) : noLF (hex2 b) = true.
Proof. unfold hex2. simpl. now rewrite !lowerhex_noLF. Qed.

Lemma hex4_noLF (r : N) : noLF (hex4 r) = true.
Proof. unfold hex4. now rewrite noLF_app, !hex2_noLF. Qed.

Lemma hex8_noLF (r : N) : noLF (hex8 r) = true.
Proof. unfold hex8. now rewrite noLF_app, !hex4_noLF. Qed.

(** An escaped rune holds no newline, as long as its encoding holds none
    when it is written as it is. *)
Lemma appendEscapedRune_noLF isPrint (r : N) (raw : string) :
  (IsPrint isPrint r = true \/ r = 34%N \/ r = 92%N -> noLF raw = true) ->
  noLF (appendEscapedRune isPrint r raw) = true.
Proof.
  intros Hraw. unfold appendEscapedRune.
  destruct ((r =? 34) || (r =? 92))%N eqn:Hq.
  - apply orb_true_iff in Hq as [Hq|Hq]; apply N.eqb_eq in Hq;
      simpl; apply Hraw; auto.
  - destruct (IsPrint isPrint r) eqn:Hp; [apply Hraw; auto|].
    repeat match goal with
           | |- context [if ?b then _ else _] => destruct b
           end;
      try reflexivity;
      rewrite noLF_app, ?hex2_noLF, ?hex4_noLF, ?hex8_noLF;
      reflexivity.
Qed.

Lemma substring_0_0 (s : string) : substring 0 0 s = EmptyString.
Proof. now destruct s. Qed.

Lemma cont_noLF (c : ascii) : cont c = true -> Ascii.eqb c LF = false.
Proof.
  unfold cont, inRange. intros H. apply andb_true_iff in H as [H _].
  apply N.leb_le in H. apply byte_noLF. lia.
Qed.

Lemma inRange_noLF lo hi (c : ascii) :
  (11 <= lo)%N -> inRange lo hi (byte c) = true -> Ascii.eqb c LF = false.
Proof.
  unfold inRange. intros Hlo H. apply andb_true_iff in H as [H _].
  apply N.leb_le in H. apply byte_noLF. lia.
Qed.

(** What the quoting loop emits for one rune holds no newline. *)
Lemma chunk_noLF isPrint (c : ascii) (rest : string) (r : N) (width : nat) :
  DecodeRuneInString (String c rest) = (r, width) ->
  noLF (if Nat.eqb width 1 && (r =? RuneError)%N
        then ("\x" ++ hex2 (byte c))%string
        else appendEscapedRune isPrint r (substring 0 width (String c rest)))
  = true.
Proof.
  intros Hd.
  destruct (Nat.eqb width 1 && (r =? RuneError)%N) eqn:Hinv.
  { now rewrite noLF_app, hex2_noLF. }
  apply appendEscapedRune_noLF. intros Hvis.
  unfold DecodeRuneInString in Hd.
  destruct (byte c <? 128)%N eqn:Hlow.
  { inversion Hd; subst r width. simpl. rewrite substring_0_0. simpl.
    rewrite andb_true_r. apply negb_true_iff. apply byte_noLF.
    unfold IsPrint in Hvis. rewrite Hlow in Hvis.
    destruct Hvis as [Hp|[Hp|Hp]].
    - unfold inRange in Hp. apply andb_true_iff in Hp as [Hp _].
      apply N.leb_le in Hp. lia.
    - rewrite Hp. lia.
    - rewrite Hp. lia. }
  assert (Hbad : (r, width) = (RuneError, 1%nat) -> noLF (substring 0 width (String c rest)) = true).
  { intros E. inversion E; subst. simpl in Hinv. discriminate. }
  destruct (inRange 194 223 (byte c)) eqn:H2.
  { destruct rest as [|c1 t1]; [now apply Hbad|].
    destruct (cont c1) eqn:Hc1; [|now apply Hbad].
    inversion Hd; subst r width. simpl. rewrite substring_0_0. simpl.
    now rewrite (inRange_noLF 194 223 c), (cont_noLF c1). }
  destruct (inRange 224 239 (byte c)) eqn:H3.
  { destruct rest as [|c1 [|c2 t2]]; try now apply Hbad.
    match type of Hd with
    | (if ?b then _ else _) = _ => destruct b eqn:Hc
    end; [|now apply Hbad].
    apply andb_true_iff in Hc as [Hc1 Hc2].
    inversion Hd; subst r width. simpl. rewrite substring_0_0. simpl.
    rewrite (inRange_noLF 224 239 c), (cont_noLF c2) by (auto; lia).
    assert (Hn1 : Ascii.eqb c1 LF = false).
    { eapply inRange_noLF; [|exact Hc1]. destruct (byte c =? 224)%N; lia. }
    now rewrite Hn1. }
  destruct (inRange 240 244 (byte c)) eqn:H4; [|now apply Hbad].
  destruct rest as [|c1 [|c2 [|c3 t3]]]; try now apply Hbad.
  match type of Hd with
  | (if ?b then _ else _) = _ => destruct b eqn:Hc
  end; [|now apply Hbad].
  apply andb_true_iff in Hc as [Hc Hc3]. apply andb_true_iff in Hc as [Hc1 Hc2].
  inversion Hd; subst r width. simpl. rewrite substring_0_0. simpl.
  rewrite (inRange_noLF 240 244 c), (cont_noLF c2), (cont_noLF c3) by (auto; lia).
  assert (Hn1 : Ascii.eqb c1 LF = false).
  { eapply inRange_noLF; [|exact Hc1]. destruct (byte c =? 240)%N; lia. }
  now rewrite Hn1.
Qed.

Lemma quoteFrom_noLF isPrint (s : string) : forall skip,
  noLF (quoteFrom isPrint s skip) = true.
Proof.
  induction s as [|c rest IH]; intros skip; [reflexivity|].
  cbn [quoteFrom]. destruct skip as [|k]; [|apply IH].
  destruct (DecodeRuneInString (String c rest)) as [r width] eqn:Hd.
  rewrite noLF_app, IH, andb_true_r.
  now apply chunk_noLF.
Qed.

(** The [%q] form of any value is free of newlines. *)
Lemma Quote_noLF isPrint (v : string) : noLF (Quote isPrint v) = true.
Proof.
  unfold Quote. rewrite !noLF_app, quoteFrom_noLF. reflexivity.
Qed.

(** [%q] leaves a plain value as it is, between two double quotes. *)
Lemma quoteFrom_plain isPrint (v : string) :
  plain v = true -> quoteFrom isPrint v 0 = v.
Proof.
  induction v as [|c rest IH]; [reflexivity|].
  cbn [plain]. rewrite !andb_true_iff, !negb_true_iff.
  intros [[[Hrange Hdq] Hbsl] Hrest].
  cbn [quoteFrom DecodeRuneInString].
  unfold inRange in Hrange. apply andb_true_iff in Hrange as [Hlo Hhi].
  apply N.leb_le in Hlo, Hhi.
  assert (Hlt : (byte c <? 128)%N = true) by (apply N.ltb_lt; lia).
  rewrite Hlt.
  assert (Hre : (byte c =? RuneError)%N = false)
    by (apply N.eqb_neq; unfold RuneError; lia).
  rewrite Hre, andb_false_r.
  unfold appendEscapedRune, IsPrint.
  change 34%N with (byte DQ). change 92%N with (byte BSL).
  rewrite !byte_eqb, Hdq, Hbsl, Hlt.
  assert (Hin : inRange 32 126 (byte c) = true).
  { unfold inRange. apply andb_true_iff. split; now apply N.leb_le. }
  rewrite Hin. cbn.
  replace (substring 0 0 rest) with EmptyString by now destruct rest.
  cbn. now rewrite IH.
Qed.

Lemma Quote_plain isPrint (v : string) :
  plain v = true -> Quote isPrint v = (dq ++ v ++ dq)%string.
Proof. intros H. unfold Quote. now rewrite quoteFrom_plain. Qed.

Lemma writeLines_run w fp content : forall t,
  writesSucceed w fp content t = true ->
  writeLines w fp content t
  = (Ok tt, t ++ map (fun line => EvWriteString fp (line ++ nl)%string) content).
Proof.
  induction content as [|line rest IH]; intros t H; simpl in *.
  - unfold ret. now rewrite app_nil_r.
  - destruct (sysErr w t (EvWriteString fp (line ++ nl)%string)) eqn:Hw; [discriminate|].
    rewrite (bind_ok _ _ _ _ _ (mapErr_ok _ _ _ _ _ (call_ok w _ t Hw))).
    rewrite (IH _ H). now rewrite <- app_assoc.
Qed.

(** C5. [SealSystemState] writes five lines to the seal file, each a key,
    an equals sign, the [%q] form of the value and a newline, in the order:
    lower profiles joined with a colon, upper profile, run-profile path,
    bin directory, unpack directory; a plain value is written as it is
    between double quotes, and no value brings a newline of its own into
    its line.  The next call remounts the unpack directory
    onto itself with the remount and read-only flags; when that call fails,
    the error returned is the mount error wrapped. *)
Theorem SealSystemState_seal_record
    (D : Decls) (w : World) (cfg : ApplyConfig) (t0 t1 : Trace) :
  let q := Quote (unicode_IsPrint D) in
  let lines :=
    [ (SealLowerProfiles D ++ "=" ++ q (String.concat ":" (LowerProfiles cfg)))%string;
      (SealUpperProfile D ++ "=" ++ q (UpperProfile cfg))%string;
      (SealRunProfilePath D ++ "=" ++ q (RunProfile D cfg))%string;
      (SealBindir D ++ "=" ++ q (RunBinDir D cfg))%string;
      (SealUnpackdir D ++ "=" ++ q (RunUnpackDir D cfg))%string ] in
  let writes := map (fun line => EvWriteString (SealPath D) (line ++ nl)%string) lines in
  let unpack := RunUnpackDir D cfg in
  let remount := EvMount unpack unpack "" (Z.lor MS_REMOUNT MS_RDONLY) "" in
  let t2 := t1 ++ EvCreate (SealPath D) :: writes in
  mkdirIfMissing w (filepath_Dir D (SealPath D)) t0 = (Ok tt, t1) ->
  sysErr w t1 (EvCreate (SealPath D)) = None ->
  writesSucceed w (SealPath D) lines (t1 ++ [EvCreate (SealPath D)]) = true ->
  SealSystemState D w (Some cfg) t0
  = match sysErr w t2 remount with
    | Some e =>
        (Err (errorsWrap e "failed to remount read-only"),
         t2 ++ [remount; EvClose (SealPath D)])
    | None =>
        (Ok tt,
         t2 ++ [ remount;
                 EvLog DebugLevel
                   [("path", LStr (SealPath D)); ("content", LList lines)]
                   "system state sealed" None;
                 EvClose (SealPath D) ])
    end
  /\ List.length writes = 5%nat
  /\ Z.land (Z.lor MS_REMOUNT MS_RDONLY) MS_RDONLY = MS_RDONLY
  /\ (forall v, plain v = true -> q v = (dq ++ v ++ dq)%string)
  /\ (forall v, noLF (q v) = true).
Proof.
  intros q lines writes unpack remount t2 Hdir Hcreate Hwrites.
  split; [|split; [reflexivity | split; [reflexivity | split;
    [apply Quote_plain | apply Quote_noLF]]]].
  unfold SealSystemState. cbv zeta.
  rewrite (bind_ok _ _ _ _ _ Hdir).
  unfold os_Create at 1.
  rewrite (bind_ok _ _ _ (SealPath D) (t1 ++ [EvCreate (SealPath D)]));
    [|now rewrite (bind_ok _ _ _ _ _ (call_ok w _ t1 Hcreate))].
  change (sealContent D cfg) with lines.
  pose proof (writeLines_run w (SealPath D) lines _ Hwrites) as Hw.
  fold writes in Hw.
  replace ((t1 ++ [EvCreate (SealPath D)]) ++ writes) with t2 in Hw
    by (unfold t2; now rewrite <- app_assoc).
  unfold defer. rewrite (bind_ok _ _ _ _ _ Hw).
  unfold unix_Mount. fold unpack. fold remount.
  unfold bind, mapErr, call, log, emit.
  destruct (sysErr w t2 remount) as [e|]; now rewrite <- !app_assoc.
Qed.

(** Every directory exists and every write succeeds; remounting fails. *)
Lemma SealSystemState_seal_record_witness :
  let W := world remountFails [] in
  let seal := "/run/metadata/torcx" in
  let unpack := "/run/torcx/unpack" in
  fst (SealSystemState decls W (Some cfg) [])
  = Err (errorsWrap EIO "failed to remount read-only")
  /\ snd (SealSystemState decls W (Some cfg) [])
     = [ EvStat "/run/metadata";
         EvCreate seal;
         EvWriteString seal
           ("TORCX_LOWER_PROFILES=" ++ dq ++ "vendor:user" ++ dq ++ nl)%string;
         EvWriteString seal
           ("TORCX_UPPER_PROFILE=" ++ dq ++ "session" ++ dq ++ nl)%string;
         EvWriteString seal
           ("TORCX_PROFILE_PATH=" ++ dq ++ "/run/torcx/profile.json" ++ dq ++ nl)%string;
         EvWriteString seal
           ("TORCX_BINDIR=" ++ dq ++ "/run/torcx/bin" ++ dq ++ nl)%string;
         EvWriteString seal
           ("TORCX_UNPACKDIR=" ++ dq ++ "/run/torcx/unpack" ++ dq ++ nl)%string;
         EvMount unpack unpack "" 33 "";
         EvClose seal ].
Proof.
  intros W seal unpack.
  destruct (SealSystemState_seal_record decls W cfg [] [EvStat "/run/metadata"])
    as [Hrun _].
  - reflexivity.
  - reflexivity.
  - reflexivity.
  - rewrite Hrun. split; reflexivity.
Defined.

(** ** The os-release parser *)

Lemma SplitN_2 (line : string) :
  SplitN line EQS 2
  = match cut EQS line with
    | None => [line]
    | Some (a, b) => [a; b]
    end.
Proof. simpl. now destruct (cut EQS line) as [[a b]|]. Qed.

Lemma cut_app (sep : ascii) (s a b : string) :
  cut sep s = Some (a, b) -> s = (a ++ String sep b)%string.
Proof.
  revert a b. induction s as [|c rest IH]; intros a b H; simpl in H; [discriminate|].
  destruct (Ascii.eqb_spec c sep) as [->|Hne].
  - now inversion H.
  - destruct (cut sep rest) as [[a' b']|]; [|discriminate].
    inversion H; subst. simpl. now rewrite (IH a' b eq_refl).
Qed.

Lemma prefix_app (p r : string) : String.prefix p (p ++ r) = true.
Proof.
  induction p as [|c p IH]; simpl; [now destruct r|].
  now destruct (ascii_dec c c).
Qed.

Lemma prefix_inv (p s : string) :
  String.prefix p s = true -> exists r, s = (p ++ r)%string.
Proof.
  revert s. induction p as [|c p IH]; intros s H.
  - now exists s.
  - destruct s as [|d s]; simpl in H; [discriminate|].
    destruct (ascii_dec c d) as [->|]; [|discriminate].
    destruct (IH _ H) as [r ->]. now exists r.
Qed.

Lemma fits_not_long (raw : string) :
  fits raw = true -> (MaxScanTokenSize <=? len raw)%N = false.
Proof.
  unfold fits. intros H. apply N.ltb_lt in H. apply N.leb_gt. exact H.
Qed.

(** A line that fits and is blank or without [=] is passed over. *)
Lemma scan_ignorable raw rest :
  fits raw = true -> ignorable raw = true ->
  scanVersionID (raw :: rest) = scanVersionID rest.
Proof.
  intros Hf Hi. cbn [scanVersionID]. rewrite (fits_not_long _ Hf).
  cbv zeta. rewrite SplitN_2. unfold ignorable in Hi.
  destruct (cut EQS (dropCR raw)) as [[a b]|]; [discriminate|].
  now destruct (String.eqb (dropCR raw) "").
Qed.

(** A line that fits and does not assign [VERSION_ID] is passed over. *)
Lemma scan_notVersion raw rest :
  fits raw = true -> notVersion raw = true ->
  scanVersionID (raw :: rest) = scanVersionID rest.
Proof.
  intros Hf Hn. cbn [scanVersionID]. rewrite (fits_not_long _ Hf).
  cbv zeta. rewrite SplitN_2.
  destruct (String.eqb (dropCR raw) ""); [reflexivity|].
  destruct (cut EQS (dropCR raw)) as [[a b]|] eqn:Hcut; [|reflexivity].
  destruct (String.eqb_spec a "VERSION_ID") as [->|_]; [|reflexivity].
  apply cut_app in Hcut. unfold notVersion in Hn. rewrite Hcut in Hn.
  change ("VERSION_ID" ++ String EQS b)%string with ("VERSION_ID=" ++ b)%string in Hn.
  now rewrite prefix_app in Hn.
Qed.

(** A line that fits and assigns [VERSION_ID] ends the scan with its value. *)
Lemma scan_version raw rest v :
  fits raw = true -> dropCR raw = ("VERSION_ID=" ++ v)%string ->
  scanVersionID (raw :: rest) = (v, None).
Proof.
  intros Hf Hv. cbn [scanVersionID]. rewrite (fits_not_long _ Hf).
  cbv zeta. rewrite SplitN_2, Hv. reflexivity.
Qed.

Lemma scan_no_version lines :
  forallb fits lines = true -> forallb notVersion lines = true ->
  scanVersionID lines = (EmptyString, None).
Proof.
  induction lines as [|raw rest IH]; [reflexivity|].
  cbn [forallb]. rewrite !andb_true_iff. intros [Hf Hfs] [Hn Hns].
  rewrite (scan_notVersion _ _ Hf Hn). now apply IH.
Qed.

Lemma scan_first_version pre : forall raw v post,
  forallb fits (pre ++ [raw]) = true ->
  forallb notVersion pre = true ->
  dropCR raw = ("VERSION_ID=" ++ v)%string ->
  scanVersionID (pre ++ raw :: post) = (v, None).
Proof.
  induction pre as [|p pre IH]; intros raw v post Hf Hn Hv.
  - simpl in Hf. rewrite andb_true_r in Hf. now apply scan_version.
  - simpl in Hf, Hn. apply andb_true_iff in Hf as [Hf Hfs].
    apply andb_true_iff in Hn as [Hn Hns].
    simpl app. rewrite (scan_notVersion _ _ Hf Hn). now apply IH.
Qed.

(** C3, on the code.  For the release-info fixture of the tests, whose
    version line is [VERSION_ID="1680.2.0"], [parseOsVersionID] returns the
    value with its two quote characters, not the string [1680.2.0]. *)
Theorem parseOsVersionID_keeps_quotes :
  parseOsVersionID osContentCoreos = Ok (dq ++ "1680.2.0" ++ dq)%string
  /\ parseOsVersionID osContentCoreos <> Ok "1680.2.0"
  /\ parseOsVersionID ("VERSION_ID=" ++ dq ++ "1680.2.0" ++ dq ++ nl)%string
     = Ok (dq ++ "1680.2.0" ++ dq)%string.
Proof. repeat split; try reflexivity. discriminate. Qed.

(** C4, as stated, fails three times.  Of two [VERSION_ID] lines the first
    of which has an empty value, the value of the first is not returned: the
    unknown-version error is.  A line without [=] that does not fit the
    scanner is not passed over: the scan fails.  And a stream without a
    [VERSION_ID] line does not yield the unknown-version error when one of
    its lines does not fit the scanner. *)
Lemma parseOsVersionID_empty_value_and_long_line :
  parseOsVersionID ("VERSION_ID=" ++ nl ++ "VERSION_ID=1" ++ nl)%string
  = Err ErrUnknownOSVersionID
  /\ parseOsVersionID
       (replicate (N.to_nat MaxScanTokenSize) "x"%char ++ nl ++ "VERSION_ID=1" ++ nl)%string
     = Err (errorsWrap ErrTooLong "failed to parse os-release file")
  /\ parseOsVersionID (replicate (N.to_nat MaxScanTokenSize) "x"%char ++ nl)%string
     = Err (errorsWrap ErrTooLong "failed to parse os-release file").
Proof. repeat split; vm_compute; reflexivity. Qed.

(** A line that assigns [VERSION_ID] is not one without [=]. *)
Lemma version_line (raw : string) :
  notVersion raw = false ->
  ignorable raw = false /\ exists v, dropCR raw = ("VERSION_ID=" ++ v)%string.
Proof.
  unfold notVersion, ignorable. intros H. apply negb_false_iff in H.
  apply prefix_inv in H as [v Hv]. rewrite Hv. split; [reflexivity|now exists v].
Qed.

(** Lines without [=] that are reached and fit the scanner can be left
    out. *)
Lemma scan_filter_scanned lines :
  forallb (fun raw => implb (ignorable raw) (fits raw)) (scanned lines) = true ->
  scanVersionID lines
  = scanVersionID (filter (fun raw => negb (ignorable raw)) lines).
Proof.
  induction lines as [|raw rest IH]; [reflexivity|].
  cbn [scanned filter]. destruct (fits raw) eqn:Hf; cbn [andb].
  - destruct (notVersion raw) eqn:Hn.
    + cbn [forallb]. rewrite andb_true_iff. intros [_ Hrest].
      destruct (ignorable raw) eqn:Hi; cbn [negb].
      * rewrite (scan_ignorable _ _ Hf Hi). now apply IH.
      * now rewrite !(scan_notVersion _ _ Hf Hn), (IH Hrest).
    + intros _. destruct (version_line _ Hn) as [Hi [v Hv]].
      rewrite Hi. cbn [negb]. now rewrite !(scan_version _ _ v Hf Hv).
  - cbn [forallb]. rewrite Hf, andb_true_r.
    destruct (ignorable raw); [discriminate|]. intros _. cbn [negb scanVersionID].
    unfold fits in Hf. apply N.ltb_ge in Hf. apply N.leb_le in Hf.
    now rewrite Hf.
Qed.

(** C4, amended.  Only the lines up to and including the first that assigns
    [VERSION_ID] are scanned, and a scanned line has to fit the scanner.
    When every line fits and none assigns [VERSION_ID], and so for the empty
    stream, the result is the unknown-version error.  Blank lines and lines
    without [=] are passed over, the result being that of the stream without
    them, when those of them that are scanned fit.  And the first line that
    assigns [VERSION_ID] decides the result when it and the lines before it
    fit, whatever follows it: its value when that is not empty, the
    unknown-version error when it is. *)
Theorem parseOsVersionID_lines (rd : string) :
  (forallb fits (rawLines rd) = true ->
   forallb notVersion (rawLines rd) = true ->
   parseOsVersionID rd = Err ErrUnknownOSVersionID)
  /\ (forallb (fun raw => implb (ignorable raw) (fits raw))
               (scanned (rawLines rd)) = true ->
      parseOsVersionID rd
      = finishScan (scanVersionID
                      (filter (fun raw => negb (ignorable raw)) (rawLines rd))))
  /\ (forall pre raw v post,
        rawLines rd = pre ++ raw :: post ->
        forallb fits (pre ++ [raw]) = true ->
        forallb notVersion pre = true ->
        dropCR raw = ("VERSION_ID=" ++ v)%string ->
        parseOsVersionID rd
        = if String.eqb v "" then Err ErrUnknownOSVersionID else Ok v).
Proof.
  unfold parseOsVersionID. split; [|split].
  - intros Hfits Hn. now rewrite (scan_no_version _ Hfits Hn).
  - intros Hfits. now rewrite (scan_filter_scanned _ Hfits).
  - intros pre raw v post Hlines Hfits Hn Hv. rewrite Hlines.
    now rewrite (scan_first_version pre raw v post Hfits Hn Hv).
Qed.

(** A stream with blank lines, lines without [=], two [VERSION_ID] lines
    and, after them, a line that does not fit the scanner; and the empty
    stream. *)
Lemma parseOsVersionID_lines_witness :
  parseOsVersionID osContentOversized = Ok "2705.0.0"
  /\ parseOsVersionID osContentOversized
     = parseOsVersionID ("ID=flatcar" ++ nl ++ "VERSION_ID=2705.0.0" ++ nl
                           ++ "VERSION_ID=9.9.9" ++ nl)%string
  /\ parseOsVersionID "" = Err ErrUnknownOSVersionID.
Proof.
  destruct (parseOsVersionID_lines osContentOversized) as (_ & Hfilter & Hfirst).
  destruct (parseOsVersionID_lines "") as (Hnone & _).
  split; [|split].
  - exact (Hfirst [""; "# release"; "ID=flatcar"; ""] "VERSION_ID=2705.0.0"
             "2705.0.0"
             ["junk"; "VERSION_ID=9.9.9"; replicate (N.to_nat MaxScanTokenSize) "x"%char]
             eq_refl eq_refl eq_refl eq_refl).
  - rewrite (Hfilter eq_refl). reflexivity.
  - exact (Hnone eq_refl eq_refl).
Defined.

(** ** The remote resolver *)

Import RemoteResolver.

(** The cases of the templating test, on both fixtures. *)
Example evaluateURL_plain :
  fst (evaluateURL decls (releaseWorld osContentCoreos)
         (Some (mkRemote "https://example.com/basepath")) "/usr" [])
  = Ok "https://example.com/basepath".
Proof. reflexivity. Qed.

Example evaluateURL_coreos :
  fst (evaluateURL decls (releaseWorld osContentCoreos)
         (Some (mkRemote "https://example.com/baseurl/${ID}/${FLATCAR_BOARD}/${VERSION_ID}"))
         "/tmp/usr" [])
  = Ok "https://example.com/baseurl/coreos/amd64-usr/1680.2.0".
Proof. reflexivity. Qed.

Example evaluateURL_flatcar :
  fst (evaluateURL decls (releaseWorld osContentFlatcar)
         (Some (mkRemote "https://example.com/baseurl/${ID}/${COREOS_BOARD}/${VERSION_ID}"))
         "/tmp/usr" [])
  = Ok "https://example.com/baseurl/flatcar/amd64-usr/2705.0.0".
Proof. reflexivity. Qed.

Example evaluateURL_usr :
  fst (evaluateURL decls (releaseWorld osContentFlatcar)
         (Some (mkRemote "https://example.com/baseurl/${COREOS_USR}${FLATCAR_USR}"))
         "/tmp/usr" [])
  = Ok "https://example.com/baseurl//tmp/usr/tmp/usr".
Proof. reflexivity. Qed.

Example CurrentOsVersionID_flatcar :
  CurrentOsVersionID decls (releaseWorld osContentFlatcar) "" []
  = (Ok "2705.0.0",
     [EvOpen "/usr/lib/os-release"; EvRead "/usr/lib/os-release";
      EvClose "/usr/lib/os-release"]).
Proof. reflexivity. Qed.

(** C9.  [evaluateURL] checks its preconditions in order: a nil remote gives
    the nil-remote error whatever the mountpoint; a remote with an empty
    mountpoint gives the empty-mountpoint error whatever its template; a
    remote with a mountpoint and an empty template gives the empty-template
    error.  No call is made in any of the three cases, and the three errors
    are told apart by comparing error values. *)
Theorem evaluateURL_preconditions (D : Decls) (w : World) :
  (forall mountpoint t,
     evaluateURL D w None mountpoint t = (Err errNilRemote, t))
  /\ (forall r t,
        evaluateURL D w (Some r) "" t = (Err errEmptyUsrMountpoint, t))
  /\ (forall r mountpoint t,
        mountpoint <> EmptyString -> TemplateURL r = EmptyString ->
        evaluateURL D w (Some r) mountpoint t = (Err errEmptyTemplateURL, t))
  /\ sameError errNilRemote errEmptyUsrMountpoint = false
  /\ sameError errNilRemote errEmptyTemplateURL = false
  /\ sameError errEmptyUsrMountpoint errEmptyTemplateURL = false.
Proof.
  repeat split; try reflexivity.
  intros r mountpoint t Hm Ht. unfold evaluateURL.
  destruct (String.eqb_spec mountpoint "") as [->|_]; [contradiction|].
  now rewrite Ht.
Qed.

(** The steps of the test: a nil remote, an empty remote without and with
    a mountpoint. *)
Lemma evaluateURL_preconditions_witness :
  evaluateURL decls (world never []) None "" [] = (Err errNilRemote, [])
  /\ evaluateURL decls (world never []) (Some (mkRemote "")) "" []
     = (Err errEmptyUsrMountpoint, [])
  /\ evaluateURL decls (world never []) (Some (mkRemote "")) "/usr" []
     = (Err errEmptyTemplateURL, []).
Proof.
  destruct (evaluateURL_preconditions decls (world never []))
    as (Hnil & Hmount & Htemplate & _).
  split; [apply Hnil | split; [apply Hmount|]].
  apply Htemplate; [discriminate | reflexivity].
Defined.


(** * Further properties of the program *)

(** ** Reading a run backwards *)

Section Inversion.

Context {A B : Type}.

Lemma bind_inv_ok (m : M A) (k : A -> M B) t b t' :
  bind m k t = (Ok b, t') ->
  exists a t1, m t = (Ok a, t1) /\ k a t1 = (Ok b, t').
Proof.
  unfold bind. destruct (m t) as [[a|e] t1]; [|discriminate].
  intros H. now exists a, t1.
Qed.

Lemma bind_inv_err (m : M A) (k : A -> M B) t e t' :
  bind m k t = (Err e, t') ->
  m t = (Err e, t') \/ exists a t1, m t = (Ok a, t1) /\ k a t1 = (Err e, t').
Proof.
  unfold bind. destruct (m t) as [[a|e0] t1]; intros H.
  - right. now exists a, t1.
  - left. now inversion H.
Qed.

Lemma mapErr_inv_ok (f : error -> error) (m : M A) t a t' :
  mapErr f m t = (Ok a, t') -> m t = (Ok a, t').
Proof. unfold mapErr. now destruct (m t) as [[a0|e0] t1]. Qed.

Lemma mapErr_inv_err (f : error -> error) (m : M A) t e t' :
  mapErr f m t = (Err e, t') -> exists e0, m t = (Err e0, t') /\ e = f e0.
Proof.
  unfold mapErr. destruct (m t) as [[a0|e0] t1]; [discriminate|].
  intros H. inversion H; subst. now exists e0.
Qed.

Lemma orLog_inv_ok fields msg (m : M A) t a t' :
  orLog fields msg m t = (Ok a, t') -> m t = (Ok a, t').
Proof. unfold orLog. now destruct (m t) as [[a0|e0] t1]. Qed.

Lemma orLog_inv_err fields msg (m : M A) t e t' :
  orLog fields msg m t = (Err e, t') ->
  exists t1, m t = (Err e, t1) /\ t' = t1 ++ [EvLog ErrorLevel fields msg (Some e)].
Proof.
  unfold orLog. destruct (m t) as [[a0|e0] t1]; [discriminate|].
  intros H. inversion H; subst. now exists t1.
Qed.

Lemma defer_inv ev (m : M A) t r t' :
  defer ev m t = (r, t') -> exists t1, m t = (r, t1) /\ t' = t1 ++ [ev].
Proof.
  unfold defer. destruct (m t) as [r0 t1]. intros H. inversion H; subst.
  now exists t1.
Qed.

End Inversion.

Lemma call_inv_ok w ev t t' :
  call w ev t = (Ok tt, t') -> sysErr w t ev = None /\ t' = t ++ [ev].
Proof.
  unfold call. destruct (sysErr w t ev); intros H; inversion H. now split.
Qed.

Lemma call_inv_err w ev t e t' :
  call w ev t = (Err e, t') -> sysErr w t ev = Some e /\ t' = t ++ [ev].
Proof.
  unfold call. destruct (sysErr w t ev); intros H; inversion H. now split.
Qed.

(** ** Traces only grow *)

Section Grows.

Lemma grows_ret {A} (a : A) : grows (ret a).
Proof. intros t. exists []. simpl. now rewrite app_nil_r. Qed.

Lemma grows_throw {A} e : grows (@throw A e).
Proof. intros t. exists []. simpl. now rewrite app_nil_r. Qed.

Lemma grows_bind {A B} (m : M A) (k : A -> M B) :
  grows m -> (forall a, grows (k a)) -> grows (bind m k).
Proof.
  intros Hm Hk t. unfold bind. destruct (Hm t) as [evs Hevs].
  destruct (m t) as [[a|e] t1]; simpl in Hevs; subst t1.
  - destruct (Hk a (t ++ evs)) as [evs' H']. exists (evs ++ evs').
    now rewrite H', app_assoc.
  - now exists evs.
Qed.

(** A first step with known calls, followed by steps that only add calls. *)
Lemma bind_first_events {A B} (m : M A) (k : A -> M B) t evs0 :
  snd (m t) = t ++ evs0 ->
  (forall a, grows (k a)) ->
  exists evs, snd (bind m k t) = t ++ evs0 ++ evs.
Proof.
  intros Hm Hk. unfold bind. destruct (m t) as [[a|e] t1]; simpl in Hm; subst t1.
  - destruct (Hk a (t ++ evs0)) as [evs H']. exists evs.
    now rewrite H', app_assoc.
  - exists []. now rewrite app_nil_r.
Qed.

Lemma grows_mapErr {A} f (m : M A) : grows m -> grows (mapErr f m).
Proof.
  intros Hm t. unfold mapErr. destruct (Hm t) as [evs Hevs].
  destruct (m t) as [[a|e] t1]; now exists evs.
Qed.

Lemma grows_emit ev : grows (emit ev).
Proof. intros t. now exists [ev]. Qed.

Lemma grows_call w ev : grows (call w ev).
Proof. intros t. now exists [ev]. Qed.

Lemma grows_mkdirIfMissing w d : grows (mkdirIfMissing w d).
Proof.
  intros t. unfold mkdirIfMissing, bind, attempt, os_Stat, os_MkdirAll, call, ret.
  destruct (sysErr w t (EvStat d)) as [e|]; [destruct (IsNotExist e)|].
  - exists [EvStat d; EvMkdirAll d (octal 7 5 5)]. simpl. now rewrite <- app_assoc.
  - now exists [EvStat d].
  - now exists [EvStat d].
Qed.

Lemma grows_mkdirEach w paths : grows (mkdirEach w paths).
Proof.
  induction paths as [|d rest IH]; simpl.
  - apply grows_ret.
  - apply grows_bind; [apply grows_mkdirIfMissing | intros _; exact IH].
Qed.

End Grows.

(** ** [setupPaths] *)

Section SetupPaths.

Variable D : Decls.
Variable w : World.
Variable cfg : ApplyConfig.

(** What one directory costs, by the answers of the world. *)
Lemma mkdirIfMissing_run d t :
  mkdirIfMissing w d t
  = match sysErr w t (EvStat d) with
    | None => (Ok tt, t ++ [EvStat d])
    | Some e =>
        if IsNotExist e then
          (match sysErr w (t ++ [EvStat d]) (EvMkdirAll d (octal 7 5 5)) with
           | None => Ok tt
           | Some e' => Err e'
           end, t ++ [EvStat d; EvMkdirAll d (octal 7 5 5)])
        else (Ok tt, t ++ [EvStat d])
    end.
Proof.
  unfold mkdirIfMissing, bind, attempt, os_Stat, os_MkdirAll, call, ret.
  destruct (sysErr w t (EvStat d)) as [e|]; [|reflexivity].
  destruct (IsNotExist e); [|reflexivity].
  now rewrite <- app_assoc.
Qed.

Lemma setupPaths_unfold t :
  setupPaths D w (Some cfg) t
  = (mkdirEach w (setupDirs D cfg);;
     mapErr (fun e => errorsWrap e "failed to mount unpack dir")
       (unix_Mount w "none" (RunUnpackDir D cfg) "tmpfs" 0 "size=450M");;
     mapErr (fun e => errorsWrap e "failed to chmod unpack dir")
       (os_Chmod w (RunUnpackDir D cfg) (octal 7 5 5));;
     log DebugLevel [("target", LStr (RunUnpackDir D cfg))] "mounted tmpfs" None) t.
Proof. reflexivity. Qed.

(** The calls after the directories, once these are there. *)
Lemma setupPaths_tail t1 :
  (mapErr (fun e => errorsWrap e "failed to mount unpack dir")
     (unix_Mount w "none" (RunUnpackDir D cfg) "tmpfs" 0 "size=450M");;
   mapErr (fun e => errorsWrap e "failed to chmod unpack dir")
     (os_Chmod w (RunUnpackDir D cfg) (octal 7 5 5));;
   log DebugLevel [("target", LStr (RunUnpackDir D cfg))] "mounted tmpfs" None) t1
  = match sysErr w t1 (EvMount "none" (RunUnpackDir D cfg) "tmpfs" 0 "size=450M") with
    | Some e =>
        (Err (errorsWrap e "failed to mount unpack dir"),
         t1 ++ [EvMount "none" (RunUnpackDir D cfg) "tmpfs" 0 "size=450M"])
    | None =>
        match sysErr w
                (t1 ++ [EvMount "none" (RunUnpackDir D cfg) "tmpfs" 0 "size=450M"])
                (EvChmod (RunUnpackDir D cfg) (octal 7 5 5)) with
        | Some e =>
            (Err (errorsWrap e "failed to chmod unpack dir"),
             t1 ++ [EvMount "none" (RunUnpackDir D cfg) "tmpfs" 0 "size=450M";
                    EvChmod (RunUnpackDir D cfg) (octal 7 5 5)])
        | None => (Ok tt, t1 ++ setupTail D cfg)
        end
    end.
Proof.
  unfold bind, mapErr, unix_Mount, os_Chmod, call, log, emit, setupTail.
  destruct (sysErr w t1 _) as [e|]; [reflexivity|].
  destruct (sysErr w _ _) as [e|]; now rewrite <- !app_assoc.
Qed.

(** X1. When the run directory is missing, it is the first thing
    [setupPaths] makes: the run starts with the [Stat] of the run directory
    and its [MkdirAll] with mode 0755, before any other path is looked at. *)
Theorem setupPaths_makes_RunDir_first (t : Trace) (e : error) :
  sysErr w t (EvStat (RunDir cfg)) = Some e ->
  IsNotExist e = true ->
  exists evs,
    snd (setupPaths D w (Some cfg) t)
    = t ++ EvStat (RunDir cfg) :: EvMkdirAll (RunDir cfg) (octal 7 5 5) :: evs.
Proof.
  intros Hstat Hmissing. rewrite setupPaths_unfold.
  unfold setupDirs. cbn [mkdirEach].
  assert (Hfirst : snd (mkdirIfMissing w (RunDir cfg) t)
                   = t ++ [EvStat (RunDir cfg); EvMkdirAll (RunDir cfg) (octal 7 5 5)]).
  { rewrite mkdirIfMissing_run, Hstat, Hmissing. reflexivity. }
  destruct (bind_first_events _
              (fun _ => mkdirEach w [BaseDir cfg; ConfDir cfg; RunBinDir D cfg;
                                     RunUnpackDir D cfg; UserProfileDir D cfg])
              t _ Hfirst) as [evs1 Hdirs].
  { intros _. apply grows_mkdirEach. }
  match goal with
  | |- exists evs, snd (bind ?m ?k t) = _ =>
      destruct (bind_first_events m k t _ Hdirs) as [evs2 Hall]
  end.
  { intros _. apply grows_bind; [apply grows_mapErr, grows_call|]. intros _.
    apply grows_bind; [apply grows_mapErr, grows_call|]. intros _.
    apply grows_emit. }
  exists (evs1 ++ evs2). rewrite Hall. now rewrite <- !app_assoc.
Qed.

Lemma mkdirEach_existing paths :
  (forall t p e, sysErr w t (EvStat p) = Some e -> IsNotExist e = false) ->
  forall t, mkdirEach w paths t = (Ok tt, t ++ map EvStat paths).
Proof.
  intros Hstat. induction paths as [|d rest IH]; intros t; simpl.
  - unfold ret. now rewrite app_nil_r.
  - unfold bind. rewrite mkdirIfMissing_run.
    destruct (sysErr w t (EvStat d)) as [e|] eqn:Hd.
    + rewrite (Hstat _ _ _ Hd), IH. now rewrite <- app_assoc.
    + rewrite IH. now rewrite <- app_assoc.
Qed.

(** X2. On a layout where no [Stat] reports a missing path (the path
    exists, or [Stat] fails for another reason, which is ignored),
    [setupPaths] makes no directory: it looks at the six paths in order,
    mounts the tmpfs and chmods it.  Run again, it succeeds again with the
    same calls, mounting a second tmpfs. *)
Theorem setupPaths_existing_layout (t : Trace) :
  (forall t p e, sysErr w t (EvStat p) = Some e -> IsNotExist e = false) ->
  (forall t, sysErr w t
               (EvMount "none" (RunUnpackDir D cfg) "tmpfs" 0 "size=450M") = None) ->
  (forall t, sysErr w t (EvChmod (RunUnpackDir D cfg) (octal 7 5 5)) = None) ->
  let calls := map EvStat (setupDirs D cfg) ++ setupTail D cfg in
  setupPaths D w (Some cfg) t = (Ok tt, t ++ calls)
  /\ setupPaths D w (Some cfg) (t ++ calls) = (Ok tt, (t ++ calls) ++ calls).
Proof.
  intros Hstat Hmount Hchmod calls.
  assert (Hrun : forall t0, setupPaths D w (Some cfg) t0 = (Ok tt, t0 ++ calls)).
  { intros t0. rewrite setupPaths_unfold.
    rewrite (bind_ok _ _ _ _ _ (mkdirEach_existing _ Hstat t0)).
    rewrite setupPaths_tail, Hmount, Hchmod. unfold calls.
    now rewrite app_assoc. }
  split; apply Hrun.
Qed.

(** X3. When [setupPaths] returns nil, the six directories have been
    handled without error, and the run ends with the tmpfs mount of the
    unpack directory (source [none], no flags, [size=450M]), which
    succeeded, the chmod of that directory to 0755, which succeeded, and
    the debug record. *)
Theorem setupPaths_success (t0 t1 : Trace) :
  setupPaths D w (Some cfg) t0 = (Ok tt, t1) ->
  exists tdirs,
    mkdirEach w (setupDirs D cfg) t0 = (Ok tt, tdirs)
    /\ t1 = tdirs ++ setupTail D cfg
    /\ sysErr w tdirs
         (EvMount "none" (RunUnpackDir D cfg) "tmpfs" 0 "size=450M") = None
    /\ sysErr w
         (tdirs ++ [EvMount "none" (RunUnpackDir D cfg) "tmpfs" 0 "size=450M"])
         (EvChmod (RunUnpackDir D cfg) (octal 7 5 5)) = None.
Proof.
  rewrite setupPaths_unfold. intros H.
  apply bind_inv_ok in H as ([] & tdirs & Hdirs & Htail).
  exists tdirs. split; [exact Hdirs|].
  rewrite setupPaths_tail in Htail.
  destruct (sysErr w tdirs _) as [e|]; [discriminate|].
  destruct (sysErr w _ _) as [e|]; [discriminate|].
  inversion Htail. now repeat split.
Qed.

Lemma mkdirEach_inv_err paths : forall t e t',
  mkdirEach w paths t = (Err e, t') ->
  exists p before,
    In p paths
    /\ t' = before ++ [EvMkdirAll p (octal 7 5 5)]
    /\ sysErr w before (EvMkdirAll p (octal 7 5 5)) = Some e.
Proof.
  induction paths as [|d rest IH]; intros t e t' H; simpl in H.
  - discriminate.
  - apply bind_inv_err in H as [H | ([] & t1 & _ & H)].
    + rewrite mkdirIfMissing_run in H.
      destruct (sysErr w t (EvStat d)) as [e0|]; [|discriminate].
      destruct (IsNotExist e0); [|discriminate].
      destruct (sysErr w (t ++ [EvStat d]) _) as [e1|] eqn:Hmk; [|discriminate].
      inversion H; subst. exists d, (t ++ [EvStat d]).
      split; [now left|]. split; [now rewrite <- app_assoc | exact Hmk].
    + destruct (IH _ _ _ H) as (p & before & Hin & Ht & Hs).
      exists p, before. split; [now right | now split].
Qed.

(** The three ways [setupPaths] fails once it has a configuration, by the
    answers of the world. *)
Lemma setupPaths_inv_err (t0 t1 : Trace) (e : error) :
  setupPaths D w (Some cfg) t0 = (Err e, t1) ->
  (exists p before,
     In p (setupDirs D cfg)
     /\ t1 = before ++ [EvMkdirAll p (octal 7 5 5)]
     /\ sysErr w before (EvMkdirAll p (octal 7 5 5)) = Some e
     /\ seen mountCall t1 = seen mountCall t0)
  \/ (exists cause tdirs,
        mkdirEach w (setupDirs D cfg) t0 = (Ok tt, tdirs)
        /\ sysErr w tdirs
             (EvMount "none" (RunUnpackDir D cfg) "tmpfs" 0 "size=450M") = Some cause
        /\ e = errorsWrap cause "failed to mount unpack dir"
        /\ t1 = tdirs
                ++ [EvMount "none" (RunUnpackDir D cfg) "tmpfs" 0 "size=450M"])
  \/ (exists cause tdirs,
        mkdirEach w (setupDirs D cfg) t0 = (Ok tt, tdirs)
        /\ sysErr w tdirs
             (EvMount "none" (RunUnpackDir D cfg) "tmpfs" 0 "size=450M") = None
        /\ sysErr w
             (tdirs ++ [EvMount "none" (RunUnpackDir D cfg) "tmpfs" 0 "size=450M"])
             (EvChmod (RunUnpackDir D cfg) (octal 7 5 5)) = Some cause
        /\ e = errorsWrap cause "failed to chmod unpack dir"
        /\ t1 = tdirs
                ++ [EvMount "none" (RunUnpackDir D cfg) "tmpfs" 0 "size=450M";
                    EvChmod (RunUnpackDir D cfg) (octal 7 5 5)]).
Proof.
  rewrite setupPaths_unfold. intros H.
  apply bind_inv_err in H as [H | ([] & tdirs & Hdirs & H)].
  - left. pose proof (quiet_mkdirEach w mountCall (setupDirs D cfg)
                        (fun _ => eq_refl) (fun _ _ => eq_refl) t0) as Hq.
    rewrite H in Hq. simpl in Hq.
    destruct (mkdirEach_inv_err _ _ _ _ H) as (p & before & Hin & Ht & Hs).
    exists p, before. now repeat split.
  - right. rewrite setupPaths_tail in H.
    destruct (sysErr w tdirs
                (EvMount "none" (RunUnpackDir D cfg) "tmpfs" 0 "size=450M"))
      as [e1|] eqn:Hmount.
    + left. inversion H. exists e1, tdirs.
      split; [exact Hdirs|]. split; [exact Hmount|]. split; reflexivity.
    + destruct (sysErr w
                  (tdirs
                     ++ [EvMount "none" (RunUnpackDir D cfg) "tmpfs" 0 "size=450M"])
                  (EvChmod (RunUnpackDir D cfg) (octal 7 5 5)))
        as [e2|] eqn:Hchmod; [|discriminate].
      right. inversion H. exists e2, tdirs.
      split; [exact Hdirs|]. split; [exact Hmount|]. split; [exact Hchmod|].
      split; reflexivity.
Qed.

End SetupPaths.

(** Nothing exists yet. *)
Lemma setupPaths_makes_RunDir_first_witness :
  exists evs,
    snd (setupPaths decls (system nothingExists (Ok cache) (Ok [])) (Some cfg) [])
    = [] ++ EvStat "/run/torcx" :: EvMkdirAll "/run/torcx" 493 :: evs.
Proof.
  apply (setupPaths_makes_RunDir_first decls
           (system nothingExists (Ok cache) (Ok [])) cfg []
           (PathError "stat" "/run/torcx" ENOENT)); reflexivity.
Defined.

(** [Stat] is denied on every path: no directory is made, twice. *)
Lemma setupPaths_existing_layout_witness :
  let W := system statDenied (Ok cache) (Ok []) in
  let calls :=
    [ EvStat "/run/torcx"; EvStat "/var/lib/torcx"; EvStat "/etc/torcx";
      EvStat "/run/torcx/bin"; EvStat "/run/torcx/unpack";
      EvStat "/etc/torcx/profiles";
      EvMount "none" "/run/torcx/unpack" "tmpfs" 0 "size=450M";
      EvChmod "/run/torcx/unpack" 493;
      EvLog DebugLevel [("target", LStr "/run/torcx/unpack")] "mounted tmpfs" None ] in
  setupPaths decls W (Some cfg) [] = (Ok tt, calls)
  /\ setupPaths decls W (Some cfg) calls = (Ok tt, calls ++ calls).
Proof.
  intros W calls.
  apply (setupPaths_existing_layout decls W cfg []).
  - intros t p e H. simpl in H. destruct p; inversion H; reflexivity.
  - reflexivity.
  - reflexivity.
Defined.

(** Every call succeeds on an empty system. *)
Lemma setupPaths_success_witness :
  let W := system nothingExists (Ok cache) (Ok []) in
  exists tdirs,
    mkdirEach W (setupDirs decls cfg) [] = (Ok tt, tdirs)
    /\ snd (setupPaths decls W (Some cfg) []) = tdirs ++ setupTail decls cfg
    /\ sysErr W tdirs (EvMount "none" "/run/torcx/unpack" "tmpfs" 0 "size=450M") = None
    /\ sysErr W (tdirs ++ [EvMount "none" "/run/torcx/unpack" "tmpfs" 0 "size=450M"])
         (EvChmod "/run/torcx/unpack" 493) = None.
Proof.
  intros W.
  apply (setupPaths_success decls W cfg []
           (snd (setupPaths decls W (Some cfg) []))).
  reflexivity.
Defined.

(** X4. [setupPaths] fails in one of four ways.  Without a configuration
    it fails with the missing-configuration error before any call.  With
    one: a [MkdirAll] of one of the six directories failed, its error is
    returned as it is and nothing has been mounted; or the six directories
    were handled and the tmpfs mount failed, the error the mount answered
    is returned wrapped and the mount is the last call; or the mount
    succeeded and the chmod of the unpack directory failed, the error the
    chmod answered is returned wrapped and the chmod is the last call, the
    tmpfs staying mounted. *)
Theorem setupPaths_failure (D : Decls) (w : World)
    (applyCfg : option ApplyConfig) (t0 t1 : Trace) (e : error) :
  setupPaths D w applyCfg t0 = (Err e, t1) ->
  match applyCfg with
  | None => e = errorsNew "missing apply configuration" /\ t1 = t0
  | Some cfg =>
      (exists p before,
         In p (setupDirs D cfg)
         /\ t1 = before ++ [EvMkdirAll p (octal 7 5 5)]
         /\ sysErr w before (EvMkdirAll p (octal 7 5 5)) = Some e
         /\ seen mountCall t1 = seen mountCall t0)
      \/ (exists cause tdirs,
            mkdirEach w (setupDirs D cfg) t0 = (Ok tt, tdirs)
            /\ sysErr w tdirs
                 (EvMount "none" (RunUnpackDir D cfg) "tmpfs" 0 "size=450M")
               = Some cause
            /\ e = errorsWrap cause "failed to mount unpack dir"
            /\ t1 = tdirs
                    ++ [EvMount "none" (RunUnpackDir D cfg) "tmpfs" 0 "size=450M"])
      \/ (exists cause tdirs,
            mkdirEach w (setupDirs D cfg) t0 = (Ok tt, tdirs)
            /\ sysErr w tdirs
                 (EvMount "none" (RunUnpackDir D cfg) "tmpfs" 0 "size=450M")
               = None
            /\ sysErr w
                 (tdirs
                    ++ [EvMount "none" (RunUnpackDir D cfg) "tmpfs" 0 "size=450M"])
                 (EvChmod (RunUnpackDir D cfg) (octal 7 5 5)) = Some cause
            /\ e = errorsWrap cause "failed to chmod unpack dir"
            /\ t1 = tdirs
                    ++ [EvMount "none" (RunUnpackDir D cfg) "tmpfs" 0 "size=450M";
                        EvChmod (RunUnpackDir D cfg) (octal 7 5 5)])
  end.
Proof.
  destruct applyCfg as [cfg|].
  - apply setupPaths_inv_err.
  - unfold setupPaths, throw. intros H. now inversion H.
Qed.

(** Nothing exists and the unpack directory cannot be chmodded: the mount
    has succeeded, the error of the chmod comes back wrapped. *)
Lemma setupPaths_failure_witness :
  let W := system chmodFails (Ok cache) (Ok []) in
  let cause := PathError "chmod" "/run/torcx/unpack" 1 in
  exists tdirs,
    mkdirEach W (setupDirs decls cfg) [] = (Ok tt, tdirs)
    /\ sysErr W tdirs (EvMount "none" "/run/torcx/unpack" "tmpfs" 0 "size=450M")
       = None
    /\ sysErr W (tdirs ++ [EvMount "none" "/run/torcx/unpack" "tmpfs" 0 "size=450M"])
         (EvChmod "/run/torcx/unpack" 493) = Some cause
    /\ setupPaths decls W (Some cfg) []
       = (Err (errorsWrap cause "failed to chmod unpack dir"),
          tdirs ++ [EvMount "none" "/run/torcx/unpack" "tmpfs" 0 "size=450M";
                    EvChmod "/run/torcx/unpack" 493]).
Proof.
  intros W cause.
  destruct (setupPaths_failure decls W (Some cfg) []
              (snd (setupPaths decls W (Some cfg) []))
              (errorsWrap cause "failed to chmod unpack dir") eq_refl)
    as [(p & before & _ & _ & Hs & _) | [(c & tdirs & _ & _ & He & _)
                                        | (c & tdirs & Hdirs & Hm & Hc & He & Ht)]].
  - simpl in Hs. destruct (String.eqb p "/var/lib/torcx"); discriminate.
  - discriminate.
  - exists tdirs. inversion He; subst c.
    split; [exact Hdirs|]. split; [exact Hm|]. split; [exact Hc|].
    exact (f_equal (fun t => (Err (errorsWrap cause "failed to chmod unpack dir"), t))
             Ht).
Defined.

(** ** [applyImages] and [ApplyProfile], read backwards *)

Section ApplyOutcomes.

Variable D : Decls.
Variable w : World.
Variable cfg : ApplyConfig.

(** A loop that hands back the failed list it was given has applied every
    image. *)
Lemma applyLoop_none_failed sc images : forall failed t t',
  applyLoop D w cfg sc images failed t = (Ok failed, t') ->
  allApplied D w cfg sc images t = Some t'.
Proof.
  induction images as [|im rest IH]; intros failed t t' H; simpl in *.
  - unfold ret in H. now inversion H.
  - destruct (applyImage D w cfg sc im t) as [[[]|e] t1] eqn:Him.
    + rewrite (bind_ok _ _ _ _ _ (attempt_run _ _ _ _ Him)) in H.
      now apply (IH failed).
    + rewrite (bind_ok _ _ _ _ _ (attempt_run _ _ _ _ Him)) in H.
      destruct (applyLoop_total D w cfg sc rest (failed ++ [im]) t1)
        as (extra & t2 & Hloop & _).
      rewrite Hloop in H. inversion H as [[Hlen Ht]].
      apply (f_equal (@List.length Image)) in Hlen.
      rewrite !length_app in Hlen. simpl in Hlen. lia.
Qed.

Lemma applyImages_inv_ok images t0 t :
  applyImages D w (Some cfg) images t0 = (Ok tt, t) ->
  exists sc,
    w_NewStoreCache w t0 (StorePaths cfg) = Ok sc
    /\ allApplied D w cfg sc images (t0 ++ [EvNewStoreCache (StorePaths cfg)])
       = Some t.
Proof.
  unfold applyImages. intros H.
  apply bind_inv_ok in H as (sc & t1 & Hsc & H).
  unfold NewStoreCache, ask in Hsc. inversion Hsc as [[Hw Ht1]].
  apply bind_inv_ok in H as (failed & t2 & Hloop & H).
  exists sc. split; [exact Hw|].
  destruct failed as [|im failed]; [|discriminate].
  simpl in H. unfold ret in H. inversion H; subst t2.
  rewrite Ht1. now apply (applyLoop_none_failed sc images []).
Qed.

(** X5. With the store cache built, [applyImages] returns nil exactly
    when every image of the list is applied in its turn; the trace it
    leaves is then the one the images leave. *)
Theorem applyImages_nil_iff_all_applied sc images (t0 t : Trace) :
  w_NewStoreCache w t0 (StorePaths cfg) = Ok sc ->
  applyImages D w (Some cfg) images t0 = (Ok tt, t)
  <-> allApplied D w cfg sc images (t0 ++ [EvNewStoreCache (StorePaths cfg)])
      = Some t.
Proof.
  intros Hsc. split.
  - intros H. apply applyImages_inv_ok in H as (sc' & Hsc' & Hall).
    rewrite Hsc in Hsc'. inversion Hsc'; subst sc'. exact Hall.
  - intros Hall.
    rewrite (applyImages_run D w cfg sc images [] t0 t Hsc
               (applyLoop_allApplied D w cfg sc images [] _ _ Hall)).
    reflexivity.
Qed.

(** The last step of [ApplyProfile], by the answers of the world. *)
Lemma writeRunProfile_cases images t :
  let rp := RunProfile D cfg in
  let doc := {| Kind := ProfileManifestV0K; Value := ImagesToJSONV0 images |} in
  writeRunProfile D w cfg images t
  = match sysErr w t (EvCreate rp) with
    | Some e => (Err e, t ++ [EvCreate rp])
    | None =>
        match sysErr w (t ++ [EvCreate rp]) (EvEncode rp "" "  " doc) with
        | Some e =>
            (Err (errorsWrapf e "writing %q" [ArgStr rp]),
             t ++ [EvCreate rp; EvEncode rp "" "  " doc; EvFlush rp; EvClose rp])
        | None =>
            match sysErr w (t ++ [EvCreate rp; EvEncode rp "" "  " doc])
                    (EvChmod rp (octal 4 4 4)) with
            | Some e =>
                (Err e,
                 t ++ [EvCreate rp; EvEncode rp "" "  " doc;
                       EvChmod rp (octal 4 4 4); EvFlush rp; EvClose rp])
            | None => (Ok tt, t ++ runProfileCalls D cfg images)
            end
        end
    end.
Proof.
  intros rp doc.
  unfold writeRunProfile, os_Create, json_Encode, os_Chmod, log, emit,
    defer, mapErr, bind, call, ret, runProfileCalls. fold rp. fold doc.
  destruct (sysErr w t (EvCreate rp)) as [e|]; [reflexivity|].
  destruct (sysErr w (t ++ [EvCreate rp]) _) as [e|]; simpl.
  { now rewrite <- !app_assoc. }
  replace ((t ++ [EvCreate rp]) ++ [EvEncode rp "" "  " doc])
    with (t ++ [EvCreate rp; EvEncode rp "" "  " doc])
    by now rewrite <- app_assoc.
  destruct (sysErr w _ (EvChmod rp (octal 4 4 4))) as [e|];
    now rewrite <- !app_assoc.
Qed.

(** X6. When the run-profile file cannot be created, the last step of
    [ApplyProfile] returns that error and closes nothing.  Once the file is
    created, the buffered writer is flushed and the file closed, in that
    order and as the last two calls, however the step ends.  A failed encode
    is returned wrapped with the path, and the file is then not chmodded;
    after a successful encode the next call is the chmod to 0444, whose
    error is returned as it is. *)
Theorem writeRunProfile_releases_file images (t : Trace) :
  let rp := RunProfile D cfg in
  let doc := {| Kind := ProfileManifestV0K; Value := ImagesToJSONV0 images |} in
  match sysErr w t (EvCreate rp) with
  | Some e => writeRunProfile D w cfg images t = (Err e, t ++ [EvCreate rp])
  | None =>
      exists r mid,
        writeRunProfile D w cfg images t
        = (r, t ++ EvCreate rp :: mid ++ [EvFlush rp; EvClose rp])
        /\ match sysErr w (t ++ [EvCreate rp]) (EvEncode rp "" "  " doc) with
           | Some e =>
               r = Err (errorsWrapf e "writing %q" [ArgStr rp])
               /\ mid = [EvEncode rp "" "  " doc]
           | None =>
               (exists more,
                  mid = EvEncode rp "" "  " doc :: EvChmod rp (octal 4 4 4) :: more)
               /\ r = match sysErr w (t ++ [EvCreate rp; EvEncode rp "" "  " doc])
                              (EvChmod rp (octal 4 4 4)) with
                      | Some e => Err e
                      | None => Ok tt
                      end
           end
  end.
Proof.
  intros rp doc. rewrite writeRunProfile_cases. fold rp. fold doc.
  destruct (sysErr w t (EvCreate rp)) as [e|]; [reflexivity|].
  destruct (sysErr w (t ++ [EvCreate rp]) _) as [e|].
  { eexists _, [EvEncode rp "" "  " doc]. split; [reflexivity | now split]. }
  destruct (sysErr w _ (EvChmod rp (octal 4 4 4))) as [e|].
  - eexists _, [EvEncode rp "" "  " doc; EvChmod rp (octal 4 4 4)].
    split; [reflexivity|]. split; [now exists [] | reflexivity].
  - eexists _, [EvEncode rp "" "  " doc; EvChmod rp (octal 4 4 4);
                EvLog DebugLevel
                  [ ("upper profile", LStr (UpperProfile cfg));
                    ("sealed profile", LStr rp) ]
                  "profile applied" None].
    split; [reflexivity|]. split; [now eexists | reflexivity].
Qed.

(** X7. A failed setup ends [ApplyProfile] there, with the error wrapped
    as [profile setup]; a failed merge ends it right after the merge, with
    the error as it is.  In both cases no store cache is built and nothing
    is written. *)
Theorem ApplyProfile_early_failure (t0 t1 : Trace) (e : error) :
  (setupPaths D w (Some cfg) t0 = (Err e, t1) ->
   ApplyProfile D w (Some cfg) t0 = (Err (errorsWrap e "profile setup"), t1))
  /\ (setupPaths D w (Some cfg) t0 = (Ok tt, t1) ->
      w_mergeProfiles w t1 cfg = Err e ->
      ApplyProfile D w (Some cfg) t0 = (Err e, t1 ++ [EvMergeProfiles cfg])).
Proof.
  split.
  - intros H. unfold ApplyProfile.
    now rewrite (bind_err _ _ _ _ _ (mapErr_err _ _ _ _ _ H)).
  - intros H Hm. unfold ApplyProfile.
    rewrite (bind_ok _ _ _ _ _ (mapErr_ok _ _ _ _ _ H)).
    unfold bind at 1, mergeProfiles, ask. now rewrite Hm.
Qed.

(** X8. When the merged list is not empty and the store cache cannot be
    built, [ApplyProfile] returns that error as it is, right after the call:
    no image is resolved and no run profile is written. *)
Theorem ApplyProfile_store_failure images (t0 t1 : Trace) (e : error) :
  setupPaths D w (Some cfg) t0 = (Ok tt, t1) ->
  w_mergeProfiles w t1 cfg = Ok images ->
  images <> [] ->
  w_NewStoreCache w (t1 ++ [EvMergeProfiles cfg]) (StorePaths cfg) = Err e ->
  ApplyProfile D w (Some cfg) t0
  = (Err e, t1 ++ [EvMergeProfiles cfg; EvNewStoreCache (StorePaths cfg)]).
Proof.
  intros Hsetup Hmerge Hne Hsc.
  rewrite (ApplyProfile_after_merge D w cfg images t0 t1 Hsetup Hmerge).
  destruct images as [|im rest]; [contradiction|].
  change (nonEmpty (im :: rest)) with true. cbv iota.
  unfold bind at 1, applyImages, bind at 1, NewStoreCache, ask.
  rewrite Hsc. now rewrite <- app_assoc.
Qed.

(** X9. When [ApplyProfile] returns nil, the setup and the merge
    succeeded; every image of the merged list was applied (none was
    merged, or the store cache was built and each image applied in its
    turn); and the run ends with the six calls of the last step: create,
    encode, chmod to 0444, debug record, flush, close. *)
Theorem ApplyProfile_success (t0 t : Trace) :
  ApplyProfile D w (Some cfg) t0 = (Ok tt, t) ->
  exists t1 images t2,
    setupPaths D w (Some cfg) t0 = (Ok tt, t1)
    /\ w_mergeProfiles w t1 cfg = Ok images
    /\ ((images = [] /\ t2 = t1 ++ [EvMergeProfiles cfg])
        \/ (images <> []
            /\ exists sc,
                 w_NewStoreCache w (t1 ++ [EvMergeProfiles cfg]) (StorePaths cfg)
                 = Ok sc
                 /\ allApplied D w cfg sc images
                      ((t1 ++ [EvMergeProfiles cfg])
                         ++ [EvNewStoreCache (StorePaths cfg)]) = Some t2))
    /\ t = t2 ++ runProfileCalls D cfg images.
Proof.
  unfold ApplyProfile. intros H.
  apply bind_inv_ok in H as ([] & t1 & Hsetup & H).
  apply mapErr_inv_ok in Hsetup.
  apply bind_inv_ok in H as (images & tm & Hmerge & H).
  unfold mergeProfiles, ask in Hmerge. inversion Hmerge as [[Hm Htm]].
  apply bind_inv_ok in H as ([] & t2 & Hphase & Hwrite).
  exists t1, images, t2. split; [exact Hsetup|]. split; [exact Hm|]. split.
  - destruct images as [|im rest].
    + left. simpl in Hphase. unfold ret in Hphase. inversion Hphase.
      split; congruence.
    + right. split; [discriminate|].
      change (nonEmpty (im :: rest)) with true in Hphase. cbv iota in Hphase.
      subst tm. exact (applyImages_inv_ok _ _ _ Hphase).
  - rewrite writeRunProfile_cases in Hwrite.
    destruct (sysErr w t2 _) as [e|]; [discriminate|].
    destruct (sysErr w (t2 ++ _) _) as [e|]; [discriminate|].
    destruct (sysErr w (t2 ++ _) _) as [e|]; [discriminate|].
    now inversion Hwrite.
Qed.

End ApplyOutcomes.

(** Two images, both applied. *)
Lemma applyImages_nil_iff_all_applied_witness :
  let W := world never [docker; vim] in
  let t := snd (applyImages decls W (Some cfg) [docker; vim] []) in
  allApplied decls W cfg cache [docker; vim] [EvNewStoreCache (StorePaths cfg)]
  = Some t.
Proof.
  intros W t.
  apply (proj1 (applyImages_nil_iff_all_applied decls W cfg cache
                  [docker; vim] [] t eq_refl)).
  vm_compute. reflexivity.
Defined.

(** The base directory cannot be made; the profiles cannot be merged. *)
Lemma ApplyProfile_early_failure_witness :
  ApplyProfile decls (system baseDirFails (Ok cache) (Ok [])) (Some cfg) []
  = (Err (errorsWrap (PathError "mkdir" "/var/lib/torcx" 30) "profile setup"),
     [ EvStat "/run/torcx"; EvMkdirAll "/run/torcx" 493;
       EvStat "/var/lib/torcx"; EvMkdirAll "/var/lib/torcx" 493 ])
  /\ ApplyProfile decls (system allFine (Ok cache) (Err EIO)) (Some cfg) []
     = (Err EIO,
        snd (setupPaths decls (system allFine (Ok cache) (Err EIO)) (Some cfg) [])
          ++ [EvMergeProfiles cfg]).
Proof.
  split.
  - apply (proj1 (ApplyProfile_early_failure decls
                    (system baseDirFails (Ok cache) (Ok [])) cfg [] _ _)).
    reflexivity.
  - apply (proj2 (ApplyProfile_early_failure decls
                    (system allFine (Ok cache) (Err EIO)) cfg [] _ EIO));
      reflexivity.
Defined.

(** One image is merged; the store cache cannot be built. *)
Lemma ApplyProfile_store_failure_witness :
  let W := system allFine (Err EIO) (Ok [docker]) in
  ApplyProfile decls W (Some cfg) []
  = (Err EIO,
     snd (setupPaths decls W (Some cfg) [])
       ++ [EvMergeProfiles cfg; EvNewStoreCache (StorePaths cfg)]).
Proof.
  intros W.
  apply (ApplyProfile_store_failure decls W cfg [docker] []
           (snd (setupPaths decls W (Some cfg) [])) EIO).
  - reflexivity.
  - reflexivity.
  - discriminate.
  - reflexivity.
Defined.

(** Two images are merged and applied; every call succeeds. *)
Lemma ApplyProfile_success_witness :
  let W := world never [docker; vim] in
  exists t1 images t2,
    setupPaths decls W (Some cfg) [] = (Ok tt, t1)
    /\ w_mergeProfiles W t1 cfg = Ok images
    /\ ((images = [] /\ t2 = t1 ++ [EvMergeProfiles cfg])
        \/ (images <> []
            /\ exists sc,
                 w_NewStoreCache W (t1 ++ [EvMergeProfiles cfg]) (StorePaths cfg)
                 = Ok sc
                 /\ allApplied decls W cfg sc images
                      ((t1 ++ [EvMergeProfiles cfg])
                         ++ [EvNewStoreCache (StorePaths cfg)]) = Some t2))
    /\ snd (ApplyProfile decls W (Some cfg) [])
       = t2 ++ runProfileCalls decls cfg images.
Proof.
  intros W.
  apply (ApplyProfile_success decls W cfg []
           (snd (ApplyProfile decls W (Some cfg) []))).
  vm_compute. reflexivity.
Defined.

(** ** The two extractors *)

Section Extractors.

Variable D : Decls.
Variable w : World.
Variable cfg : ApplyConfig.

(** [unpackTgz] once its target directory is there, by the answers of the
    world. *)
Lemma unpackTgz_cases tgzPath imageName t0 t1 :
  let topDir := filepath_Join D (RunUnpackDir D cfg) imageName in
  String.eqb tgzPath "" || String.eqb imageName "" = false ->
  mkdirIfMissing w topDir t0 = (Ok tt, t1) ->
  unpackTgz D w (Some cfg) tgzPath imageName t0
  = match sysErr w t1 (EvOpen tgzPath) with
    | Some e =>
        (Err (errorsWrapf e "opening %q" [ArgStr tgzPath]), t1 ++ [EvOpen tgzPath])
    | None =>
        match sysErr w (t1 ++ [EvOpen tgzPath]) (EvGzipNewReader tgzPath) with
        | Some e =>
            (Err e,
             t1 ++ [EvOpen tgzPath; EvGzipNewReader tgzPath; EvClose tgzPath])
        | None =>
            (match sysErr w (t1 ++ [EvOpen tgzPath; EvGzipNewReader tgzPath])
                     (EvChrootUntar tgzPath topDir true) with
             | Some e => Err (errorsWrapf e "unpacking %q" [ArgStr tgzPath])
             | None => Ok topDir
             end,
             t1 ++ [ EvOpen tgzPath; EvGzipNewReader tgzPath;
                     EvChrootUntar tgzPath topDir true;
                     EvGzipClose tgzPath; EvClose tgzPath ])
        end
    end.
Proof.
  intros topDir Hsrc Hdir. unfold unpackTgz. rewrite Hsrc. cbv zeta.
  fold topDir. rewrite (bind_ok _ _ _ _ _ Hdir).
  unfold os_Open, gzip_NewReader, ChrootUntar.
  unfold bind, mapErr, defer, call, ret.
  destruct (sysErr w t1 (EvOpen tgzPath)) as [e|]; [reflexivity|].
  destruct (sysErr w (t1 ++ [EvOpen tgzPath]) _) as [e|]; simpl.
  { now rewrite <- !app_assoc. }
  replace ((t1 ++ [EvOpen tgzPath]) ++ [EvGzipNewReader tgzPath])
    with (t1 ++ [EvOpen tgzPath; EvGzipNewReader tgzPath])
    by now rewrite <- app_assoc.
  destruct (sysErr w _ (EvChrootUntar tgzPath topDir true)) as [e|];
    now rewrite <- !app_assoc.
Qed.

(** X10. When [unpackTgz] returns a directory, that directory is the
    image name under the unpack directory; the archive was opened, read
    through gzip and unpacked into that directory with privileged extended
    attributes; the gzip reader and then the file were closed. *)
Theorem unpackTgz_success tgzPath imageName (t0 t : Trace) (root : string) :
  unpackTgz D w (Some cfg) tgzPath imageName t0 = (Ok root, t) ->
  root = filepath_Join D (RunUnpackDir D cfg) imageName
  /\ tgzPath <> EmptyString
  /\ imageName <> EmptyString
  /\ exists t1,
       mkdirIfMissing w root t0 = (Ok tt, t1)
       /\ t = t1 ++ [ EvOpen tgzPath; EvGzipNewReader tgzPath;
                      EvChrootUntar tgzPath root true;
                      EvGzipClose tgzPath; EvClose tgzPath ].
Proof.
  intros H.
  destruct (String.eqb tgzPath "" || String.eqb imageName "") eqn:Hsrc.
  { unfold unpackTgz in H. rewrite Hsrc in H. discriminate. }
  apply orb_false_iff in Hsrc as Hboth. destruct Hboth as [Hp Hn].
  apply String.eqb_neq in Hp, Hn.
  destruct (mkdirIfMissing w (filepath_Join D (RunUnpackDir D cfg) imageName) t0)
    as [[[]|e] t1] eqn:Hdir.
  2: { unfold unpackTgz in H. rewrite Hsrc in H. cbv zeta in H.
       rewrite (bind_err _ _ _ _ _ Hdir) in H. discriminate. }
  rewrite (unpackTgz_cases _ _ _ _ Hsrc Hdir) in H.
  destruct (sysErr w t1 _) as [e|]; [discriminate|].
  destruct (sysErr w (t1 ++ _) _) as [e|]; [discriminate|].
  destruct (sysErr w (t1 ++ _) _) as [e|]; [discriminate|].
  inversion H; subst. repeat split; auto. now exists t1.
Qed.

(** X11. Once [unpackTgz] has opened the archive, the file is closed
    by its last call however it ends: after a gzip error, returned as it
    is, nothing else is closed; after unpacking, the gzip reader is closed
    first, and an unpacking error is returned wrapped with the path. *)
Theorem unpackTgz_closes_file tgzPath imageName (t0 t1 : Trace) :
  let topDir := filepath_Join D (RunUnpackDir D cfg) imageName in
  tgzPath <> EmptyString ->
  imageName <> EmptyString ->
  mkdirIfMissing w topDir t0 = (Ok tt, t1) ->
  sysErr w t1 (EvOpen tgzPath) = None ->
  exists r mid,
    unpackTgz D w (Some cfg) tgzPath imageName t0
    = (r, t1 ++ EvOpen tgzPath :: mid ++ [EvClose tgzPath])
    /\ match sysErr w (t1 ++ [EvOpen tgzPath]) (EvGzipNewReader tgzPath) with
       | Some e => r = Err e /\ mid = [EvGzipNewReader tgzPath]
       | None =>
           mid = [ EvGzipNewReader tgzPath; EvChrootUntar tgzPath topDir true;
                   EvGzipClose tgzPath ]
           /\ r = match sysErr w (t1 ++ [EvOpen tgzPath; EvGzipNewReader tgzPath])
                          (EvChrootUntar tgzPath topDir true) with
                  | Some e => Err (errorsWrapf e "unpacking %q" [ArgStr tgzPath])
                  | None => Ok topDir
                  end
       end.
Proof.
  intros topDir Hp Hn Hdir Hopen.
  assert (Hsrc : String.eqb tgzPath "" || String.eqb imageName "" = false).
  { apply orb_false_iff. split; now apply String.eqb_neq. }
  rewrite (unpackTgz_cases _ _ _ _ Hsrc Hdir), Hopen. fold topDir.
  destruct (sysErr w (t1 ++ [EvOpen tgzPath]) _) as [e|].
  - eexists _, [EvGzipNewReader tgzPath]. split; [reflexivity | now split].
  - eexists _, [ EvGzipNewReader tgzPath; EvChrootUntar tgzPath topDir true;
                 EvGzipClose tgzPath ].
    split; [reflexivity | now split].
Qed.

(** X12. Once its target directory is there, [mountSquashfs] attaches a
    loop device to the archive.  When that fails, its error is returned and
    nothing is mounted or released.  Otherwise the device is mounted on the
    target as a read-only squashfs and released right after, whether the
    mount succeeded or not; a mount error is returned as it is. *)
Theorem mountSquashfs_releases_loop_device
    archivePath imageName (t0 t1 : Trace) :
  let topDir := filepath_Join D (RunUnpackDir D cfg) imageName in
  archivePath <> EmptyString ->
  imageName <> EmptyString ->
  mkdirIfMissing w topDir t0 = (Ok tt, t1) ->
  mountSquashfs D w (Some cfg) archivePath imageName t0
  = match w_AttachLoopDevice w t1 archivePath with
    | Err e => (Err e, t1 ++ [EvAttachLoopDevice archivePath])
    | Ok dev =>
        (match sysErr w (t1 ++ [EvAttachLoopDevice archivePath])
                 (EvMount dev topDir "squashfs" MS_RDONLY "") with
         | Some e => Err e
         | None => Ok topDir
         end,
         t1 ++ [ EvAttachLoopDevice archivePath;
                 EvMount dev topDir "squashfs" MS_RDONLY "";
                 EvLoopClose dev ])
    end.
Proof.
  intros topDir Hp Hn Hdir.
  assert (Hsrc : String.eqb archivePath "" || String.eqb imageName "" = false).
  { apply orb_false_iff. split; now apply String.eqb_neq. }
  unfold mountSquashfs. rewrite Hsrc. cbv zeta.
  fold topDir. rewrite (bind_ok _ _ _ _ _ Hdir).
  unfold bind, defer, AttachLoopDevice, ask, unix_Mount, call, ret.
  destruct (w_AttachLoopDevice w t1 archivePath) as [dev|e]; [|reflexivity].
  destruct (sysErr w _ _) as [e|]; now rewrite <- !app_assoc.
Qed.

(** X13. The dispatch on the archive format keeps the two extractors
    apart: a tar archive is never given a loop device nor mounted, a
    squashfs archive is never opened nor unpacked by the program, and any
    other format makes no call at all. *)
Theorem extract_keeps_formats_apart c archive im (t : Trace) :
  match Format archive with
  | ArchiveFormatTgz =>
      seen mountCall (snd (extract D w c archive im t)) = seen mountCall t
  | ArchiveFormatSquashfs =>
      seen tarCall (snd (extract D w c archive im t)) = seen tarCall t
  | ArchiveFormatOther _ => snd (extract D w c archive im t) = t
  end.
Proof.
  unfold extract. destruct (Format archive); [| |reflexivity].
  - revert t. change (quiet mountCall (unpackTgz D w c (Filepath archive) (Name im))).
    unfold unpackTgz. destruct c as [cfg0|]; [|apply quiet_throw].
    destruct (_ || _); [apply quiet_throw|]. cbv zeta.
    apply quiet_bind; [now apply quiet_mkdirIfMissing | intros _].
    quiet_program.
  - revert t. change (quiet tarCall (mountSquashfs D w c (Filepath archive) (Name im))).
    unfold mountSquashfs. destruct c as [cfg0|]; [|apply quiet_throw].
    destruct (_ || _); [apply quiet_throw|]. cbv zeta.
    apply quiet_bind; [now apply quiet_mkdirIfMissing | intros _].
    quiet_program.
Qed.

(** X14. An image whose name is empty, or whose archive has an empty
    path, fails at extraction with [missing unpack source] in either
    recognized format, before any call to the file system: the only calls
    are the lookup and the error record. *)
Theorem applyImage_missing_source sc im archive (t : Trace) :
  w_ArchiveFor w t sc im = Ok archive ->
  (forall raw, Format archive <> ArchiveFormatOther raw) ->
  Filepath archive = EmptyString \/ Name im = EmptyString ->
  applyImage D w cfg sc im t
  = (Err (errorsNew "missing unpack source"),
     t ++ [ EvArchiveFor im;
            EvLog ErrorLevel
              [("image", LStr (Name im)); ("reference", LStr (Reference im))]
              "failed to unpack: " (Some (errorsNew "missing unpack source")) ]).
Proof.
  intros Hl Hfmt Hempty. unfold applyImage. cbv zeta.
  unfold bind at 1, orLog at 1, ArchiveFor, ask. rewrite Hl.
  unfold bind at 1, orLog at 1, extract.
  assert (Hsrc : String.eqb (Filepath archive) "" || String.eqb (Name im) "" = true).
  { apply orb_true_iff. destruct Hempty as [H|H]; rewrite H; auto. }
  destruct (Format archive) as [| |raw] eqn:Hf.
  - unfold unpackTgz. rewrite Hsrc. unfold throw. now rewrite <- app_assoc.
  - unfold mountSquashfs. rewrite Hsrc. unfold throw. now rewrite <- app_assoc.
  - now destruct (Hfmt raw).
Qed.

End Extractors.

(** The docker archive is unpacked on a system where everything succeeds. *)
Lemma unpackTgz_success_witness :
  let W := world never [docker] in
  let root := "/run/torcx/unpack/docker" in
  let tgz := "/store/docker:1.12.torcx.tgz" in
  root = filepath_Join decls (RunUnpackDir decls cfg) "docker"
  /\ tgz <> EmptyString
  /\ "docker" <> EmptyString
  /\ exists t1,
       mkdirIfMissing W root [] = (Ok tt, t1)
       /\ snd (unpackTgz decls W (Some cfg) tgz "docker" [])
          = t1 ++ [ EvOpen tgz; EvGzipNewReader tgz; EvChrootUntar tgz root true;
                    EvGzipClose tgz; EvClose tgz ].
Proof.
  intros W root tgz.
  apply (unpackTgz_success decls W cfg tgz "docker" []
           (snd (unpackTgz decls W (Some cfg) tgz "docker" [])) root).
  reflexivity.
Defined.

(** The archive opens but cannot be unpacked. *)
Lemma unpackTgz_closes_file_witness :
  let W := system untarFails (Ok cache) (Ok [docker]) in
  let root := "/run/torcx/unpack/docker" in
  let tgz := "/store/docker:1.12.torcx.tgz" in
  unpackTgz decls W (Some cfg) tgz "docker" []
  = (Err (errorsWrapf EIO "unpacking %q" [ArgStr tgz]),
     [ EvStat root; EvOpen tgz; EvGzipNewReader tgz; EvChrootUntar tgz root true;
       EvGzipClose tgz; EvClose tgz ]).
Proof.
  intros W root tgz.
  destruct (unpackTgz_closes_file decls W cfg tgz "docker" [] [EvStat root])
    as (r & mid & Hrun & Hcase).
  - discriminate.
  - discriminate.
  - reflexivity.
  - reflexivity.
  - simpl in Hcase. destruct Hcase as [Hmid Hr]. rewrite Hrun, Hmid, Hr.
    reflexivity.
Defined.

(** The loop device attaches but the squashfs cannot be mounted. *)
Lemma mountSquashfs_releases_loop_device_witness :
  let W := system squashfsFails (Ok cache) (Ok [vim]) in
  let root := "/run/torcx/unpack/vim" in
  let img := "/store/vim:8.0.torcx.squashfs" in
  mountSquashfs decls W (Some cfg) img "vim" []
  = (Err EIO,
     [ EvStat root; EvAttachLoopDevice img;
       EvMount "/dev/loop0" root "squashfs" 1 ""; EvLoopClose "/dev/loop0" ]).
Proof.
  intros W root img.
  rewrite (mountSquashfs_releases_loop_device decls W cfg img "vim" [] [EvStat root]).
  - reflexivity.
  - discriminate.
  - discriminate.
  - reflexivity.
Defined.

(** An image without a name, indexed under a tar archive. *)
Lemma applyImage_missing_source_witness :
  let W := system allFine (Ok namelessCache) (Ok [nameless]) in
  applyImage decls W cfg namelessCache nameless []
  = (Err (errorsNew "missing unpack source"),
     [ EvArchiveFor nameless;
       EvLog ErrorLevel [("image", LStr ""); ("reference", LStr "1.0")]
         "failed to unpack: " (Some (errorsNew "missing unpack source")) ]).
Proof.
  intros W.
  apply (applyImage_missing_source decls W cfg namelessCache nameless
           (mkArchive "/store/nameless.torcx.tgz" ArchiveFormatTgz) []).
  - reflexivity.
  - intros raw. discriminate.
  - right. reflexivity.
Defined.

(** ** What the loop body logs and propagates *)

Section Logging.

Variable im : Image.

Lemma failsLogged_bind {A B} (m : M A) (k : A -> M B) :
  failsLogged im m -> (forall a, failsLogged im (k a)) ->
  failsLogged im (bind m k).
Proof.
  intros Hm Hk t e t' H.
  apply bind_inv_err in H as [H | (a & t1 & _ & H)].
  - exact (Hm _ _ _ H).
  - exact (Hk _ _ _ _ H).
Qed.

Lemma failsLogged_orLog {A} more msg (m : M A) :
  failsLogged im
    (orLog ([("image", LStr (Name im)); ("reference", LStr (Reference im))] ++ more)
       msg m).
Proof.
  intros t e t' H. apply orLog_inv_err in H as (t1 & _ & Ht).
  now exists t1, more, msg.
Qed.

Lemma failsLogged_log lvl fields msg err : failsLogged im (log lvl fields msg err).
Proof. intros t e t' H. discriminate. Qed.

Lemma failsLogged_ret {A} (a : A) : failsLogged im (ret a).
Proof. intros t e t' H. discriminate. Qed.

Lemma failsLogged_propagateIf w kind cfg root l lg more bad good :
  failsLogged im
    (propagateIf w kind cfg root l lg
       ([("image", LStr (Name im)); ("reference", LStr (Reference im))] ++ more)
       bad good).
Proof.
  unfold propagateIf. destruct (nonEmpty l); [|apply failsLogged_ret].
  apply failsLogged_bind.
  - rewrite <- app_assoc. apply failsLogged_orLog.
  - intros _. apply failsLogged_log.
Qed.

End Logging.

Section Accounting.

Lemma accounts_bind {A B} (m : M A) (k : A -> M B) :
  accounts m -> (forall a, accounts (k a)) -> accounts (bind m k).
Proof.
  intros Hm Hk t. unfold bind. specialize (Hm t).
  destruct (m t) as [[a|e] t1].
  - specialize (Hk a t1). destruct (k a t1) as [r t2]. lia.
  - exact Hm.
Qed.

Lemma accounts_orLog {A} fields msg (m : M A) :
  quiet errorLog m -> accounts (orLog fields msg m).
Proof.
  intros Hq t. unfold orLog. specialize (Hq t).
  destruct (m t) as [[a|e] t1]; simpl in Hq.
  - rewrite Hq. lia.
  - rewrite seen_app, Hq, length_app. simpl. lia.
Qed.

Lemma accounts_log fields msg err : accounts (log DebugLevel fields msg err).
Proof.
  intros t. simpl. rewrite seen_app, length_app. simpl. lia.
Qed.

Lemma accounts_ret {A} (a : A) : accounts (ret a).
Proof. intros t. simpl. lia. Qed.

Lemma accounts_propagateIf w kind cfg root l lg fields bad good :
  accounts (propagateIf w kind cfg root l lg fields bad good).
Proof.
  unfold propagateIf. destruct (nonEmpty l); [|apply accounts_ret].
  apply accounts_bind.
  - apply accounts_orLog. quiet_program.
  - intros _. apply accounts_log.
Qed.

End Accounting.

Section LoopBody.

Variable D : Decls.
Variable w : World.
Variable cfg : ApplyConfig.
Variable sc : StoreCache.

(** X15. Whenever the loop body fails for an image, the last call it
    made is an error-level log record that carries the error returned and
    starts with the name and the reference of the image. *)
Theorem applyImage_failure_is_logged im (t t' : Trace) (e : error) :
  applyImage D w cfg sc im t = (Err e, t') ->
  loggedFailure im e t'.
Proof.
  revert t e t'. change (failsLogged im (applyImage D w cfg sc im)).
  unfold applyImage. cbv zeta.
  apply failsLogged_bind; [apply (failsLogged_orLog im [])|]. intros archive.
  apply failsLogged_bind; [apply (failsLogged_orLog im [])|]. intros imageRoot.
  apply failsLogged_bind; [apply failsLogged_log|]. intros _.
  apply failsLogged_bind; [apply (failsLogged_orLog im [_])|]. intros assets.
  repeat (apply failsLogged_bind;
          [apply (failsLogged_propagateIf im w _ _ _ _ _ [_]) | intros _]).
  apply (failsLogged_propagateIf im w _ _ _ _ _ [_]).
Qed.

Lemma applyImage_accounts im : accounts (applyImage D w cfg sc im).
Proof.
  unfold applyImage. cbv zeta.
  apply accounts_bind; [apply accounts_orLog; quiet_program|]. intros archive.
  apply accounts_bind;
    [apply accounts_orLog; now apply quiet_extract|]. intros imageRoot.
  apply accounts_bind; [apply accounts_log|]. intros _.
  apply accounts_bind; [apply accounts_orLog; quiet_program|]. intros assets.
  repeat (apply accounts_bind; [apply accounts_propagateIf | intros _]).
  apply accounts_propagateIf.
Qed.

(** X16. The loop over the images logs one error-level record for each
    image it adds to the failed list, and none otherwise. *)
Theorem applyLoop_one_error_record_per_failure
    images failed failed' (t t' : Trace) :
  applyLoop D w cfg sc images failed t = (Ok failed', t') ->
  (List.length (seen errorLog t') + List.length failed
   = List.length (seen errorLog t) + List.length failed')%nat.
Proof.
  revert failed t. induction images as [|im rest IH]; intros failed t H.
  - simpl in H. unfold ret in H. inversion H. lia.
  - pose proof (applyImage_accounts im t) as Hacc.
    destruct (applyImage D w cfg sc im t) as [[[]|e] t1] eqn:Him.
    + rewrite (applyLoop_step_ok D w cfg sc _ _ _ _ _ Him) in H.
      specialize (IH _ _ H). lia.
    + rewrite (applyLoop_step_err D w cfg sc _ _ _ _ _ _ Him) in H.
      specialize (IH _ _ H). rewrite length_app in IH. simpl in IH. lia.
Qed.

Lemma applyLoop_subseq images : forall failed t failed' t',
  applyLoop D w cfg sc images failed t = (Ok failed', t') ->
  exists extra, failed' = failed ++ extra /\ Subseq extra images.
Proof.
  induction images as [|im rest IH]; intros failed t failed' t' H.
  - simpl in H. unfold ret in H. inversion H. exists [].
    split; [now rewrite app_nil_r | constructor].
  - destruct (applyImage D w cfg sc im t) as [[[]|e] t1] eqn:Him.
    + rewrite (applyLoop_step_ok D w cfg sc _ _ _ _ _ Him) in H.
      destruct (IH _ _ _ _ H) as (extra & Hf & Hs).
      exists extra. split; [exact Hf | now constructor].
    + rewrite (applyLoop_step_err D w cfg sc _ _ _ _ _ _ Him) in H.
      destruct (IH _ _ _ _ H) as (extra & Hf & Hs).
      exists (im :: extra). split; [now rewrite Hf, <- app_assoc | now constructor].
Qed.

(** X17. With the store cache built, an error of [applyImages] is the
    aggregate error; the images it counts are images of the list, in the
    order of the list, and there is at least one. *)
Theorem applyImages_error_counts_failed_images
    images (t0 t : Trace) (e : error) :
  w_NewStoreCache w t0 (StorePaths cfg) = Ok sc ->
  applyImages D w (Some cfg) images t0 = (Err e, t) ->
  exists failed,
    applyLoop D w cfg sc images [] (t0 ++ [EvNewStoreCache (StorePaths cfg)])
    = (Ok failed, t)
    /\ Subseq failed images
    /\ failed <> []
    /\ e = fmtErrorf "failed to install %d images"
             [ArgInt (Z.of_nat (List.length failed))].
Proof.
  intros Hsc H.
  destruct (applyLoop_total D w cfg sc images []
              (t0 ++ [EvNewStoreCache (StorePaths cfg)])) as (failed & t2 & Hloop & _).
  simpl in Hloop.
  rewrite (applyImages_run D w cfg sc images failed t0 t2 Hsc Hloop) in H.
  destruct (applyLoop_subseq _ _ _ _ _ Hloop) as (extra & Hf & Hs).
  simpl in Hf. subst extra.
  destruct failed as [|im failed]; [discriminate|].
  inversion H; subst. exists (im :: failed).
  repeat split; [exact Hloop | exact Hs | discriminate].
Qed.

Lemma propagateIf_seen kind root l lg fields bad good t t' :
  propagateIf w kind cfg root l lg fields bad good t = (Ok tt, t') ->
  seen propagation t'
  = seen propagation t ++ (if nonEmpty l then [(kind, l)] else []).
Proof.
  unfold propagateIf. destruct (nonEmpty l).
  - intros H. apply bind_inv_ok in H as ([] & t1 & H1 & H2).
    apply orLog_inv_ok in H1. unfold propagate in H1.
    apply call_inv_ok in H1 as [_ Ht1]. inversion H2; subst.
    rewrite seen_snoc by reflexivity. now rewrite seen_app.
  - intros H. inversion H. now rewrite app_nil_r.
Qed.

(** X18. When the loop body succeeds for an image, the propagation
    steps it has run are those of the categories that are not empty in the
    assets retrieved from the image root, each with its own category, in the
    order binaries, networkd units, systemd units, sysusers, tmpfiles, udev
    rules; no step is run on an empty category. *)
Theorem applyImage_propagates_wanted im (t t' : Trace) :
  applyImage D w cfg sc im t = (Ok tt, t') ->
  exists root tr a,
    w_retrieveAssets w tr cfg root = Ok a
    /\ seen propagation t' = seen propagation t ++ wanted a.
Proof.
  unfold applyImage. cbv zeta. intros H.
  apply bind_inv_ok in H as (archive & t1 & H1 & H).
  apply bind_inv_ok in H as (root & t2 & H2 & H).
  apply bind_inv_ok in H as ([] & t3 & H3 & H).
  apply bind_inv_ok in H as (a & t4 & H4 & H).
  apply bind_inv_ok in H as ([] & t5 & H5 & H).
  apply bind_inv_ok in H as ([] & t6 & H6 & H).
  apply bind_inv_ok in H as ([] & t7 & H7 & H).
  apply bind_inv_ok in H as ([] & t8 & H8 & H).
  apply bind_inv_ok in H as ([] & t9 & H9 & H).
  apply orLog_inv_ok in H1, H2, H4.
  unfold retrieveAssets, ask in H4. inversion H4 as [[Ha Ht4]].
  exists root, t3, a. split; [exact Ha|].
  rewrite (propagateIf_seen _ _ _ _ _ _ _ _ _ H).
  rewrite (propagateIf_seen _ _ _ _ _ _ _ _ _ H9).
  rewrite (propagateIf_seen _ _ _ _ _ _ _ _ _ H8).
  rewrite (propagateIf_seen _ _ _ _ _ _ _ _ _ H7).
  rewrite (propagateIf_seen _ _ _ _ _ _ _ _ _ H6).
  rewrite (propagateIf_seen _ _ _ _ _ _ _ _ _ H5).
  assert (Hquiet : seen propagation (t3 ++ [EvRetrieveAssets cfg root])
                   = seen propagation t).
  { rewrite seen_snoc by reflexivity.
    inversion H3. rewrite seen_snoc by reflexivity.
    pose proof (quiet_extract D w propagation (Some cfg) archive im
                  (fun _ => eq_refl) (fun _ _ => eq_refl) (fun _ => eq_refl)
                  (fun _ => eq_refl) (fun _ => eq_refl) (fun _ => eq_refl)
                  (fun _ _ _ => eq_refl) (fun _ => eq_refl) (fun _ => eq_refl)
                  (fun _ _ _ _ _ => eq_refl) t1) as Hq.
    rewrite H2 in Hq. simpl in Hq. rewrite Hq.
    unfold ArchiveFor, ask in H1. inversion H1.
    now rewrite seen_snoc by reflexivity. }
  rewrite <- Ht4, Hquiet. unfold wanted. simpl.
  rewrite <- !app_assoc.
  destruct (nonEmpty (Binaries a)), (nonEmpty (Network a)), (nonEmpty (Units a)),
    (nonEmpty (Sysusers a)), (nonEmpty (Tmpfiles a)), (nonEmpty (UdevRules a));
    reflexivity.
Qed.

End LoopBody.

(** The archive of [rkt] cannot be opened. *)
Lemma applyImage_failure_is_logged_witness :
  let W := world rktUnreadable [rkt] in
  loggedFailure rkt
    (errorsWrapf EIO "opening %q" [ArgStr "/store/rkt:1.30.torcx.tgz"])
    (snd (applyImage decls W cfg cache rkt [])).
Proof.
  intros W.
  apply (applyImage_failure_is_logged decls W cfg cache rkt []).
  reflexivity.
Defined.

(** Of three images, [rkt] fails: one error record. *)
Lemma applyLoop_one_error_record_per_failure_witness :
  let W := world rktUnreadable [docker; rkt; vim] in
  let t' := snd (applyLoop decls W cfg cache [docker; rkt; vim] [] []) in
  (List.length (seen errorLog t') + List.length (@nil Image)
   = List.length (seen errorLog []) + List.length [rkt])%nat.
Proof.
  intros W t'.
  apply (applyLoop_one_error_record_per_failure decls W cfg cache
           [docker; rkt; vim] [] [rkt] [] t').
  vm_compute. reflexivity.
Defined.

(** Of three images, [rkt] fails: the error counts one image of the list. *)
Lemma applyImages_error_counts_failed_images_witness :
  let W := world rktUnreadable [docker; rkt; vim] in
  let t := snd (applyImages decls W (Some cfg) [docker; rkt; vim] []) in
  exists failed,
    applyLoop decls W cfg cache [docker; rkt; vim] []
      ([] ++ [EvNewStoreCache (StorePaths cfg)]) = (Ok failed, t)
    /\ Subseq failed [docker; rkt; vim]
    /\ failed <> []
    /\ fmtErrorf "failed to install %d images" [ArgInt 1]
       = fmtErrorf "failed to install %d images"
           [ArgInt (Z.of_nat (List.length failed))].
Proof.
  intros W t.
  apply (applyImages_error_counts_failed_images decls W cfg cache
           [docker; rkt; vim] [] t).
  - reflexivity.
  - vm_compute. reflexivity.
Defined.

(** The sample assets hold binaries and unit files only. *)
Lemma applyImage_propagates_wanted_witness :
  let W := world never [docker] in
  exists root tr a,
    w_retrieveAssets W tr cfg root = Ok a
    /\ seen propagation (snd (applyImage decls W cfg cache docker []))
       = seen propagation [] ++ wanted a.
Proof.
  intros W.
  apply (applyImage_propagates_wanted decls W cfg cache docker []
           (snd (applyImage decls W cfg cache docker []))).
  vm_compute. reflexivity.
Defined.

(** ** [SealSystemState], read backwards *)

Section Sealing.

Variable D : Decls.
Variable w : World.
Variable cfg : ApplyConfig.

Lemma writeLines_inv_ok fp content : forall t t',
  writeLines w fp content t = (Ok tt, t') ->
  t' = t ++ map (fun line => EvWriteString fp (line ++ nl)%string) content.
Proof.
  induction content as [|line rest IH]; intros t t' H; simpl in H.
  - unfold ret in H. inversion H. now rewrite app_nil_r.
  - apply bind_inv_ok in H as ([] & t1 & H1 & H2).
    apply mapErr_inv_ok in H1. unfold WriteString in H1.
    apply call_inv_ok in H1 as [_ Ht1]. subst t1.
    rewrite (IH _ _ H2). simpl. now rewrite <- app_assoc.
Qed.

(** The first write that fails ends [writeLines]: the lines before it have
    been written, and the error the world answered to it comes back
    wrapped. *)
Lemma writeLines_fails fp content : forall t,
  writesSucceed w fp content t = false ->
  exists cause written line rest,
    content = written ++ line :: rest
    /\ sysErr w
         (t ++ map (fun l => EvWriteString fp (l ++ nl)%string) written)
         (EvWriteString fp (line ++ nl)%string) = Some cause
    /\ writeLines w fp content t
       = (Err (errorsWrap cause "writing seal content"),
          t ++ map (fun l => EvWriteString fp (l ++ nl)%string) written
            ++ [EvWriteString fp (line ++ nl)%string]).
Proof.
  induction content as [|line rest IH]; intros t H; simpl in H; [discriminate|].
  simpl. unfold bind, mapErr, WriteString, call.
  destruct (sysErr w t (EvWriteString fp (line ++ nl)%string)) as [e|] eqn:He.
  - exists e, [], line, rest. simpl. rewrite app_nil_r. now repeat split.
  - destruct (IH _ H) as (cause & written & bad & rest' & -> & Hs & Hrun).
    exists cause, (line :: written), bad, rest'. simpl.
    rewrite <- app_assoc in Hs, Hrun. simpl in Hs, Hrun.
    split; [reflexivity|]. split; [exact Hs|exact Hrun].
Qed.

Lemma writeLines_quiet_mount fp content : quiet mountCall (writeLines w fp content).
Proof.
  induction content as [|line rest IH]; simpl.
  - apply quiet_ret.
  - apply quiet_bind; [quiet_program | intros _; exact IH].
Qed.

(** [SealSystemState] once the directory of the seal file is there. *)
Lemma SealSystemState_after_dir t0 t1 :
  mkdirIfMissing w (filepath_Dir D (SealPath D)) t0 = (Ok tt, t1) ->
  SealSystemState D w (Some cfg) t0
  = (fp <- os_Create w (SealPath D);;
     defer (EvClose fp)
       (writeLines w fp (sealContent D cfg);;
        mapErr (fun e => errorsWrap e "failed to remount read-only")
          (unix_Mount w (RunUnpackDir D cfg) (RunUnpackDir D cfg) ""
             (Z.lor MS_REMOUNT MS_RDONLY) "");;
        log DebugLevel
          [("path", LStr (SealPath D)); ("content", LList (sealContent D cfg))]
          "system state sealed" None)) t1.
Proof.
  intros Hdir. unfold SealSystemState. cbv zeta.
  now rewrite (bind_ok _ _ _ _ _ Hdir).
Qed.

(** X19. When [SealSystemState] returns nil, the directory of the seal
    file was there or made, the file was created, its five lines were
    written, the unpack directory was remounted read-only with success, and
    the file was closed by the last call. *)
Theorem SealSystemState_success (t0 t : Trace) :
  SealSystemState D w (Some cfg) t0 = (Ok tt, t) ->
  exists t1,
    mkdirIfMissing w (filepath_Dir D (SealPath D)) t0 = (Ok tt, t1)
    /\ t = t1 ++ EvCreate (SealPath D) :: sealWrites D cfg
              ++ [ sealRemount D cfg;
                   EvLog DebugLevel
                     [ ("path", LStr (SealPath D));
                       ("content", LList (sealContent D cfg)) ]
                     "system state sealed" None;
                   EvClose (SealPath D) ]
    /\ List.length (sealWrites D cfg) = 5%nat
    /\ sysErr w (t1 ++ EvCreate (SealPath D) :: sealWrites D cfg)
         (sealRemount D cfg) = None.
Proof.
  intros H.
  destruct (mkdirIfMissing w (filepath_Dir D (SealPath D)) t0)
    as [[[]|e] t1] eqn:Hdir.
  2: { unfold SealSystemState in H. cbv zeta in H.
       rewrite (bind_err _ _ _ _ _ Hdir) in H. discriminate. }
  rewrite (SealSystemState_after_dir _ _ Hdir) in H.
  exists t1. split; [reflexivity|].
  apply bind_inv_ok in H as (fp & t2 & Hcreate & H).
  unfold os_Create in Hcreate.
  apply bind_inv_ok in Hcreate as ([] & t2' & Hc & Hret).
  apply call_inv_ok in Hc as [_ Ht2]. inversion Hret; subst fp t2 t2'.
  apply defer_inv in H as (t3 & H & Ht).
  apply bind_inv_ok in H as ([] & t4 & Hwrites & H).
  apply writeLines_inv_ok in Hwrites. fold (sealWrites D cfg) in Hwrites.
  apply bind_inv_ok in H as ([] & t5 & Hmount & Hlog).
  apply mapErr_inv_ok in Hmount. unfold unix_Mount in Hmount.
  apply call_inv_ok in Hmount as [Hok Ht5].
  inversion Hlog as [Ht3]. fold (sealRemount D cfg) in Hok, Ht5.
  assert (Ht4 : t4 = t1 ++ EvCreate (SealPath D) :: sealWrites D cfg).
  { rewrite Hwrites. now rewrite <- app_assoc. }
  split; [|split; [reflexivity|now rewrite <- Ht4]].
  rewrite Ht, <- Ht3, Ht5, Ht4. rewrite <- !app_assoc. reflexivity.
Qed.

(** X20. When the seal file is created and one of its lines cannot be
    written, [SealSystemState] stops at the first write that fails: the
    lines before it have been written, the error the world answered to that
    write is returned wrapped as [writing seal content], the file is closed
    by the last call, and the unpack directory is not remounted. *)
Theorem SealSystemState_write_failure (t0 t1 : Trace) :
  mkdirIfMissing w (filepath_Dir D (SealPath D)) t0 = (Ok tt, t1) ->
  sysErr w t1 (EvCreate (SealPath D)) = None ->
  writesSucceed w (SealPath D) (sealContent D cfg) (t1 ++ [EvCreate (SealPath D)])
  = false ->
  exists cause written line rest,
    sealContent D cfg = written ++ line :: rest
    /\ sysErr w
         (t1 ++ EvCreate (SealPath D)
             :: map (fun l => EvWriteString (SealPath D) (l ++ nl)%string) written)
         (EvWriteString (SealPath D) (line ++ nl)%string) = Some cause
    /\ SealSystemState D w (Some cfg) t0
       = (Err (errorsWrap cause "writing seal content"),
          t1 ++ EvCreate (SealPath D)
             :: map (fun l => EvWriteString (SealPath D) (l ++ nl)%string) written
             ++ [EvWriteString (SealPath D) (line ++ nl)%string;
                 EvClose (SealPath D)])
    /\ seen mountCall (snd (SealSystemState D w (Some cfg) t0))
       = seen mountCall t1.
Proof.
  intros Hdir Hcreate Hwrites.
  rewrite (SealSystemState_after_dir _ _ Hdir).
  destruct (writeLines_fails _ _ _ Hwrites)
    as (cause & written & line & rest & Hcontent & Hcause & Hfail).
  exists cause, written, line, rest. unfold os_Create.
  rewrite (bind_ok _ _ _ (SealPath D) (t1 ++ [EvCreate (SealPath D)]));
    [|now rewrite (bind_ok _ _ _ _ _ (call_ok w _ t1 Hcreate))].
  unfold defer. rewrite (bind_err _ _ _ _ _ Hfail).
  split; [exact Hcontent|].
  split; [now rewrite <- app_assoc in Hcause|].
  split; [now rewrite <- !app_assoc|].
  pose proof (writeLines_quiet_mount (SealPath D) (sealContent D cfg)
                (t1 ++ [EvCreate (SealPath D)])) as Hq.
  rewrite Hfail in Hq. simpl in Hq. simpl snd.
  now rewrite !seen_snoc in * by reflexivity.
Qed.

(** X21. When the five keys hold no newline, no line of the seal record
    holds one, whatever the profile names and the paths are: each write is
    one line, ended by the newline the program adds. *)
Theorem sealContent_one_line_each :
  noLF (SealLowerProfiles D) = true ->
  noLF (SealUpperProfile D) = true ->
  noLF (SealRunProfilePath D) = true ->
  noLF (SealBindir D) = true ->
  noLF (SealUnpackdir D) = true ->
  List.length (sealContent D cfg) = 5%nat
  /\ Forall (fun line => noLF line = true) (sealContent D cfg).
Proof.
  intros H1 H2 H3 H4 H5. split; [reflexivity|].
  unfold sealContent, Sprintf_s_eq_q.
  repeat constructor; rewrite !noLF_app, Quote_noLF, ?H1, ?H2, ?H3, ?H4, ?H5;
    reflexivity.
Qed.

End Sealing.

(** Every call succeeds. *)
Lemma SealSystemState_success_witness :
  let W := world never [] in
  exists t1,
    mkdirIfMissing W (filepath_Dir decls (SealPath decls)) [] = (Ok tt, t1)
    /\ snd (SealSystemState decls W (Some cfg) [])
       = t1 ++ EvCreate (SealPath decls) :: sealWrites decls cfg
            ++ [ sealRemount decls cfg;
                 EvLog DebugLevel
                   [ ("path", LStr (SealPath decls));
                     ("content", LList (sealContent decls cfg)) ]
                   "system state sealed" None;
                 EvClose (SealPath decls) ]
    /\ List.length (sealWrites decls cfg) = 5%nat
    /\ sysErr W (t1 ++ EvCreate (SealPath decls) :: sealWrites decls cfg)
         (sealRemount decls cfg) = None.
Proof.
  intros W.
  apply (SealSystemState_success decls W cfg []
           (snd (SealSystemState decls W (Some cfg) []))).
  vm_compute. reflexivity.
Defined.

(** The fourth line cannot be written. *)
Lemma SealSystemState_write_failure_witness :
  let W := system bindirLineFails (Ok cache) (Ok []) in
  let t1 := [EvStat "/run/metadata"] in
  let write := fun l => EvWriteString "/run/metadata/torcx" (l ++ nl)%string in
  exists cause written line rest,
    sealContent decls cfg = written ++ line :: rest
    /\ sysErr W (t1 ++ EvCreate "/run/metadata/torcx" :: map write written)
         (write line) = Some cause
    /\ SealSystemState decls W (Some cfg) []
       = (Err (errorsWrap cause "writing seal content"),
          t1 ++ EvCreate "/run/metadata/torcx"
             :: map write written
             ++ [write line; EvClose "/run/metadata/torcx"])
    /\ seen mountCall (snd (SealSystemState decls W (Some cfg) []))
       = seen mountCall t1.
Proof.
  intros W t1 write.
  apply (SealSystemState_write_failure decls W cfg [] t1).
  - reflexivity.
  - reflexivity.
  - vm_compute. reflexivity.
Defined.

(** A profile name with a newline in it stays on its line. *)
Lemma sealContent_one_line_each_witness :
  let odd := {| BaseDir := "/var/lib/torcx"; RunDir := "/run/torcx";
                ConfDir := "/etc/torcx"; StorePaths := [];
                LowerProfiles := ["vendor"];
                UpperProfile := ("se" ++ nl ++ "ssion")%string |} in
  List.length (sealContent decls odd) = 5%nat
  /\ Forall (fun line => noLF line = true) (sealContent decls odd).
Proof.
  intros odd.
  apply (sealContent_one_line_each decls odd); reflexivity.
Defined.

(** ** The os-release parser, read backwards *)

(** A line whose text before the first [=] is not [VERSION_ID] does not
    assign it. *)
Lemma notVersion_of_cut raw :
  (forall val, cut EQS (dropCR raw) <> Some ("VERSION_ID", val)) ->
  notVersion raw = true.
Proof.
  intros H. unfold notVersion. apply negb_true_iff.
  destruct (String.prefix "VERSION_ID=" (dropCR raw)) eqn:Hp; [|reflexivity].
  apply prefix_inv in Hp as [r Hr]. exfalso. apply (H r).
  rewrite Hr. reflexivity.
Qed.

Lemma scan_inv lines : forall v,
  scanVersionID lines = (v, None) ->
  v <> EmptyString ->
  exists pre raw post,
    lines = pre ++ raw :: post
    /\ dropCR raw = ("VERSION_ID=" ++ v)%string
    /\ forallb notVersion pre = true
    /\ forallb fits (pre ++ [raw]) = true.
Proof.
  induction lines as [|raw rest IH]; intros v H Hv.
  - simpl in H. inversion H. congruence.
  - cbn [scanVersionID] in H.
    destruct (MaxScanTokenSize <=? len raw)%N eqn:Hlong; [discriminate|].
    assert (Hfit : fits raw = true).
    { unfold fits. apply N.ltb_lt. now apply N.leb_gt in Hlong. }
    cbv zeta in H. rewrite SplitN_2 in H.
    assert (Hnext : scanVersionID rest = (v, None) -> notVersion raw = true ->
                    exists pre raw0 post,
                      raw :: rest = pre ++ raw0 :: post
                      /\ dropCR raw0 = ("VERSION_ID=" ++ v)%string
                      /\ forallb notVersion pre = true
                      /\ forallb fits (pre ++ [raw0]) = true).
    { intros Hrest Hn. destruct (IH _ Hrest Hv) as (pre & raw0 & post & -> & Hd & Hp & Hf).
      exists (raw :: pre), raw0, post. simpl. rewrite Hn, Hp, Hfit, Hf. now repeat split. }
    destruct (String.eqb_spec (dropCR raw) "") as [Hblank|_].
    { apply Hnext; [exact H|]. unfold notVersion. now rewrite Hblank. }
    destruct (cut EQS (dropCR raw)) as [[k val]|] eqn:Hcut.
    + destruct (String.eqb_spec k "VERSION_ID") as [->|Hk].
      * inversion H; subst val. exists [], raw, rest. simpl.
        rewrite Hfit. repeat split. now apply cut_app in Hcut.
      * apply Hnext; [exact H|]. apply notVersion_of_cut.
        intros val' Hc. rewrite Hcut in Hc. inversion Hc. congruence.
    + apply Hnext; [exact H|]. apply notVersion_of_cut.
      intros val' Hc. rewrite Hcut in Hc. discriminate.
Qed.

Lemma parseOsVersionID_nonempty (rd v : string) :
  parseOsVersionID rd = Ok v -> v <> EmptyString.
Proof.
  unfold parseOsVersionID, finishScan.
  destruct (scanVersionID (rawLines rd)) as [ver [e|]]; [discriminate|].
  destruct (String.eqb_spec ver "") as [|Hne]; [discriminate|].
  intros H. now inversion H; subst.
Qed.

(** X22. A version returned by [parseOsVersionID] is never empty, and it
    is the text after [VERSION_ID=] on the first line of the stream that
    assigns [VERSION_ID]; that line and the lines before it fit the
    scanner. *)
Theorem parseOsVersionID_sound (rd v : string) :
  parseOsVersionID rd = Ok v ->
  v <> EmptyString
  /\ exists pre raw post,
       rawLines rd = pre ++ raw :: post
       /\ dropCR raw = ("VERSION_ID=" ++ v)%string
       /\ forallb notVersion pre = true
       /\ forallb fits (pre ++ [raw]) = true.
Proof.
  unfold parseOsVersionID, finishScan.
  destruct (scanVersionID (rawLines rd)) as [ver [e|]] eqn:Hscan; [discriminate|].
  destruct (String.eqb_spec ver "") as [|Hne]; [discriminate|].
  intros H. inversion H; subst ver. split; [exact Hne|].
  now apply scan_inv.
Qed.

Lemma scan_too_long pre : forall raw post,
  forallb fits pre = true ->
  forallb notVersion pre = true ->
  fits raw = false ->
  scanVersionID (pre ++ raw :: post) = (EmptyString, Some ErrTooLong).
Proof.
  induction pre as [|p pre IH]; intros raw post Hf Hn Hlong.
  - simpl. unfold fits in Hlong. apply N.ltb_ge in Hlong.
    apply N.leb_le in Hlong. now rewrite Hlong.
  - simpl in Hf, Hn. apply andb_true_iff in Hf as [Hf Hfs].
    apply andb_true_iff in Hn as [Hn Hns].
    simpl app. rewrite (scan_notVersion _ _ Hf Hn). now apply IH.
Qed.

(** X23. A line of 65536 bytes or more that comes before any line
    assigning [VERSION_ID] makes [parseOsVersionID] fail with the scanner's
    error wrapped, whatever follows it, a valid [VERSION_ID] line
    included. *)
Theorem parseOsVersionID_line_too_long (rd : string) pre raw post :
  rawLines rd = pre ++ raw :: post ->
  forallb fits pre = true ->
  forallb notVersion pre = true ->
  fits raw = false ->
  parseOsVersionID rd
  = Err (errorsWrap ErrTooLong "failed to parse os-release file").
Proof.
  intros Hlines Hf Hn Hlong. unfold parseOsVersionID.
  now rewrite Hlines, (scan_too_long _ _ _ Hf Hn Hlong).
Qed.

Lemma rawLines_line (s rest : string) :
  noLF s = true -> rawLines (s ++ String LF rest) = s :: rawLines rest.
Proof.
  induction s as [|c s IH]; intros H; [reflexivity|].
  simpl in H. apply andb_true_iff in H as [Hc Hs].
  apply negb_true_iff in Hc. simpl. rewrite Hc. now rewrite (IH Hs).
Qed.

Lemma rawLines_last (s : string) :
  noLF s = true -> s <> EmptyString -> rawLines s = [s].
Proof.
  induction s as [|c s IH]; intros H Hne; [congruence|].
  simpl in H. apply andb_true_iff in H as [Hc Hs].
  apply negb_true_iff in Hc. simpl. rewrite Hc.
  destruct s as [|d s]; [reflexivity|].
  now rewrite (IH Hs) by discriminate.
Qed.

Lemma dropCR_snoc (s : string) : dropCR (s ++ String CR EmptyString) = s.
Proof.
  induction s as [|c s IH]; [reflexivity|].
  simpl. rewrite IH. now destruct s.
Qed.

Lemma dropCR_app (p v : string) :
  v <> EmptyString -> dropCR (p ++ v) = (p ++ dropCR v)%string.
Proof.
  intros Hv. induction p as [|c p IH]; [reflexivity|].
  simpl. rewrite IH. destruct (p ++ v)%string eqn:Hpv; [|reflexivity].
  destruct p; simpl in Hpv; [congruence|discriminate].
Qed.

Lemma sapp_assoc (a b c : string) : ((a ++ b) ++ c = a ++ (b ++ c))%string.
Proof. induction a as [|x a IH]; [reflexivity|]. simpl. now rewrite IH. Qed.

Lemma slength_app (a b : string) :
  String.length (a ++ b) = (String.length a + String.length b)%nat.
Proof. induction a as [|x a IH]; [reflexivity|]. simpl. now rewrite IH. Qed.

Lemma fits_shorter (a b : string) : fits (a ++ b) = true -> fits a = true.
Proof.
  unfold fits, len. intros H. apply N.ltb_lt in H. apply N.ltb_lt.
  rewrite slength_app in H. lia.
Qed.

(** X24. The line ending does not matter to a version line that fits the
    scanner: for a value [v] (not empty, no newline in it, no carriage
    return at its end) so short that [VERSION_ID=v] followed by a carriage
    return is fewer than 65536 bytes, [v] is returned whether the line ends
    the stream without a newline, ends with a newline, or ends with a
    carriage return and a newline. *)
Theorem parseOsVersionID_line_endings (v : string) :
  v <> EmptyString ->
  noLF v = true ->
  dropCR v = v ->
  fits ("VERSION_ID=" ++ v ++ String CR EmptyString) = true ->
  parseOsVersionID ("VERSION_ID=" ++ v) = Ok v
  /\ parseOsVersionID ("VERSION_ID=" ++ v ++ nl) = Ok v
  /\ parseOsVersionID ("VERSION_ID=" ++ v ++ String CR EmptyString ++ nl) = Ok v.
Proof.
  intros Hv Hlf Hcr Hfit.
  assert (Hline : noLF ("VERSION_ID=" ++ v) = true)
    by (now rewrite noLF_app, Hlf).
  assert (Hfit0 : fits ("VERSION_ID=" ++ v) = true).
  { apply (fits_shorter _ (String CR EmptyString)).
    now rewrite sapp_assoc. }
  assert (Hdrop : dropCR ("VERSION_ID=" ++ v) = ("VERSION_ID=" ++ v)%string)
    by (now rewrite dropCR_app, Hcr).
  assert (Hres : finishScan (v, None) = Ok v).
  { unfold finishScan. now destruct (String.eqb_spec v "") as [|_]. }
  unfold parseOsVersionID. split; [|split].
  - rewrite rawLines_last by (auto; discriminate).
    now rewrite (scan_version _ _ v Hfit0 Hdrop).
  - replace ("VERSION_ID=" ++ v ++ nl)%string
      with (("VERSION_ID=" ++ v) ++ String LF "")%string
      by (now rewrite sapp_assoc).
    rewrite (rawLines_line _ _ Hline).
    now rewrite (scan_version _ _ v Hfit0 Hdrop).
  - replace ("VERSION_ID=" ++ v ++ String CR EmptyString ++ nl)%string
      with (("VERSION_ID=" ++ v ++ String CR EmptyString) ++ String LF "")%string
      by (now rewrite !sapp_assoc).
    rewrite rawLines_line by (now rewrite !noLF_app, Hlf).
    rewrite (scan_version _ _ v Hfit); [exact Hres|].
    change ("VERSION_ID=" ++ v ++ String CR EmptyString)%string
      with ("VERSION_ID=" ++ (v ++ String CR EmptyString))%string.
    rewrite <- sapp_assoc. apply dropCR_snoc.
Qed.

(** ** [CurrentOsVersionID] *)

(** The lines a newline ends come first among the raw lines; the bytes
    after the last newline, when there are any, are the last raw line. *)
Lemma rawLines_splitComplete (s : string) :
  rawLines s
  = fst (splitComplete s)
      ++ (if String.eqb (snd (splitComplete s)) "" then []
          else [snd (splitComplete s)]).
Proof.
  induction s as [|c rest IH]; [reflexivity|].
  cbn [rawLines splitComplete]. rewrite IH.
  destruct (splitComplete rest) as [lines last]. cbn [fst snd].
  destruct (Ascii.eqb c LF); [reflexivity|].
  destruct lines as [|l lines']; cbn [fst snd app]; [|reflexivity].
  now destruct last.
Qed.

Lemma scanThen_notVersion atEnd raw rest :
  fits raw = true -> notVersion raw = true ->
  scanVersionIDThen atEnd (raw :: rest) = scanVersionIDThen atEnd rest.
Proof.
  intros Hf Hn. cbn [scanVersionIDThen]. rewrite (fits_not_long _ Hf).
  cbv zeta. rewrite SplitN_2.
  destruct (String.eqb (dropCR raw) ""); [reflexivity|].
  destruct (cut EQS (dropCR raw)) as [[a b]|] eqn:Hcut; [|reflexivity].
  destruct (String.eqb_spec a "VERSION_ID") as [->|_]; [|reflexivity].
  apply cut_app in Hcut. unfold notVersion in Hn. rewrite Hcut in Hn.
  change ("VERSION_ID" ++ String EQS b)%string with ("VERSION_ID=" ++ b)%string in Hn.
  now rewrite prefix_app in Hn.
Qed.

(** Lines that fit and do not assign [VERSION_ID] leave the loop at its
    end. *)
Lemma scanThen_no_version atEnd lines :
  forallb fits lines = true -> forallb notVersion lines = true ->
  scanVersionIDThen atEnd lines = atEnd.
Proof.
  induction lines as [|raw rest IH]; [reflexivity|].
  cbn [forallb]. rewrite !andb_true_iff. intros [Hf Hfs] [Hn Hns].
  rewrite (scanThen_notVersion _ _ _ Hf Hn). now apply IH.
Qed.

(** The loop is left at its end, or where the loop over a stream that
    ends is left. *)
Lemma scanThen_cases atEnd lines :
  scanVersionIDThen atEnd lines = atEnd
  \/ scanVersionIDThen atEnd lines = scanVersionID lines.
Proof.
  induction lines as [|raw rest IH]; [now left|].
  cbn [scanVersionIDThen scanVersionID].
  destruct (MaxScanTokenSize <=? len raw)%N; [now right|].
  cbv zeta. destruct (String.eqb (dropCR raw) ""); [exact IH|].
  destruct (SplitN (dropCR raw) EQS 2) as [|k [|val [|x l]]]; try exact IH.
  destruct (String.eqb k "VERSION_ID"); [now right|exact IH].
Qed.

Lemma finishScan_inv_ok (r : string * option error) (v : string) :
  finishScan r = Ok v -> r = (v, None) /\ v <> EmptyString.
Proof.
  destruct r as [ver [e|]]; simpl; [discriminate|].
  destruct (String.eqb_spec ver "") as [|Hne]; [discriminate|].
  intros H. inversion H; subst. now split.
Qed.

(** What the scanner of an open file returns as a version stands on a line
    that a newline ends when a read failed. *)
Lemma parseOsVersionIDFrom_failing (content : string) (e : error) (v : string) :
  parseOsVersionIDFrom (mkReader content (Some e)) = Ok v ->
  v <> EmptyString
  /\ exists pre raw post,
       fst (splitComplete content) = pre ++ raw :: post
       /\ dropCR raw = ("VERSION_ID=" ++ v)%string
       /\ forallb notVersion pre = true
       /\ forallb fits (pre ++ [raw]) = true.
Proof.
  unfold parseOsVersionIDFrom. cbn [failure delivered].
  destruct (splitComplete content) as [lines last]. cbn [fst].
  intros H.
  destruct (scanThen_cases
              (EmptyString,
               Some (if (MaxScanTokenSize <=? len last)%N then ErrTooLong else e))
              lines) as [Hend | Hscan].
  - rewrite Hend in H. discriminate.
  - rewrite Hscan in H. apply finishScan_inv_ok in H as [Hfound Hne].
    split; [exact Hne|]. now apply scan_inv.
Qed.

(** X25. When [CurrentOsVersionID] returns a version, the version is not
    empty; the file opened is the path given, or the os-release file of
    [/usr] when the path is empty; the file was read and then closed; and
    the version is what [parseOsVersionID] finds in the bytes that were
    read.  When a read failed after these bytes, the version stands on the
    first [VERSION_ID] line among the lines that a newline ends. *)
Theorem CurrentOsVersionID_success
    (D : Decls) (w : World) (path v : string) (t t' : Trace) :
  let p := osReleasePath D path in
  let content := w_content w (t ++ [EvOpen p]) p in
  CurrentOsVersionID D w path t = (Ok v, t') ->
  v <> EmptyString
  /\ sysErr w t (EvOpen p) = None
  /\ t' = t ++ [EvOpen p; EvRead p; EvClose p]
  /\ parseOsVersionID content = Ok v
  /\ (forall e,
        sysErr w (t ++ [EvOpen p]) (EvRead p) = Some e ->
        exists pre raw post,
          fst (splitComplete content) = pre ++ raw :: post
          /\ dropCR raw = ("VERSION_ID=" ++ v)%string
          /\ forallb notVersion pre = true
          /\ forallb fits (pre ++ [raw]) = true).
Proof.
  intros p content. unfold CurrentOsVersionID.
  fold (osReleasePath D path). fold p.
  intros H.
  apply bind_inv_ok in H as (fp & t1 & Hopen & H).
  apply mapErr_inv_ok in Hopen. unfold os_Open in Hopen.
  apply bind_inv_ok in Hopen as ([] & t1' & Hc & Hret).
  apply call_inv_ok in Hc as [Hok Ht1]. inversion Hret; subst fp t1 t1'.
  apply defer_inv in H as (t2 & H & Ht').
  apply bind_inv_ok in H as (rd & t3 & Hread & Hparse).
  unfold NewScanner, ask in Hread. inversion Hread; subst rd t3.
  unfold liftResult in Hparse. injection Hparse as Hv Ht2.
  fold content in Hv.
  assert (Htrace : t' = t ++ [EvOpen p; EvRead p; EvClose p]).
  { rewrite Ht', <- Ht2. now rewrite <- !app_assoc. }
  destruct (sysErr w (t ++ [EvOpen p]) (EvRead p)) as [e|] eqn:Hread'.
  - destruct (parseOsVersionIDFrom_failing _ _ _ Hv)
      as (Hne & pre & raw & post & Hlines & Hd & Hn & Hf).
    split; [exact Hne|]. split; [exact Hok|]. split; [exact Htrace|]. split.
    + unfold parseOsVersionID. rewrite rawLines_splitComplete, Hlines.
      rewrite <- app_assoc. cbn [app].
      rewrite (scan_first_version pre raw v _ Hf Hn Hd). unfold finishScan.
      now destruct (String.eqb_spec v "") as [|_].
    + intros e' _. now exists pre, raw, post.
  - unfold parseOsVersionIDFrom in Hv. cbn [failure delivered] in Hv.
    split; [exact (parseOsVersionID_nonempty _ _ Hv)|].
    split; [exact Hok|]. split; [exact Htrace|]. split; [exact Hv|].
    intros e' He'. discriminate.
Qed.

(** X26. When the file opens and a read of it fails, and no line that a
    newline ended assigns [VERSION_ID] while what was read fits the
    scanner, [CurrentOsVersionID] returns the error of the read wrapped as
    [failed to parse os-release file], whatever the bytes after the last
    newline hold, and closes the file. *)
Theorem CurrentOsVersionID_read_failure
    (D : Decls) (w : World) (path : string) (e : error) (t : Trace) :
  let p := osReleasePath D path in
  let content := w_content w (t ++ [EvOpen p]) p in
  sysErr w t (EvOpen p) = None ->
  sysErr w (t ++ [EvOpen p]) (EvRead p) = Some e ->
  forallb fits (fst (splitComplete content)) = true ->
  forallb notVersion (fst (splitComplete content)) = true ->
  fits (snd (splitComplete content)) = true ->
  CurrentOsVersionID D w path t
  = (Err (errorsWrap e "failed to parse os-release file"),
     t ++ [EvOpen p; EvRead p; EvClose p]).
Proof.
  intros p content Hopen Hread Hf Hn Hlast. unfold CurrentOsVersionID.
  fold (osReleasePath D path). fold p.
  assert (Hfp : mapErr (fun e0 => errorsWrapf e0 "failed to open %q" [ArgStr p])
                  (os_Open w p) t = (Ok p, t ++ [EvOpen p])).
  { apply mapErr_ok. unfold os_Open.
    now rewrite (bind_ok _ _ _ _ _ (call_ok w _ t Hopen)). }
  rewrite (bind_ok _ _ _ _ _ Hfp).
  unfold defer, bind, NewScanner, ask, liftResult, parseOsVersionIDFrom.
  cbn [failure delivered]. rewrite Hread. fold content.
  destruct (splitComplete content) as [lines last]. cbn [fst snd] in *.
  rewrite (scanThen_no_version _ _ Hf Hn), (fits_not_long _ Hlast).
  cbn [finishScan]. now rewrite <- !app_assoc.
Qed.

(** The second fixture of the tests. *)
Lemma parseOsVersionID_sound_witness :
  "2705.0.0" <> EmptyString
  /\ exists pre raw post,
       rawLines osContentFlatcar = pre ++ raw :: post
       /\ dropCR raw = ("VERSION_ID=" ++ "2705.0.0")%string
       /\ forallb notVersion pre = true
       /\ forallb fits (pre ++ [raw]) = true.
Proof.
  apply (parseOsVersionID_sound osContentFlatcar "2705.0.0").
  reflexivity.
Defined.

(** A line of 65536 bytes between an [ID] line and a [VERSION_ID] line. *)
Lemma parseOsVersionID_line_too_long_witness :
  parseOsVersionID
    ("ID=flatcar" ++ nl ++ replicate (N.to_nat MaxScanTokenSize) "x"%char ++ nl
       ++ "VERSION_ID=1" ++ nl)%string
  = Err (errorsWrap ErrTooLong "failed to parse os-release file").
Proof.
  apply (parseOsVersionID_line_too_long _ ["ID=flatcar"]
           (replicate (N.to_nat MaxScanTokenSize) "x"%char) ["VERSION_ID=1"]).
  - change (rawLines
              ("ID=flatcar"
                 ++ String LF
                      (replicate (N.to_nat MaxScanTokenSize) "x"%char
                         ++ String LF ("VERSION_ID=1" ++ String LF "")))
            = ["ID=flatcar"; replicate (N.to_nat MaxScanTokenSize) "x"%char;
               "VERSION_ID=1"]).
    rewrite !rawLines_line; [reflexivity | reflexivity | | reflexivity].
    vm_compute. reflexivity.
  - reflexivity.
  - reflexivity.
  - vm_compute. reflexivity.
Defined.

(** The version of the second fixture, with the three line endings. *)
Lemma parseOsVersionID_line_endings_witness :
  parseOsVersionID ("VERSION_ID=" ++ "2705.0.0") = Ok "2705.0.0"
  /\ parseOsVersionID ("VERSION_ID=" ++ "2705.0.0" ++ nl) = Ok "2705.0.0"
  /\ parseOsVersionID ("VERSION_ID=" ++ "2705.0.0" ++ String CR EmptyString ++ nl)
     = Ok "2705.0.0".
Proof.
  apply (parseOsVersionID_line_endings "2705.0.0").
  - discriminate.
  - reflexivity.
  - reflexivity.
  - reflexivity.
Defined.

(** No path is given; the os-release file of [/usr] is cut short by a
    failing read after its version line. *)
Lemma CurrentOsVersionID_success_witness :
  let W := unreadable osContentCut in
  let p := "/usr/lib/os-release" in
  "2705.0.0" <> EmptyString
  /\ sysErr W [] (EvOpen p) = None
  /\ snd (CurrentOsVersionID decls W "" []) = [] ++ [EvOpen p; EvRead p; EvClose p]
  /\ parseOsVersionID osContentCut = Ok "2705.0.0"
  /\ (forall e,
        sysErr W ([] ++ [EvOpen p]) (EvRead p) = Some e ->
        exists pre raw post,
          fst (splitComplete osContentCut) = pre ++ raw :: post
          /\ dropCR raw = ("VERSION_ID=" ++ "2705.0.0")%string
          /\ forallb notVersion pre = true
          /\ forallb fits (pre ++ [raw]) = true).
Proof.
  intros W p.
  apply (CurrentOsVersionID_success decls W "" "2705.0.0" []
           (snd (CurrentOsVersionID decls W "" []))).
  reflexivity.
Defined.

(** A directory in the place of the os-release file: it opens, and its
    first read fails.  And a file whose read fails after a version line
    that no newline ends. *)
Lemma CurrentOsVersionID_read_failure_witness :
  let p := "/usr/lib/os-release" in
  CurrentOsVersionID decls (unreadable "") "" []
  = (Err (errorsWrap (PathError "read" p 21) "failed to parse os-release file"),
     [] ++ [EvOpen p; EvRead p; EvClose p])
  /\ CurrentOsVersionID decls
       (unreadable ("ID=flatcar" ++ nl ++ "VERSION_ID=2705.0.0")) "" []
     = (Err (errorsWrap (PathError "read" p 21) "failed to parse os-release file"),
        [] ++ [EvOpen p; EvRead p; EvClose p]).
Proof.
  intros p. split.
  - apply (CurrentOsVersionID_read_failure decls (unreadable "") ""
             (PathError "read" p 21) []); reflexivity.
  - apply (CurrentOsVersionID_read_failure decls
             (unreadable ("ID=flatcar" ++ nl ++ "VERSION_ID=2705.0.0")) ""
             (PathError "read" p 21) []); reflexivity.
Defined.

(** ** One image fails at extraction *)

Section OneFailure.

Variable D : Decls.
Variable w : World.
Variable cfg : ApplyConfig.
Variable sc : StoreCache.

Lemma quiet_run {X A} (f : Event -> list X) (m : M A) t r t' :
  quiet f m -> m t = (r, t') -> seen f t' = seen f t.
Proof. intros Hq H. specialize (Hq t). now rewrite H in Hq. Qed.

Lemma propagateIf_seen_at kind root l lg fields bad good t t' :
  propagateIf w kind cfg root l lg fields bad good t = (Ok tt, t') ->
  seen propagationAt t'
  = seen propagationAt t ++ (if nonEmpty l then [(root, (kind, l))] else []).
Proof.
  unfold propagateIf. destruct (nonEmpty l).
  - intros H. apply bind_inv_ok in H as ([] & t1 & H1 & H2).
    apply orLog_inv_ok in H1. unfold propagate in H1.
    apply call_inv_ok in H1 as [_ Ht1]. inversion H2; subst.
    rewrite seen_snoc by reflexivity. now rewrite seen_app.
  - intros H. inversion H. now rewrite app_nil_r.
Qed.

(** An extraction that succeeds has unpacked the archive once, into the
    root of the image, which is what it returns. *)
Lemma extract_ok_calls archive im t t' root :
  extract D w (Some cfg) archive im t = (Ok root, t') ->
  root = imageRoot D cfg im
  /\ seen unpacking t' = seen unpacking t ++ [root].
Proof.
  unfold extract, imageRoot.
  destruct (Format archive); [| |discriminate]; intros H;
    destruct (String.eqb (Filepath archive) "" || String.eqb (Name im) "")
      eqn:Hsrc.
  - unfold unpackTgz in H. rewrite Hsrc in H. discriminate.
  - destruct (mkdirIfMissing w (filepath_Join D (RunUnpackDir D cfg) (Name im)) t)
      as [[[]|e] t1] eqn:Hdir.
    2: { unfold unpackTgz in H. rewrite Hsrc in H. cbv zeta in H.
         rewrite (bind_err _ _ _ _ _ Hdir) in H. discriminate. }
    rewrite (unpackTgz_cases D w cfg _ _ _ _ Hsrc Hdir) in H.
    pose proof (quiet_run unpacking _ _ _ _
                  (quiet_mkdirIfMissing w unpacking _
                     (fun _ => eq_refl) (fun _ _ => eq_refl)) Hdir) as Hq.
    destruct (sysErr w t1 (EvOpen (Filepath archive))); [discriminate|].
    destruct (sysErr w (t1 ++ [EvOpen (Filepath archive)])
                (EvGzipNewReader (Filepath archive))); [discriminate|].
    destruct (sysErr w _ (EvChrootUntar _ _ true)); [discriminate|].
    inversion H; subst. split; [reflexivity|].
    rewrite seen_app, Hq. reflexivity.
  - unfold mountSquashfs in H. rewrite Hsrc in H. discriminate.
  - unfold mountSquashfs in H. rewrite Hsrc in H. cbv zeta in H.
    apply bind_inv_ok in H as ([] & t1 & Hdir & H).
    apply bind_inv_ok in H as (dev & t2 & Hattach & H).
    unfold AttachLoopDevice, ask in Hattach. inversion Hattach as [[Hdev Ht2]].
    apply defer_inv in H as (t3 & H & Ht').
    apply bind_inv_ok in H as ([] & t4 & Hmount & Hret).
    unfold unix_Mount in Hmount. apply call_inv_ok in Hmount as [_ Ht4].
    inversion Hret; subst.
    pose proof (quiet_run unpacking _ _ _ _
                  (quiet_mkdirIfMissing w unpacking _
                     (fun _ => eq_refl) (fun _ _ => eq_refl)) Hdir) as Hq.
    split; [reflexivity|].
    rewrite seen_snoc by reflexivity. rewrite seen_app.
    rewrite seen_snoc by reflexivity. now rewrite Hq.
Qed.

(** What applying one image calls: its archive is unpacked into its root,
    the assets are retrieved from that root, and the steps these assets
    ask for are run on that root. *)
Lemma applyImage_ok_calls im t t' :
  applyImage D w cfg sc im t = (Ok tt, t') ->
  seen unpacking t' = seen unpacking t ++ [imageRoot D cfg im]
  /\ seen retrieval t' = seen retrieval t ++ [imageRoot D cfg im]
  /\ exists tr a,
       w_retrieveAssets w tr cfg (imageRoot D cfg im) = Ok a
       /\ seen propagationAt t'
          = seen propagationAt t ++ map (pair (imageRoot D cfg im)) (wanted a).
Proof.
  unfold applyImage. cbv zeta. intros H.
  apply bind_inv_ok in H as (archive & t1 & H1 & H).
  apply bind_inv_ok in H as (root & t2 & H2 & H).
  apply bind_inv_ok in H as ([] & t3 & H3 & H).
  apply bind_inv_ok in H as (a & t4 & H4 & H).
  apply bind_inv_ok in H as ([] & t5 & H5 & H).
  apply bind_inv_ok in H as ([] & t6 & H6 & H).
  apply bind_inv_ok in H as ([] & t7 & H7 & H).
  apply bind_inv_ok in H as ([] & t8 & H8 & H).
  apply bind_inv_ok in H as ([] & t9 & H9 & H).
  apply orLog_inv_ok in H1, H2, H4.
  unfold retrieveAssets, ask in H4. inversion H4 as [[Ha Ht4]].
  unfold ArchiveFor, ask in H1. inversion H1 as [[Harchive Ht1]].
  inversion H3 as [Ht3].
  destruct (extract_ok_calls _ _ _ _ _ H2) as [Hroot Hunpack].
  assert (Htail : forall X (f : Event -> list X),
             (forall k c r l, f (EvPropagate k c r l) = []) ->
             (forall lvl fs msg err, f (EvLog lvl fs msg err) = []) ->
             seen f t' = seen f t4).
  { intros X f Hp Hl.
    rewrite (quiet_run f _ _ _ _ (quiet_propagateIf w f _ _ _ _ _ _ _ _ Hp Hl) H).
    rewrite (quiet_run f _ _ _ _ (quiet_propagateIf w f _ _ _ _ _ _ _ _ Hp Hl) H9).
    rewrite (quiet_run f _ _ _ _ (quiet_propagateIf w f _ _ _ _ _ _ _ _ Hp Hl) H8).
    rewrite (quiet_run f _ _ _ _ (quiet_propagateIf w f _ _ _ _ _ _ _ _ Hp Hl) H7).
    rewrite (quiet_run f _ _ _ _ (quiet_propagateIf w f _ _ _ _ _ _ _ _ Hp Hl) H6).
    exact (quiet_run f _ _ _ _ (quiet_propagateIf w f _ _ _ _ _ _ _ _ Hp Hl) H5). }
  assert (Hextract : forall X (f : Event -> list X),
             (forall s d x, f (EvChrootUntar s d x) = []) ->
             (forall s tg fs fl d, f (EvMount s tg fs fl d) = []) ->
             (forall p, f (EvStat p) = []) -> (forall p m, f (EvMkdirAll p m) = []) ->
             (forall p, f (EvOpen p) = []) -> (forall p, f (EvClose p) = []) ->
             (forall p, f (EvGzipNewReader p) = []) ->
             (forall p, f (EvGzipClose p) = []) ->
             (forall p, f (EvAttachLoopDevice p) = []) ->
             (forall p, f (EvLoopClose p) = []) ->
             seen f t2 = seen f t1).
  { intros X f ? ? ? ? ? ? ? ? ? ?.
    apply (quiet_run f _ _ _ _ (quiet_extract D w f (Some cfg) archive im
             ltac:(assumption) ltac:(assumption) ltac:(assumption)
             ltac:(assumption) ltac:(assumption) ltac:(assumption)
             ltac:(assumption) ltac:(assumption) ltac:(assumption)
             ltac:(assumption)) H2). }
  subst root. split; [|split].
  - rewrite (Htail _ unpacking) by reflexivity.
    rewrite <- Ht4, <- Ht3. rewrite !seen_snoc by reflexivity.
    rewrite Hunpack, <- Ht1. now rewrite seen_snoc by reflexivity.
  - rewrite (Htail _ retrieval) by reflexivity.
    rewrite <- Ht4, seen_app, <- Ht3. rewrite seen_snoc by reflexivity.
    rewrite (Hextract _ retrieval) by reflexivity.
    rewrite <- Ht1. now rewrite seen_snoc by reflexivity.
  - exists t3, a. split; [exact Ha|].
    rewrite (propagateIf_seen_at _ _ _ _ _ _ _ _ _ H).
    rewrite (propagateIf_seen_at _ _ _ _ _ _ _ _ _ H9).
    rewrite (propagateIf_seen_at _ _ _ _ _ _ _ _ _ H8).
    rewrite (propagateIf_seen_at _ _ _ _ _ _ _ _ _ H7).
    rewrite (propagateIf_seen_at _ _ _ _ _ _ _ _ _ H6).
    rewrite (propagateIf_seen_at _ _ _ _ _ _ _ _ _ H5).
    rewrite <- Ht4, <- Ht3. rewrite !seen_snoc by reflexivity.
    rewrite (Hextract _ propagationAt) by reflexivity.
    rewrite <- Ht1. rewrite seen_snoc by reflexivity.
    unfold wanted. simpl. rewrite <- !app_assoc.
    destruct (nonEmpty (Binaries a)), (nonEmpty (Network a)), (nonEmpty (Units a)),
      (nonEmpty (Sysusers a)), (nonEmpty (Tmpfiles a)), (nonEmpty (UdevRules a));
      reflexivity.
Qed.

Lemma stepsOf_app (R : Image -> Assets -> Prop) pre post l1 l2 :
  Forall2 R pre l1 ->
  stepsOf D cfg (pre ++ post) (l1 ++ l2)
  = stepsOf D cfg pre l1 ++ stepsOf D cfg post l2.
Proof.
  induction 1 as [|im a pre' l1' _ _ IH]; [|simpl; rewrite IH, <- app_assoc];
    reflexivity.
Qed.

(** What applying images one after the other calls. *)
Lemma allApplied_calls images : forall t t',
  allApplied D w cfg sc images t = Some t' ->
  seen unpacking t' = seen unpacking t ++ map (imageRoot D cfg) images
  /\ seen retrieval t' = seen retrieval t ++ map (imageRoot D cfg) images
  /\ exists assetsOf,
       Forall2 (fun im a =>
                  exists tr, w_retrieveAssets w tr cfg (imageRoot D cfg im) = Ok a)
         images assetsOf
       /\ seen propagationAt t'
          = seen propagationAt t ++ stepsOf D cfg images assetsOf.
Proof.
  induction images as [|im rest IH]; intros t t' H; simpl in H.
  - inversion H; subst. rewrite !app_nil_r. split; [|split]; try reflexivity.
    exists []. split; [constructor | now rewrite app_nil_r].
  - destruct (applyImage D w cfg sc im t) as [[[]|e] t1] eqn:Him; [|discriminate].
    destruct (applyImage_ok_calls _ _ _ Him) as (Hu & Hr & tr & a & Ha & Hp).
    destruct (IH _ _ H) as (Hu' & Hr' & assetsOf & Hall & Hp').
    split; [|split].
    + rewrite Hu', Hu. now rewrite <- app_assoc.
    + rewrite Hr', Hr. now rewrite <- app_assoc.
    + exists (a :: assetsOf). split.
      * constructor; [now exists tr | exact Hall].
      * rewrite Hp', Hp. simpl. now rewrite <- !app_assoc.
Qed.

(** The image whose extraction fails: the loop body ends with the error
    record that follows the extraction. *)
Lemma applyImage_extract_fails_run bad archive e t :
  w_ArchiveFor w t sc bad = Ok archive ->
  fst (extract D w (Some cfg) archive bad (t ++ [EvArchiveFor bad])) = Err e ->
  exists fields msg,
    applyImage D w cfg sc bad t
    = (Err e,
       snd (extract D w (Some cfg) archive bad (t ++ [EvArchiveFor bad]))
         ++ [EvLog ErrorLevel fields msg (Some e)]).
Proof.
  intros Hl He. unfold applyImage. cbv zeta.
  unfold bind at 1, orLog at 1, ArchiveFor, ask. rewrite Hl.
  unfold bind at 1, orLog at 1.
  destruct (extract D w (Some cfg) archive bad (t ++ [EvArchiveFor bad])) as [r tx].
  simpl in He. subst r. now eexists _, _.
Qed.

(** Nothing is retrieved from it and nothing of it is propagated. *)
Lemma applyImage_extract_fails_calls bad archive e t :
  w_ArchiveFor w t sc bad = Ok archive ->
  fst (extract D w (Some cfg) archive bad (t ++ [EvArchiveFor bad])) = Err e ->
  seen retrieval (snd (applyImage D w cfg sc bad t)) = seen retrieval t
  /\ seen propagationAt (snd (applyImage D w cfg sc bad t)) = seen propagationAt t.
Proof.
  intros Hl He.
  destruct (applyImage_extract_fails_run _ _ _ _ Hl He) as (fields & msg & Hrun).
  rewrite Hrun. cbn [snd].
  pose proof (quiet_extract D w retrieval (Some cfg) archive bad
                (fun _ => eq_refl) (fun _ _ => eq_refl) (fun _ => eq_refl)
                (fun _ => eq_refl) (fun _ => eq_refl) (fun _ => eq_refl)
                (fun _ _ _ => eq_refl) (fun _ => eq_refl) (fun _ => eq_refl)
                (fun _ _ _ _ _ => eq_refl) (t ++ [EvArchiveFor bad])) as Hr.
  pose proof (quiet_extract D w propagationAt (Some cfg) archive bad
                (fun _ => eq_refl) (fun _ _ => eq_refl) (fun _ => eq_refl)
                (fun _ => eq_refl) (fun _ => eq_refl) (fun _ => eq_refl)
                (fun _ _ _ => eq_refl) (fun _ => eq_refl) (fun _ => eq_refl)
                (fun _ _ _ _ _ => eq_refl) (t ++ [EvArchiveFor bad])) as Hp.
  split.
  - rewrite seen_snoc by reflexivity. rewrite Hr.
    now rewrite seen_snoc by reflexivity.
  - rewrite seen_snoc by reflexivity. rewrite Hp.
    now rewrite seen_snoc by reflexivity.
Qed.

(** C2. When exactly one image of the merged list, neither the first nor
    the last, fails at extraction and the others are applied, [applyImages]
    attempts every image of the list in order, its failed-images list is
    the failed image alone, and the error it returns carries the count 1 and
    nothing about the image.  The others have been applied: the archive of
    each was unpacked into the root of the image, in the order of the list;
    the assets were retrieved from that root, for each of them once and for
    the failed image not at all; and the propagation steps that were run
    are, image after image, those the retrieved assets ask for, each on the
    root of its image, none being run for the failed image. *)
Theorem applyImages_one_extraction_failure
    pre bad post archive e t0 t2 t3 :
  pre <> [] ->
  post <> [] ->
  w_NewStoreCache w t0 (StorePaths cfg) = Ok sc ->
  allApplied D w cfg sc pre (t0 ++ [EvNewStoreCache (StorePaths cfg)]) = Some t2 ->
  w_ArchiveFor w t2 sc bad = Ok archive ->
  fst (extract D w (Some cfg) archive bad (t2 ++ [EvArchiveFor bad])) = Err e ->
  allApplied D w cfg sc post (snd (applyImage D w cfg sc bad t2)) = Some t3 ->
  applyLoop D w cfg sc (pre ++ bad :: post) []
    (t0 ++ [EvNewStoreCache (StorePaths cfg)]) = (Ok [bad], t3)
  /\ applyImages D w (Some cfg) (pre ++ bad :: post) t0
     = (Err (fmtErrorf "failed to install %d images" [ArgInt 1]), t3)
  /\ attempted t3 = attempted t0 ++ pre ++ bad :: post
  /\ seen unpacking t2 = seen unpacking t0 ++ map (imageRoot D cfg) pre
  /\ seen unpacking t3
     = seen unpacking (snd (applyImage D w cfg sc bad t2))
         ++ map (imageRoot D cfg) post
  /\ seen retrieval t3
     = seen retrieval t0 ++ map (imageRoot D cfg) (pre ++ post)
  /\ exists assetsOf,
       Forall2 (fun im a =>
                  exists tr, w_retrieveAssets w tr cfg (imageRoot D cfg im) = Ok a)
         (pre ++ post) assetsOf
       /\ seen propagationAt t3
          = seen propagationAt t0 ++ stepsOf D cfg (pre ++ post) assetsOf.
Proof.
  intros _ _ Hsc Hpre Hl He Hpost.
  assert (Hloop : applyLoop D w cfg sc (pre ++ bad :: post) []
                    (t0 ++ [EvNewStoreCache (StorePaths cfg)]) = (Ok [bad], t3)).
  { rewrite (applyLoop_app D w cfg sc pre _ _ _ _ _
               (applyLoop_allApplied D w cfg sc pre [] _ _ Hpre)).
    pose proof (applyImage_extract_fails D w cfg sc bad archive e t2 Hl He) as Hbad.
    destruct (applyImage D w cfg sc bad t2) as [r tb] eqn:Him.
    simpl in Hbad, Hpost. subst r.
    rewrite (applyLoop_step_err D w cfg sc _ _ _ _ _ _ Him).
    now apply applyLoop_allApplied. }
  destruct (allApplied_calls _ _ _ Hpre) as (Hu1 & Hr1 & l1 & Hall1 & Hp1).
  destruct (allApplied_calls _ _ _ Hpost) as (Hu2 & Hr2 & l2 & Hall2 & Hp2).
  destruct (applyImage_extract_fails_calls _ _ _ _ Hl He) as [Hrb Hpb].
  rewrite seen_snoc in Hu1 by reflexivity.
  rewrite seen_snoc in Hr1 by reflexivity.
  rewrite seen_snoc in Hp1 by reflexivity.
  split; [exact Hloop|]. split; [|split; [|split; [|split; [|split]]]].
  - now rewrite (applyImages_run D w cfg sc _ _ _ _ Hsc Hloop).
  - destruct (applyLoop_total D w cfg sc (pre ++ bad :: post) []
                (t0 ++ [EvNewStoreCache (StorePaths cfg)])) as (extra & t' & Hl' & Hseen).
    rewrite Hloop in Hl'. inversion Hl'; subst t'.
    rewrite Hseen. unfold attempted. now rewrite seen_snoc.
  - exact Hu1.
  - exact Hu2.
  - rewrite Hr2, Hrb, Hr1, map_app. now rewrite <- app_assoc.
  - exists (l1 ++ l2). split; [now apply Forall2_app|].
    rewrite Hp2, Hpb, Hp1, (stepsOf_app _ _ _ _ _ Hall1).
    now rewrite <- app_assoc.
Qed.

End OneFailure.

(** The archive of [rkt], the second of three images, cannot be opened. *)
Lemma applyImages_one_extraction_failure_witness :
  let W := world rktUnreadable [docker; rkt; vim] in
  let t1 := [EvNewStoreCache (StorePaths cfg)] in
  let t2 := snd (applyLoop decls W cfg cache [docker] [] t1) in
  let tb := snd (applyImage decls W cfg cache rkt t2) in
  let t3 := snd (applyLoop decls W cfg cache [docker; rkt; vim] [] t1) in
  applyLoop decls W cfg cache [docker; rkt; vim] [] t1 = (Ok [rkt], t3)
  /\ applyImages decls W (Some cfg) [docker; rkt; vim] []
     = (Err (fmtErrorf "failed to install %d images" [ArgInt 1]), t3)
  /\ attempted t3 = [docker; rkt; vim]
  /\ seen unpacking t2 = seen unpacking [] ++ map (imageRoot decls cfg) [docker]
  /\ seen unpacking t3 = seen unpacking tb ++ map (imageRoot decls cfg) [vim]
  /\ seen retrieval t3
     = seen retrieval [] ++ map (imageRoot decls cfg) ([docker] ++ [vim])
  /\ exists assetsOf,
       Forall2 (fun im a =>
                  exists tr,
                    w_retrieveAssets W tr cfg (imageRoot decls cfg im) = Ok a)
         ([docker] ++ [vim]) assetsOf
       /\ seen propagationAt t3
          = seen propagationAt [] ++ stepsOf decls cfg ([docker] ++ [vim]) assetsOf.
Proof.
  intros W t1 t2 tb t3.
  apply (applyImages_one_extraction_failure decls W cfg cache
           [docker] rkt [vim]
           (mkArchive "/store/rkt:1.30.torcx.tgz" ArchiveFormatTgz)
           (errorsWrapf EIO "opening %q" [ArgStr "/store/rkt:1.30.torcx.tgz"])
           [] t2 t3).
  - discriminate.
  - discriminate.
  - reflexivity.
  - vm_compute. reflexivity.
  - reflexivity.
  - vm_compute. reflexivity.
  - vm_compute. reflexivity.
Defined.
